(** * kbeval: matching and scoring of extracted relations against a reference

    A shallow embedding of [script/kbeval-main-experiment.py]: the identity
    model (Entity, MergedEntity, Relation, MergedRelation, Dataset), the
    reference canonicalizer, the similarity functions, the redundancy filter,
    the evaluation driver and the median of the repetitions of a document,
    followed by the properties of the written specification that were
    checked against them and by further properties of the code.

    Conventions.
    - A Python [str] is a list of Unicode code points ([pystr]).
    - A Python call that may raise returns an [outcome]; [exit(1)] is the
      outcome [Exit 1].
    - Python floats are read as rationals ([Q], kept in lowest terms).
    - [str.lower], [json.loads] and the classes imported from the
      [evaluate] package are not part of the script; they are variables of
      the section and every general theorem holds for all of them. *)

From Stdlib Require Import String Ascii.
From Stdlib Require Import List ZArith NArith QArith Qminmax Bool Lia Lqa.
From Stdlib Require Import Permutation Sorted.
From Stdlib Require DecimalString.
Import ListNotations.
Local Open Scope nat_scope.

(** ** Strings *)

Definition char := N.
Definition pystr := list char.

Definition str (s : string) : pystr := map N_of_ascii (list_ascii_of_string s).

Definition str_eqb (a b : pystr) : bool :=
  if list_eq_dec N.eq_dec a b then true else false.

(** [str.isspace] / the regular-expression class [\s] on [str]. *)
Definition is_space (c : char) : bool :=
  ((9 <=? c) && (c <=? 13) || (28 <=? c) && (c <=? 32) || (c =? 133) || (c =? 160)
   || (c =? 5760) || (8192 <=? c) && (c <=? 8202) || (c =? 8232) || (c =? 8233)
   || (c =? 8239) || (c =? 8287) || (c =? 12288))%N.

(** [s.split()]: maximal runs of non-space characters. *)
Fixpoint split_from (cur : pystr) (s : pystr) : list pystr :=
  match s with
  | [] => match cur with [] => [] | _ => [rev cur] end
  | c :: s' =>
      if is_space c
      then match cur with [] => split_from [] s' | _ => rev cur :: split_from [] s' end
      else split_from (c :: cur) s'
  end.

Definition split (s : pystr) : list pystr := split_from [] s.

(** [s.strip()]. *)
Fixpoint lstrip (s : pystr) : pystr :=
  match s with
  | c :: s' => if is_space c then lstrip s' else s
  | [] => []
  end.

Definition strip (s : pystr) : pystr := rev (lstrip (rev (lstrip s))).

(** The ASCII part of [str.lower], used to run the examples. *)
Definition ascii_lower_char (c : char) : char :=
  if ((65 <=? c) && (c <=? 90))%N then (c + 32)%N else c.

Definition ascii_lower (s : pystr) : pystr := map ascii_lower_char s.

(** ** Outcomes of Python calls *)

Inductive exn : Type :=
  | IndexError | KeyError | TypeError | AttributeError | ValueError | ZeroDivisionError.

(** How a call ends: it returns, it raises, it leaves the process through
    [exit], or its input leaves the typed data model (a field that the data
    model types as a string holds another decoded value), in which case
    nothing is said about it. *)
Inductive outcome (A : Type) : Type :=
  | Ret (a : A)
  | Raise (e : exn)
  | Exit (code : Z)
  | Unmodelled.

Arguments Ret {A} a.
Arguments Raise {A} e.
Arguments Exit {A} code.
Arguments Unmodelled {A}.

Definition bind {A B : Type} (c : outcome A) (k : A -> outcome B) : outcome B :=
  match c with
  | Ret a => k a
  | Raise e => Raise e
  | Exit z => Exit z
  | Unmodelled => Unmodelled
  end.

Declare Scope py_scope.
Delimit Scope py_scope with py.
Notation "x <- c ;; k" := (bind c (fun x => k))
  (at level 61, c at next level, right associativity) : py_scope.
Local Open Scope py_scope.

Fixpoint mapM {A B : Type} (f : A -> outcome B) (l : list A) : outcome (list B) :=
  match l with
  | [] => Ret []
  | a :: l' => b <- f a ;; bs <- mapM f l' ;; Ret (b :: bs)
  end.

(** ** Identity model *)

Definition NORM_TYPES : list pystr :=
  [str "NCBI_Taxonomy"; str "GeoNames"; str "OntoBiotope"; str "name"].

Definition entity_key : Type := (pystr * pystr * pystr)%type.

Definition key_eqb (a b : entity_key) : bool :=
  let '(t1, k1, v1) := a in
  let '(t2, k2, v2) := b in
  str_eqb t1 t2 && str_eqb k1 k2 && str_eqb v1 v2.

(** [class Entity]; [id_] is [None] when the record has no ['id']. *)
Record Entity : Type := mkEntity {
  id_ : option pystr;
  type_ : pystr;
  name : pystr;
  normalization_type : pystr;
  normalization_value : pystr
}.

Definition key (e : Entity) : entity_key :=
  (type_ e, normalization_type e, normalization_value e).

Definition id_eqb (a b : option pystr) : bool :=
  match a, b with
  | Some x, Some y => str_eqb x y
  | None, None => true
  | _, _ => false
  end.

(** Python [set.add] on a set kept in insertion order. *)
Definition set_add {A : Type} (eqb : A -> A -> bool) (x : A) (s : list A) : list A :=
  if existsb (eqb x) s then s else s ++ [x].

(** [class MergedEntity]. *)
Record MergedEntity : Type := mkMerged {
  me_type : pystr;
  ids : list (option pystr);
  names : list pystr;
  me_normalization_type : pystr;
  me_normalization_value : pystr;
  me_key : entity_key
}.

(** [MergedEntity.__init__]. *)
Definition MergedEntity_init (ent : Entity) : MergedEntity :=
  {| me_type := type_ ent;
     ids := [id_ ent];
     names := [name ent];
     me_normalization_type := normalization_type ent;
     me_normalization_value := normalization_value ent;
     me_key := key ent |}.

(** [MergedEntity.add]. *)
Definition add (me : MergedEntity) (ent : Entity) : MergedEntity :=
  {| me_type := me_type me;
     ids := set_add id_eqb (id_ ent) (ids me);
     names := set_add str_eqb (name ent) (names me);
     me_normalization_type := me_normalization_type me;
     me_normalization_value := me_normalization_value me;
     me_key := me_key me |}.

(** [MergedEntity.QUOTES]. *)
Definition QUOTES : list char := [34; 39; 8216; 8217; 8220; 8221; 96; 180]%N.

Definition in_quotes (c : char) : bool := existsb (N.eqb c) QUOTES.

(** The opening of [match_name] and [jaccard_name]: [pred_name[0]] and
    [pred_name[-1]] are read first, then [pred_name[1:-1]] is taken when
    both are quotation characters. *)
Definition strip_quotes (pred_name : pystr) : outcome pystr :=
  match pred_name with
  | [] => Raise IndexError
  | first :: rest =>
      if in_quotes first && in_quotes (last pred_name first)
      then Ret (removelast rest)
      else Ret pred_name
  end.

(** [range(lo, hi)]. *)
Definition py_range (lo hi : Z) : list Z :=
  map (fun k => (lo + Z.of_nat k)%Z) (seq 0 (Z.to_nat (hi - lo))).

Definition tokens_eqb (a b : list pystr) : bool :=
  if list_eq_dec (list_eq_dec N.eq_dec) a b then true else false.

(** One turn of the loop of [_jaccard_seq]. *)
Definition shift_step (seq1 seq2 : list pystr) (best : nat) (shift : Z) : nat :=
  let start1 := Z.to_nat (Z.max 0 (- shift)) in
  let start2 := Z.to_nat (Z.max 0 shift) in
  let sub1 := skipn start1 seq1 in
  let sub2 := skipn start2 seq2 in
  let m := Nat.min (length sub1) (length sub2) in
  if (best <? m) && tokens_eqb (firstn m sub1) (firstn m sub2) then m else best.

Definition jaccard_best (seq1 seq2 : list pystr) : nat :=
  fold_left (shift_step seq1 seq2)
            (py_range (1 - Z.of_nat (length seq1)) (Z.of_nat (length seq2))) 0.

Definition ratio (a b : nat) : Q := Qred (Z.of_nat a # Pos.of_nat b).

(** [MergedEntity._jaccard_seq]. *)
Definition _jaccard_seq (seq1 seq2 : list pystr) : outcome Q :=
  let n1 := length seq1 in
  let n2 := length seq2 in
  let best := jaccard_best seq1 seq2 in
  let union := n1 + n2 - best in
  if union =? 0 then Raise ZeroDivisionError else Ret (ratio best union).

(** [max(...)] over a sequence of floats. *)
Definition py_max (l : list Q) : outcome Q :=
  match l with
  | [] => Raise ValueError
  | q :: l' => Ret (fold_left (fun acc x => if Qle_bool x acc then acc else x) l' q)
  end.


(** [class Relation]: [source] and [target] are entity ids on the reference
    side and surface names on the predicted side. *)
Record Relation : Type := mkRelation {
  r_type : pystr;
  source : pystr;
  target : pystr
}.

(** [class MergedRelation]. *)
Record MergedRelation : Type := mkMergedRelation {
  mr_type : pystr;
  mr_source : MergedEntity;
  mr_target : MergedEntity
}.

(** [MergedRelation.TYPEMAP]. *)
Definition TYPEMAP : list (pystr * pystr) :=
  [ (str "Cause", str "Causes");
    (str "Affect", str "Affects");
    (str "Have been found on", str "Has been found on");
    (str "Transmit", str "Transmits") ].

(** [d.get(k)] on a dictionary kept as an association list; the last
    binding of a key is the current one. *)
Fixpoint dict_get {V : Type} (k : pystr) (d : list (pystr * V)) : option V :=
  match d with
  | [] => None
  | (k', v) :: d' =>
      match dict_get k d' with
      | Some w => Some w
      | None => if str_eqb k k' then Some v else None
      end
  end.

(** [JUNK_CHARS_IN_TYPE.sub('', s)] with [JUNK_CHARS_IN_TYPE = [\s_]+]. *)
Definition remove_junk (s : pystr) : pystr :=
  filter (fun c => negb (is_space c || (c =? 95)%N)) s.

(** [class Dataset]. *)
Record Dataset : Type := mkDataset {
  entities : list Entity;
  relations : list Relation;
  equivalences : list (list pystr)
}.

(** [class MergedRefDataset]; its [equivalences] are always [()]. *)
Record MergedRefDataset : Type := mkMergedRefDataset {
  m_entities : list MergedEntity;
  m_relations : list MergedRelation
}.

(** ** Decoded JSON *)

#[local] Set Warnings "-register-all".

Inductive json : Type :=
  | JNull
  | JBool (b : bool)
  | JNum (z : Z)
  | JFloat (q : Q)
  | JStr (s : pystr)
  | JArr (l : list json)
  | JObj (kv : list (pystr * json)).

(** Python truth value of a decoded value. *)
Definition truthy (j : json) : bool :=
  match j with
  | JNull => false
  | JBool b => b
  | JNum z => negb (z =? 0)%Z
  | JFloat q => negb (Qeq_bool q 0%Q)
  | JStr s => match s with [] => false | _ => true end
  | JArr l => match l with [] => false | _ => true end
  | JObj kv => match kv with [] => false | _ => true end
  end.

Fixpoint dedup_keys (seen : list pystr) (l : list pystr) : list pystr :=
  match l with
  | [] => []
  | k :: l' => if existsb (str_eqb k) seen then dedup_keys seen l'
               else k :: dedup_keys (k :: seen) l'
  end.

(** Iterating over a decoded value: a list gives its items, a string its
    characters, a dictionary its keys; anything else is not iterable. *)
Definition iter_json (j : json) : outcome (list json) :=
  match j with
  | JArr l => Ret l
  | JStr s => Ret (map (fun c => JStr [c]) s)
  | JObj kv => Ret (map JStr (dedup_keys [] (map fst kv)))
  | _ => Raise TypeError
  end.

(** The keyword arguments of a [**ent] call: [ent] must be a mapping. *)
Definition kwargs (j : json) : outcome (list (pystr * json)) :=
  match j with
  | JObj kv => Ret kv
  | _ => Raise TypeError
  end.

(** [args[k]]. *)
Definition subscript (args : list (pystr * json)) (k : pystr) : outcome json :=
  match dict_get k args with
  | Some v => Ret v
  | None => Raise KeyError
  end.

(** The data model types every field as a string; a decoded value of
    another type in such a field is outside of it. *)
Definition as_str (j : json) : outcome pystr :=
  match j with
  | JStr s => Ret s
  | _ => Unmodelled
  end.

Definition as_id (j : option json) : outcome (option pystr) :=
  match j with
  | None | Some JNull => Ret None
  | Some (JStr s) => Ret (Some s)
  | Some _ => Unmodelled
  end.

(** ** Repair of the text before decoding *)

Fixpoint starts_with (p s : pystr) : bool :=
  match p, s with
  | [], _ => true
  | a :: p', b :: s' => (a =? b)%N && starts_with p' s'
  | _ :: _, [] => false
  end.

(** The text after the first occurrence of [p], if any. *)
Fixpoint after_first (p s : pystr) : option pystr :=
  if starts_with p s then Some (skipn (length p) s)
  else match s with
       | [] => None
       | _ :: s' => after_first p s'
       end.

(** The text before the last occurrence of [p], if any. *)
Fixpoint before_last (p s : pystr) : option pystr :=
  match s with
  | [] => if starts_with p [] then Some [] else None
  | c :: s' =>
      match before_last p s' with
      | Some t => Some (c :: t)
      | None => if starts_with p s then Some [] else None
      end
  end.

(** [remove_codeblock]: the pattern [CODEBLOCK] is an opening fence
    followed by [json], a greedy group of any characters (with [re.DOTALL])
    and a closing fence, so the group runs from the first opening fence to
    the last closing one. *)
Definition remove_codeblock (content : pystr) : pystr :=
  match after_first (str "```json") content with
  | None => content
  | Some rest =>
      match before_last (str "```") rest with
      | None => content
      | Some body => body
      end
  end.

Definition closes_bracket (s : pystr) : bool :=
  match lstrip s with
  | c :: _ => (c =? 125)%N || (c =? 93)%N
  | [] => false
  end.

(** [remove_last_comma]: [LAST_COMMA] is a comma followed, after optional
    white space, by a closing brace or bracket (a lookahead). *)
Fixpoint remove_last_comma (content : pystr) : pystr :=
  match content with
  | [] => []
  | c :: s' =>
      if (c =? 44)%N && closes_bracket s' then remove_last_comma s'
      else c :: remove_last_comma s'
  end.

(** ** A decoder for a fragment of JSON

    [json_loads_lite] reads objects, arrays, escape-free strings, integers
    without exponent and the three literals. It answers [None] on every
    other text and only serves to run the examples, on texts of the
    fragment and on texts that are not JSON at all. *)

Fixpoint skip_ws (s : pystr) : pystr :=
  match s with
  | c :: s' => if ((c =? 32) || (c =? 9) || (c =? 10) || (c =? 13))%N then skip_ws s' else s
  | [] => []
  end.

Fixpoint read_string (acc : pystr) (s : pystr) : option (pystr * pystr) :=
  match s with
  | [] => None
  | c :: s' =>
      if (c =? 34)%N then Some (rev acc, s')
      else if ((c =? 92) || (c <? 32))%N then None
      else read_string (c :: acc) s'
  end.

Definition is_digit (c : char) : bool := ((48 <=? c) && (c <=? 57))%N.

Fixpoint read_digits (acc : Z) (s : pystr) : Z * pystr :=
  match s with
  | c :: s' => if is_digit c then read_digits (10 * acc + Z.of_N (c - 48)) s' else (acc, s)
  | [] => (acc, [])
  end.

Definition ends_number (s : pystr) : bool :=
  match s with
  | c :: _ => negb ((c =? 46) || (c =? 101) || (c =? 69) || is_digit c)%N
  | [] => true
  end.

Definition read_int (s : pystr) : option (Z * pystr) :=
  match s with
  | c :: s' =>
      if (c =? 48)%N then (if ends_number s' then Some (0%Z, s') else None)
      else if is_digit c
      then let '(z, rest) := read_digits 0 s in
           if ends_number rest then Some (z, rest) else None
      else None
  | [] => None
  end.

Fixpoint read_value (fuel : nat) (s : pystr) : option (json * pystr) :=
  match fuel with
  | O => None
  | S fuel' =>
      let fix read_items (n : nat) (acc : list json) (s : pystr) : option (json * pystr) :=
        match n with
        | O => None
        | S n' =>
            match read_value fuel' s with
            | None => None
            | Some (v, rest) =>
                match skip_ws rest with
                | c :: rest' =>
                    if (c =? 44)%N then read_items n' (v :: acc) rest'
                    else if (c =? 93)%N then Some (JArr (rev (v :: acc)), rest')
                    else None
                | [] => None
                end
            end
        end in
      let fix read_members (n : nat) (acc : list (pystr * json)) (s : pystr)
        : option (json * pystr) :=
        match n with
        | O => None
        | S n' =>
            match skip_ws s with
            | q :: s1 =>
                if (q =? 34)%N then
                  match read_string [] s1 with
                  | None => None
                  | Some (k, s2) =>
                      match skip_ws s2 with
                      | colon :: s3 =>
                          if (colon =? 58)%N then
                            match read_value fuel' s3 with
                            | None => None
                            | Some (v, rest) =>
                                match skip_ws rest with
                                | c :: rest' =>
                                    if (c =? 44)%N then read_members n' ((k, v) :: acc) rest'
                                    else if (c =? 125)%N
                                    then Some (JObj (rev ((k, v) :: acc)), rest')
                                    else None
                                | [] => None
                                end
                            end
                          else None
                      | [] => None
                      end
                  end
                else None
            | [] => None
            end
        end in
      match skip_ws s with
      | [] => None
      | c :: s' =>
          if (c =? 34)%N then
            match read_string [] s' with
            | Some (t, rest) => Some (JStr t, rest)
            | None => None
            end
          else if (c =? 91)%N then
            match skip_ws s' with
            | d :: rest => if (d =? 93)%N then Some (JArr [], rest)
                           else read_items (length s) [] s'
            | [] => None
            end
          else if (c =? 123)%N then
            match skip_ws s' with
            | d :: rest => if (d =? 125)%N then Some (JObj [], rest)
                           else read_members (length s) [] s'
            | [] => None
            end
          else if starts_with (str "null") (c :: s') then Some (JNull, skipn 4 (c :: s'))
          else if starts_with (str "true") (c :: s') then Some (JBool true, skipn 4 (c :: s'))
          else if starts_with (str "false") (c :: s') then Some (JBool false, skipn 5 (c :: s'))
          else if (c =? 45)%N then
            match read_int s' with
            | Some (z, rest) => Some (JNum (- z), rest)
            | None => None
            end
          else match read_int (c :: s') with
               | Some (z, rest) => Some (JNum z, rest)
               | None => None
               end
      end
  end.

Definition json_loads_lite (s : pystr) : option json :=
  match read_value (S (length s)) s with
  | Some (v, rest) => match skip_ws rest with [] => Some v | _ => None end
  | None => None
  end.

(** ** Output and the driver monad

    What the script writes is kept as a trace: [log] lines (without their
    time stamp) and [print] lines. *)

Inductive event : Type :=
  | Log (msg : pystr)
  | Print (msg : pystr)
  | PrintFloat (q : Q).

Definition io (A : Type) : Type := list event -> outcome A * list event.

Definition io_ret {A : Type} (a : A) : io A := fun t => (Ret a, t).

Definition io_bind {A B : Type} (c : io A) (k : A -> io B) : io B :=
  fun t =>
    match c t with
    | (Ret a, t') => k a t'
    | (Raise e, t') => (Raise e, t')
    | (Exit z, t') => (Exit z, t')
    | (Unmodelled, t') => (Unmodelled, t')
    end.

Definition lift {A : Type} (c : outcome A) : io A := fun t => (c, t).

Definition log (msg : pystr) : io unit := fun t => (Ret tt, t ++ [Log msg]).

Definition print (msg : pystr) : io unit := fun t => (Ret tt, t ++ [Print msg]).

Definition print_float (q : Q) : io unit := fun t => (Ret tt, t ++ [PrintFloat q]).

Definition exit {A : Type} (code : Z) : io A := fun t => (Exit code, t).

(** [try: body  except ZeroDivisionError: handler]. *)
Definition try_except_zero_division {A : Type} (body handler : io A) : io A :=
  fun t =>
    match body t with
    | (Raise ZeroDivisionError, t') => handler t'
    | r => r
    end.

Notation "x <~ c ;; k" := (io_bind c (fun x => k))
  (at level 61, c at next level, right associativity) : py_scope.
Notation "c ;;; k" := (io_bind c (fun _ => k))
  (at level 61, right associativity) : py_scope.

Fixpoint for_each {A : Type} (f : A -> io unit) (l : list A) : io unit :=
  match l with
  | [] => io_ret tt
  | a :: l' => f a ;;; for_each f l'
  end.

(** ** Construction from decoded records *)

(** The first normalization kind of [NORM_TYPES] present in the record. *)
Definition find_norm (args : list (pystr * json)) : option pystr :=
  find (fun nt => match dict_get nt args with Some _ => true | None => false end) NORM_TYPES.

(** [Entity.__init__], called with the items of [ent] as keyword arguments. *)
Definition Entity_init (ent : json) : outcome Entity :=
  args <- kwargs ent ;;
  let id := dict_get (str "id") args in
  ty <- subscript args (str "type") ;;
  nm <- subscript args (str "name") ;;
  match find_norm args with
  | None => Raise AttributeError
  | Some nt =>
      nv <- subscript args nt ;;
      id <- as_id id ;;
      ty <- as_str ty ;;
      nm <- as_str nm ;;
      nv <- as_str nv ;;
      Ret (mkEntity id ty nm nt nv)
  end.

(** [Relation.__init__], called with the items of [rel] as keyword arguments. *)
Definition Relation_init (rel : json) : outcome Relation :=
  args <- kwargs rel ;;
  ty <- subscript args (str "type") ;;
  st <- match dict_get (str "arguments") args with
        | Some (JObj a) =>
            s <- subscript a (str "source") ;;
            t <- subscript a (str "target") ;;
            Ret (s, t)
        | Some _ => Raise TypeError
        | None =>
            s <- subscript args (str "source") ;;
            t <- match dict_get (str "target") args with
                 | Some v => if truthy v then Ret v else subscript args (str "name")
                 | None => subscript args (str "name")
                 end ;;
            Ret (s, t)
        end ;;
  ty <- as_str ty ;;
  s <- as_str (fst st) ;;
  t <- as_str (snd st) ;;
  Ret (mkRelation ty s t).

(** [elt.get(k, [])] followed by [list.extend]. *)
Definition get_items (elt : json) (k : pystr) : outcome (list json) :=
  match elt with
  | JObj kv => match dict_get k kv with
               | Some v => iter_json v
               | None => Ret []
               end
  | _ => Raise AttributeError
  end.

Fixpoint squash_chunks (l : list json) (ents rels : list json) : outcome json :=
  match l with
  | [] => Ret (JObj [(str "entities", JArr ents); (str "relationships", JArr rels)])
  | elt :: l' =>
      e <- get_items elt (str "entities") ;;
      r <- get_items elt (str "relationships") ;;
      squash_chunks l' (ents ++ e) (rels ++ r)
  end.

(** [squash_list]. *)
Definition squash_list (j : json) : outcome json :=
  match j with
  | JArr l => squash_chunks l [] []
  | _ => Ret j
  end.

(** [set(eq)] for one equivalence set of ids. *)
Definition id_set (eq : json) : outcome (list pystr) :=
  items <- iter_json eq ;;
  l <- mapM (fun x => match x with
                      | JArr _ | JObj _ => Raise TypeError
                      | _ => as_str x
                      end) items ;;
  Ret (dedup_keys [] l).

(** The part of [Dataset.from_json_file] that follows [json.loads]. *)
Definition dataset_of_json (j : json) : io Dataset :=
  j <~ lift (squash_list j) ;;
  kv <~ lift (match j with JObj kv => Ret kv | _ => Raise AttributeError end) ;;
  let kv := match dict_get (str "relationships") kv with
            | Some v => if truthy v then kv else kv ++ [(str "relationships", JArr [])]
            | None => kv ++ [(str "relationships", JArr [])]
            end in
  entities <~ lift (e <- subscript kv (str "entities") ;;
                    items <- iter_json e ;; mapM Entity_init items) ;;
  relations <~ lift (r <- subscript kv (str "relationships") ;;
                     items <- iter_json r ;; mapM Relation_init items) ;;
  equivalences <~ lift (match dict_get (str "equivalences") kv with
                        | Some e => items <- iter_json e ;; mapM id_set items
                        | None => Ret []
                        end) ;;
  match relations with
  | [] => log (str "WARNING: empty relations")
  | _ => io_ret tt
  end ;;;
  io_ret (mkDataset entities relations equivalences).

(** ** Reference canonicalizer *)

(** A dictionary whose newest binding is in front. *)
Fixpoint assoc {K V : Type} (eqb : K -> K -> bool) (k : K) (d : list (K * V)) : option V :=
  match d with
  | [] => None
  | (k', v) :: d' => if eqb k k' then Some v else assoc eqb k d'
  end.

Fixpoint update_at {A : Type} (i : nat) (f : A -> A) (l : list A) : list A :=
  match l, i with
  | [], _ => []
  | a :: l', O => f a :: l'
  | a :: l', S i' => a :: update_at i' f l'
  end.

(** The state of the loop of [_merge_ref_entities]. The [MergedEntity]
    objects live in [clusters], in the order in which they are yielded; both
    dictionaries hold references to them, that is, positions in [clusters],
    so that [add] through either dictionary changes the yielded object. *)
Record merge_state : Type := mkState {
  clusters : list MergedEntity;
  ent_map : list (entity_key * nat);
  eqid_map : list (pystr * nat)
}.

(** [id_ in eq] and [id_ in eqid_map]: the ids of equivalence sets are
    strings, so an absent id is in none. *)
Definition id_in (id : option pystr) (eq : list pystr) : bool :=
  match id with
  | Some s => existsb (str_eqb s) eq
  | None => false
  end.

Definition eqid_get (id : option pystr) (m : list (pystr * nat)) : option nat :=
  match id with
  | Some s => assoc str_eqb s m
  | None => None
  end.

(** The two inner loops run when a cluster is created. *)
Definition register (me : nat) (id : option pystr) (eqs : list (list pystr))
  (m : list (pystr * nat)) : list (pystr * nat) :=
  fold_left (fun m eq =>
               if id_in id eq then fold_left (fun m id_ => (id_, me) :: m) eq m else m)
            eqs m.

(** One turn of the loop of [_merge_ref_entities]. *)
Definition merge_step (eqs : list (list pystr)) (st : merge_state) (ent : Entity)
  : merge_state :=
  match assoc key_eqb (key ent) (ent_map st) with
  | Some i => mkState (update_at i (fun me => add me ent) (clusters st))
                      (ent_map st) (eqid_map st)
  | None =>
      match eqid_get (id_ ent) (eqid_map st) with
      | Some i => mkState (update_at i (fun me => add me ent) (clusters st))
                          (ent_map st) (eqid_map st)
      | None =>
          let me := length (clusters st) in
          mkState (clusters st ++ [MergedEntity_init ent])
                  ((key ent, me) :: ent_map st)
                  (register me (id_ ent) eqs (eqid_map st))
      end
  end.

Definition merge_run (eqs : list (list pystr)) (st : merge_state) (ents : list Entity)
  : merge_state :=
  fold_left (merge_step eqs) ents st.

(** [Dataset._merge_ref_entities], read once the generator is exhausted. *)
Definition _merge_ref_entities (ds : Dataset) : list MergedEntity :=
  clusters (merge_run (equivalences ds) (mkState [] [] []) (entities ds)).

(** The dictionary [ent_id_map] built by [_merge_ref_relations]. *)
Definition build_ent_id_map (ents : list MergedEntity)
  : list (option pystr * MergedEntity) :=
  fold_left (fun m me => fold_left (fun m id => (id, me) :: m) (ids me) m) ents [].

(** [ent_id_map[id]]. *)
Definition ent_lookup (ent_id_map : list (option pystr * MergedEntity)) (id : pystr)
  : outcome MergedEntity :=
  match assoc id_eqb (Some id) ent_id_map with
  | Some me => Ret me
  | None => Raise KeyError
  end.

Definition relation_key : Type := (pystr * entity_key * entity_key)%type.

Definition relation_key_eqb (a b : relation_key) : bool :=
  let '(t1, s1, g1) := a in
  let '(t2, s2, g2) := b in
  str_eqb t1 t2 && key_eqb s1 s2 && key_eqb g1 g2.

(** [Relation.key]. *)
Definition Relation_key (ent_id_map : list (option pystr * MergedEntity)) (rel : Relation)
  : outcome relation_key :=
  s <- ent_lookup ent_id_map (source rel) ;;
  t <- ent_lookup ent_id_map (target rel) ;;
  Ret (r_type rel, me_key s, me_key t).

(** [MergedRelation.__init__]. *)
Definition MergedRelation_init (ent_id_map : list (option pystr * MergedEntity))
  (rel : Relation) : outcome MergedRelation :=
  s <- ent_lookup ent_id_map (source rel) ;;
  t <- ent_lookup ent_id_map (target rel) ;;
  Ret (mkMergedRelation (r_type rel) s t).

(** The loop of [_merge_ref_relations]. *)
Fixpoint merge_relations (ent_id_map : list (option pystr * MergedEntity))
  (rel_map : list relation_key) (rels : list Relation) : outcome (list MergedRelation) :=
  match rels with
  | [] => Ret []
  | rel :: rels' =>
      k <- Relation_key ent_id_map rel ;;
      if existsb (relation_key_eqb k) rel_map
      then merge_relations ent_id_map rel_map rels'
      else mr <- MergedRelation_init ent_id_map rel ;;
           l <- merge_relations ent_id_map (k :: rel_map) rels' ;;
           Ret (mr :: l)
  end.

(** [Dataset._merge_ref_relations]. *)
Definition _merge_ref_relations (ds : Dataset) (ents : list MergedEntity)
  : outcome (list MergedRelation) :=
  merge_relations (build_ent_id_map ents) [] (relations ds).

(** [Dataset.merge_ref]. *)
Definition merge_ref (ds : Dataset) : io MergedRefDataset :=
  log (str "merging reference relations") ;;;
  let ents := _merge_ref_entities ds in
  rels <~ lift (_merge_ref_relations ds ents) ;;
  io_ret (mkMergedRefDataset ents rels).

(** ** Pairs and the collaborators of the [evaluate] package *)

(** Modelled from the spec: the class [Pair] of [evaluate.pairing] is not
    part of the script. A pair holds an optional reference relation, an
    optional predicted relation and the similarity that justified the
    pairing (0 when one side is absent). *)
Record Pair : Type := mkPair {
  ref : option MergedRelation;
  pred : option Relation;
  score : Q
}.

Definition similarity : Type := MergedRelation -> Relation -> outcome Q.

(** [enumerate(l)]: a predicted relation is an object without [__eq__], so
    it is identified by its position in the list. *)
Definition enumerate {A : Type} (l : list A) : list (nat * A) := combine (seq 0 (length l)) l.

Section Kbeval.

(** [str.lower]. *)
Variable lower : pystr -> pystr.

(** [json.loads]; [None] stands for [json.decoder.JSONDecodeError]. *)
Variable json_loads : pystr -> option json.

(** [open(filename).read()]; [None] stands for [FileNotFoundError]. *)
Variable fs : pystr -> option pystr.

(** [MunkresPairing(sim).get_pairs], [BaseScores], [IEScores], the [items()]
    of both score tables (keys and formatted values) and the attribute
    [f_score], all from the [evaluate] package. *)
Variable get_pairs : similarity -> list MergedRelation -> list Relation -> outcome (list Pair).
Variables BaseT IET : Type.
Variable BaseScores : list Pair -> outcome BaseT.
Variable IEScores : list Pair -> BaseT -> outcome IET.
Variable base_items : BaseT -> outcome (list (pystr * pystr)).
Variable ie_items : IET -> outcome (list (pystr * pystr)).
Variable f_score : IET -> outcome Q.

(** [MergedEntity.match_name]. *)
Definition match_name (me : MergedEntity) (pred_name : pystr) : outcome bool :=
  pred_name <- strip_quotes pred_name ;;
  let pred_name := lower pred_name in
  Ret (existsb (fun name => str_eqb (lower name) pred_name) (names me)).

(** [MergedEntity.jaccard_name]. *)
Definition jaccard_name (me : MergedEntity) (pred_name : pystr) : outcome Q :=
  pred_name <- strip_quotes pred_name ;;
  let pred_tokens := split (lower pred_name) in
  scores <- mapM (fun name => _jaccard_seq (split (lower name)) pred_tokens) (names me) ;;
  py_max scores.

(** [MergedRelation._normalize_type]. *)
Definition _normalize_type (type_ : pystr) : pystr :=
  let mapped := match assoc str_eqb type_ TYPEMAP with
                | Some t => t
                | None => type_
                end in
  lower (remove_junk mapped).

(** [MergedRelation.match_type]. *)
Definition match_type (self : MergedRelation) (pred_type : pystr) : bool :=
  str_eqb (_normalize_type (mr_type self)) (_normalize_type pred_type).

Definition float_of_bool (b : bool) : Q := if b then 1%Q else 0%Q.

Definition standard_type_similarity (r : MergedRelation) (type_ : pystr) : outcome Q :=
  Ret (float_of_bool (match_type r type_)).

Definition relaxed_type_similarity (r : MergedRelation) (type_ : pystr) : outcome Q :=
  if match_type r type_ then Ret 1%Q else Ret (9 # 10)%Q.

Definition standard_arg_similarity (r : MergedEntity) (name : pystr) : outcome Q :=
  b <- match_name r name ;; Ret (float_of_bool b).

Definition relaxed_arg_similarity (r : MergedEntity) (name : pystr) : outcome Q :=
  jaccard_name r name.

(** [relation_similarity]: the three factors are computed from left to
    right. *)
Definition relation_similarity
  (type_sim : MergedRelation -> pystr -> outcome Q)
  (arg_sim : MergedEntity -> pystr -> outcome Q) : similarity :=
  fun r p =>
    t <- type_sim r (r_type p) ;;
    s <- arg_sim (mr_source r) (source p) ;;
    g <- arg_sim (mr_target r) (target p) ;;
    Ret (t * s * g)%Q.

Definition strict_sim : similarity :=
  relation_similarity standard_type_similarity standard_arg_similarity.

(** The inner loop of [pred_redundant] for one reference relation. *)
Fixpoint scan_pred (r : MergedRelation) (found : bool) (preds : list (nat * Relation))
  : outcome (list nat) :=
  match preds with
  | [] => Ret []
  | (i, p) :: rest =>
      s <- strict_sim r p ;;
      if Qeq_bool s 1%Q
      then if found
           then l <- scan_pred r true rest ;; Ret (i :: l)
           else scan_pred r true rest
      else scan_pred r found rest
  end.

(** [pred_redundant], yielding the positions of the redundant objects. *)
Definition pred_redundant (refs : list MergedRelation) (preds : list Relation)
  : outcome (list nat) :=
  l <- mapM (fun r => scan_pred r false (enumerate preds)) refs ;;
  Ret (concat l).

(** [list(p for p in pred.relations if p not in redundant)]. *)
Definition not_redundant (redundant : list nat) (preds : list Relation) : list Relation :=
  map snd (filter (fun ip => negb (existsb (Nat.eqb (fst ip)) redundant)) (enumerate preds)).

(** [log_scores]. *)
Definition log_scores (name : pystr) (items : outcome (list (pystr * pystr))) : io unit :=
  log (name ++ str " scores: ") ;;;
  items <~ lift items ;;
  for_each (fun kv => log (str "  " ++ fst kv ++ str ": " ++ snd kv)) items.

(** [evaluate]. *)
Definition evaluate (r : MergedRefDataset) (p : Dataset)
  (type_sim : MergedRelation -> pystr -> outcome Q)
  (arg_sim : MergedEntity -> pystr -> outcome Q) : io (BaseT * IET * list Pair) :=
  redundant <~ lift (pred_redundant (m_relations r) (relations p)) ;;
  let pred_rels := not_redundant redundant (relations p) in
  pairs <~ lift (get_pairs (relation_similarity type_sim arg_sim) (m_relations r) pred_rels) ;;
  base <~ lift (BaseScores pairs) ;;
  log_scores (str "Base") (base_items base) ;;;
  ie <~ lift (IEScores pairs base) ;;
  log_scores (str "IE") (ie_items ie) ;;;
  io_ret (base, ie, pairs).

(** What [evaluate] does once the filtered predictions are known. *)
Definition evaluate_from (r : MergedRefDataset)
  (type_sim : MergedRelation -> pystr -> outcome Q)
  (arg_sim : MergedEntity -> pystr -> outcome Q)
  (pred_rels : list Relation) : io (BaseT * IET * list Pair) :=
  pairs <~ lift (get_pairs (relation_similarity type_sim arg_sim) (m_relations r) pred_rels) ;;
  base <~ lift (BaseScores pairs) ;;
  log_scores (str "Base") (base_items base) ;;;
  ie <~ lift (IEScores pairs base) ;;
  log_scores (str "IE") (ie_items ie) ;;;
  io_ret (base, ie, pairs).

(** [Dataset.from_json_file]. *)
Definition from_json_file (filename : pystr) : io Dataset :=
  log (str "reading " ++ filename) ;;;
  match fs filename with
  | None => log (str "ERROR: file not found") ;;; exit 1
  | Some content =>
      let jc := strip content in
      let jc := remove_codeblock jc in
      let jc := remove_last_comma jc in
      match json_loads jc with
      | None => log (str "ERROR: malformed JSON") ;;; io_ret (mkDataset [] [] [])
      | Some j => dataset_of_json j
      end
  end.

(** [MergedRefDataset.from_json_file]. *)
Definition MergedRefDataset_from_json_file (filename : pystr) : io MergedRefDataset :=
  ds <~ from_json_file filename ;; merge_ref ds.

(** The body of the [try] statement of [main]. *)
Definition main_body (ref_ds : MergedRefDataset) (pred_ds : Dataset) : io Q :=
  res <~ evaluate ref_ds pred_ds standard_type_similarity standard_arg_similarity ;;
  let '(_, ie, _) := res in
  f <~ lift (f_score ie) ;;
  print_float f ;;;
  print (str "format error") ;;;
  io_ret f.

(** The [except ZeroDivisionError] clause of [main]. *)
Definition main_handler : io Q :=
  log (str "WARNING: nil R/P") ;;;
  print_float 0%Q ;;;
  io_ret 0%Q.

(** [main]. *)
Definition main (ref_fn pred_fn : pystr) : io Q :=
  ref_ds <~ MergedRefDataset_from_json_file ref_fn ;;
  pred_ds <~ from_json_file pred_fn ;;
  try_except_zero_division (main_body ref_ds pred_ds) main_handler.

End Kbeval.

(** ** The pairing engine and the score tables, from the specification *)

Definition matching : Type := list (nat * nat).

Definition weight (w : list (list Q)) (i j : nat) : Q := nth j (nth i w []) 0%Q.

Definition total (w : list (list Q)) (m : matching) : Q :=
  fold_right (fun ij acc => (weight w (fst ij) (snd ij) + acc)%Q) 0%Q m.

(** Modelled from the spec: [MunkresPairing] of [evaluate.pairing] is not
    part of the script. The spec asks for a maximum-weight one-to-one
    assignment between the rows (reference relations) and the columns
    (predicted relations) of the similarity matrix; [best_matching] finds one
    by trying, for every row, to leave it unmatched or to give it any column
    that is still free. *)
Fixpoint best_matching (w : list (list Q)) (rows cols : list nat) : matching :=
  match rows with
  | [] => []
  | i :: rows' =>
      fold_left
        (fun best j =>
           let cand := (i, j) :: best_matching w rows' (remove Nat.eq_dec j cols) in
           if Qle_bool (total w cand) (total w best) then best else cand)
        cols (best_matching w rows' cols)
  end.

(** A pair before the relations are looked up: positions on both sides. *)
Definition slot : Type := (option nat * option nat * Q)%type.

Definition mem_nat (i : nat) (l : list nat) : bool := existsb (Nat.eqb i) l.

(** Modelled from the spec: the pairs emitted for an assignment. Matched
    positions carry their similarity; every unmatched reference relation and
    every unmatched predicted relation is emitted alone with score 0. *)
Definition slots_of (w : list (list Q)) (R P : nat) (m : matching) : list slot :=
  map (fun ij => (Some (fst ij), Some (snd ij), weight w (fst ij) (snd ij))) m
  ++ map (fun i => (Some i, None, 0%Q))
         (filter (fun i => negb (mem_nat i (map fst m))) (seq 0 R))
  ++ map (fun j => (None, Some j, 0%Q))
         (filter (fun j => negb (mem_nat j (map snd m))) (seq 0 P)).

Definition pair_of_slot (refs : list MergedRelation) (preds : list Relation) (s : slot)
  : Pair :=
  let '(i, j, q) := s in
  mkPair (match i with Some i => nth_error refs i | None => None end)
         (match j with Some j => nth_error preds j | None => None end)
         q.

(** The similarity matrix, one row per reference relation. *)
Definition weights (sim : similarity) (refs : list MergedRelation) (preds : list Relation)
  : outcome (list (list Q)) :=
  mapM (fun r => mapM (sim r) preds) refs.

(** Modelled from the spec: [MunkresPairing(sim).get_pairs(refs, preds)]. *)
Definition munkres_get_pairs (sim : similarity) (refs : list MergedRelation)
  (preds : list Relation) : outcome (list Pair) :=
  w <- weights sim refs preds ;;
  Ret (map (pair_of_slot refs preds)
           (slots_of w (length refs) (length preds)
                     (best_matching w (seq 0 (length refs)) (seq 0 (length preds))))).

(** Python's [/] on floats. *)
Definition py_div (a b : Q) : outcome Q :=
  if Qeq_bool b 0%Q then Raise ZeroDivisionError else Ret (Qred (a / b)).

Record base_scores : Type := mkBase {
  tp : nat;
  fp : nat;
  fn : nat;
  precision : Q;
  recall : Q;
  f1 : Q
}.

Definition is_tp (p : Pair) : bool :=
  match ref p, pred p with
  | Some _, Some _ => Qeq_bool (score p) 1%Q
  | _, _ => false
  end.

Definition count {A : Type} (f : A -> bool) (l : list A) : nat := length (filter f l).

Definition Qnat (n : nat) : Q := inject_Z (Z.of_nat n).

(** Modelled from the spec: [BaseScores] of [evaluate.scoring] is not part of
    the script. Under strict similarity a true positive is a pair of two
    relations with score 1.0; a reference relation left alone or paired below
    that is a false negative, a predicted relation left alone or paired below
    that is a false positive; precision is TP/(TP+FP), recall TP/(TP+FN) and
    F1 their harmonic mean, with Python's division. *)
Definition BaseScores_spec (pairs : list Pair) : outcome base_scores :=
  let tp := count is_tp pairs in
  let fn := count (fun p => match ref p with Some _ => negb (is_tp p) | None => false end) pairs in
  let fp := count (fun p => match pred p with Some _ => negb (is_tp p) | None => false end) pairs in
  p <- py_div (Qnat tp) (Qnat (tp + fp)) ;;
  r <- py_div (Qnat tp) (Qnat (tp + fn)) ;;
  f <- py_div (2 * p * r)%Q (p + r)%Q ;;
  Ret (mkBase tp fp fn p r f).

(** Modelled from the spec: [IEScores] of [evaluate.scoring] is not part of
    the script, and the spec leaves open which pairings form a couple; no
    pair of this model carries couples, so the adjusted table is the base
    table and [f_score] its F1. *)
Definition IEScores_spec (pairs : list Pair) (base : base_scores) : outcome base_scores :=
  Ret base.

(** Turns the quotation marks of a Rocq string literal, written as
    apostrophes, into the double quotes of a JSON text. *)
Definition json_text (s : string) : pystr :=
  map (fun c => if (c =? 39)%N then 34%N else c) (str s).

(** A file system with at most two files. *)
Definition two_files (f1 : pystr) (c1 : option pystr) (f2 : pystr) (c2 : option pystr)
  : pystr -> option pystr :=
  fun f => if str_eqb f f1 then c1 else if str_eqb f f2 then c2 else None.

(** ** Vocabulary of the specification *)

(** Position [shift] aligns [seq1] and [seq2] with [m] tokens facing each
    other, all of them equal: [m] is the whole length over which the two
    sequences overlap at that shift. *)
Definition aligned (seq1 seq2 : list pystr) (shift : Z) (m : nat) : Prop :=
  (1 - Z.of_nat (length seq1) <= shift <= Z.of_nat (length seq2) - 1)%Z /\
  m = Nat.min (length seq1 - Z.to_nat (Z.max 0 (- shift)))
              (length seq2 - Z.to_nat (Z.max 0 shift)) /\
  forall k, k < m ->
    nth_error seq1 (Z.to_nat (Z.max 0 (- shift)) + k)
    = nth_error seq2 (Z.to_nat (Z.max 0 shift) + k).

(** The number of leading tokens on which two sequences agree. *)
Fixpoint common_prefix (a b : list pystr) : nat :=
  match a, b with
  | x :: a', y :: b' => if str_eqb x y then S (common_prefix a' b') else 0
  | _, _ => 0
  end.

(** The relaxed similarity as the specification words it: at every shift
    the length of the token-by-token match that starts at the aligned
    position, the best of these lengths over all shifts, and the ratio of
    that best length to [n1 + n2] minus it. *)
Definition spec_match_length (seq1 seq2 : list pystr) (shift : Z) : nat :=
  common_prefix (skipn (Z.to_nat (Z.max 0 (- shift))) seq1)
                (skipn (Z.to_nat (Z.max 0 shift)) seq2).

Definition spec_best (seq1 seq2 : list pystr) : nat :=
  fold_left Nat.max
            (map (spec_match_length seq1 seq2)
                 (py_range (1 - Z.of_nat (length seq1)) (Z.of_nat (length seq2)))) 0.

Definition spec_seq_score (seq1 seq2 : list pystr) : Q :=
  ratio (spec_best seq1 seq2) (length seq1 + length seq2 - spec_best seq1 seq2).

Definition spec_relaxed_similarity (lower : pystr -> pystr) (me : MergedEntity)
  (name : pystr) : outcome Q :=
  py_max (map (fun n => spec_seq_score (split (lower n)) (split (lower name))) (names me)).

(** The dedup key of a kept relation, read off the [MergedRelation]. *)
Definition mr_key (mr : MergedRelation) : relation_key :=
  (mr_type mr, me_key (mr_source mr), me_key (mr_target mr)).

(** The score that [_jaccard_seq] gives to two token sequences that are not
    both empty. *)
Definition seq_score (seq1 seq2 : list pystr) : Q :=
  ratio (jaccard_best seq1 seq2) (length seq1 + length seq2 - jaccard_best seq1 seq2).

(** A cluster keeps the identity it was created with. *)
Definition same_identity (c c' : MergedEntity) : Prop :=
  me_key c' = me_key c /\ me_type c' = me_type c
  /\ me_normalization_type c' = me_normalization_type c
  /\ me_normalization_value c' = me_normalization_value c.

(** What one turn of the loop does to the list of clusters. *)
Inductive step_kind (st : merge_state) (ent : Entity) (st' : merge_state) : Prop :=
  | joins (i : nat) (c : MergedEntity) :
      nth_error (clusters st) i = Some c ->
      clusters st' = update_at i (fun me => add me ent) (clusters st) ->
      ent_map st' = ent_map st ->
      eqid_map st' = eqid_map st ->
      (assoc key_eqb (key ent) (ent_map st) = Some i
       \/ (assoc key_eqb (key ent) (ent_map st) = None
           /\ eqid_get (id_ ent) (eqid_map st) = Some i)) ->
      step_kind st ent st'
  | creates :
      assoc key_eqb (key ent) (ent_map st) = None ->
      eqid_get (id_ ent) (eqid_map st) = None ->
      clusters st' = clusters st ++ [MergedEntity_init ent] ->
      ent_map st' = (key ent, length (clusters st)) :: ent_map st ->
      step_kind st ent st'.

(** Both dictionaries only hold positions of existing clusters. *)
Definition refs_valid (st : merge_state) : Prop :=
  (forall k i, assoc key_eqb k (ent_map st) = Some i -> i < length (clusters st))
  /\ (forall s i, assoc str_eqb s (eqid_map st) = Some i -> i < length (clusters st)).

(** A cluster never loses a member or a name and never changes identity. *)
Definition grows (c c' : MergedEntity) : Prop :=
  same_identity c c' /\ incl (ids c) (ids c') /\ incl (names c) (names c').

(** Entity [e], at position [p] of the entities read so far, is the first
    member of cluster [c], and [c] has its identity. *)
Definition first_member (done : list Entity) (c : MergedEntity) (p : nat) (e : Entity)
  : Prop :=
  nth_error done p = Some e
  /\ me_key c = key e
  /\ me_type c = type_ e
  /\ me_normalization_type c = normalization_type e
  /\ me_normalization_value c = normalization_value e
  /\ In (id_ e) (ids c)
  /\ forall q e', q < p -> nth_error done q = Some e' -> ~ In (id_ e') (ids c).

(** The clusters partition the entities read so far by id. *)
Definition partitioned (done : list Entity) (cl : list MergedEntity) : Prop :=
  (forall i c, nth_error cl i = Some c -> exists p e, first_member done c p e)
  /\ (forall i c x, nth_error cl i = Some c -> In x (ids c) -> In x (map id_ done))
  /\ (forall e, In e done -> exists i c, nth_error cl i = Some c /\ In (id_ e) (ids c))
  /\ (forall i j c c' x,
        nth_error cl i = Some c -> nth_error cl j = Some c' ->
        In x (ids c) -> In x (ids c') -> i = j).

(** Where the bindings of the two dictionaries come from. *)
Definition maps_from (eqs : list (list pystr)) (done : list Entity) (st : merge_state)
  : Prop :=
  (forall k i, assoc key_eqb k (ent_map st) = Some i -> In k (map key done))
  /\ (forall s i, assoc str_eqb s (eqid_map st) = Some i ->
        exists e eq, In e done /\ In eq eqs /\ id_in (id_ e) eq = true /\ In s eq).

(** While the entities between the two members are read: the cluster of
    the first member is at position [n], the id of the second member still
    points to it and the key of the second member is not yet known. *)
Definition bridge_open (n : nat) (c0 : MergedEntity) (id2 : pystr) (k2 : entity_key)
  (st : merge_state) : Prop :=
  (exists c, nth_error (clusters st) n = Some c /\ grows c0 c)
  /\ assoc str_eqb id2 (eqid_map st) = Some n
  /\ assoc key_eqb k2 (ent_map st) = None.

(** ** Sample data *)

Definition entity_of (id ty nm nt nv : string) : Entity :=
  mkEntity (Some (str id)) (str ty) (str nm) (str nt) (str nv).

Definition relation_of (ty s t : string) : Relation :=
  mkRelation (str ty) (str s) (str t).

Definition microbe : Entity := entity_of "e1" "Microorganism" "E. coli" "NCBI_Taxonomy" "562".
Definition disease : Entity := entity_of "e2" "Disease" "diarrhea" "name" "diarrhea".
Definition microbe_again : Entity :=
  entity_of "e3" "Microorganism" "Escherichia coli" "NCBI_Taxonomy" "562".

(** Two entities and three relations between them, two of which have the
    same type string. *)
Definition repeated_relation : Dataset :=
  mkDataset [microbe; disease]
            [relation_of "Causes" "e1" "e2"; relation_of "Causes" "e1" "e2";
             relation_of "Affects" "e1" "e2"]
            [].

(** The same fact under two spellings of its type. *)
Definition type_variants : Dataset :=
  mkDataset [microbe; disease]
            [relation_of "Cause" "e1" "e2"; relation_of "Causes" "e1" "e2"]
            [].

Definition three_entities : Dataset := mkDataset [microbe; disease; microbe_again] [] [].

(** Two records of one organism under different normalizations, declared
    equivalent. *)
Definition strain_a : Entity := entity_of "e1" "Microorganism" "E. coli" "NCBI_Taxonomy" "562".
Definition strain_b : Entity := entity_of "e2" "Microorganism" "E. coli K-12" "NCBI_Taxonomy" "83333".
Definition strain_c : Entity := entity_of "e3" "Microorganism" "K-12" "NCBI_Taxonomy" "83333".

Definition bridged : Dataset := mkDataset [strain_a; strain_b] [] [[str "e1"; str "e2"]].

(** A third entity with the key of the second one is read between them. *)
Definition bridge_missed : Dataset :=
  mkDataset [strain_a; strain_c; strain_b] [] [[str "e1"; str "e2"]].

(** A merged entity with the surface name [nm] alone. *)
Definition named (nm : string) : MergedEntity :=
  MergedEntity_init (entity_of "e1" "T" nm "name" nm).

(** ** Vocabulary of the redundancy filter *)

(** [pred] scores exactly 1.0 against [r] under strict type and strict
    argument similarity. *)
Definition perfect (lower : pystr -> pystr) (r : MergedRelation) (p : Relation) : Prop :=
  exists q, strict_sim lower r p = Ret q /\ Qeq_bool q 1%Q = true.

(** The prediction at position [j] repeats a perfect match of some
    reference relation that an earlier prediction already has. *)
Definition repeats_perfect_match (lower : pystr -> pystr) (refs : list MergedRelation)
  (preds : list Relation) (j : nat) : Prop :=
  exists r p,
    In r refs /\ nth_error preds j = Some p /\ perfect lower r p
    /\ exists i p', i < j /\ nth_error preds i = Some p' /\ perfect lower r p'.

(** ** Vocabulary of the assignment *)

(** A one-to-one assignment between some of the rows and some of the
    columns. *)
Definition valid_matching (rows cols : list nat) (m : matching) : Prop :=
  NoDup (map fst m) /\ NoDup (map snd m)
  /\ forall ij, In ij m -> In (fst ij) rows /\ In (snd ij) cols.

Definition has_ref (i : nat) (s : slot) : bool :=
  match fst (fst s) with Some i' => i' =? i | None => false end.

Definition has_pred (j : nat) (s : slot) : bool :=
  match snd (fst s) with Some j' => j' =? j | None => false end.

(** A slot is a matched pair with its weight, or one relation alone with
    score 0. *)
Definition slot_shape (w : list (list Q)) (m : matching) (s : slot) : Prop :=
  match s with
  | (Some i, Some j, q) => In (i, j) m /\ q = weight w i j
  | (Some _, None, q) => q = 0%Q
  | (None, Some _, q) => q = 0%Q
  | (None, None, _) => False
  end.

(** ** Sample data for the evaluation *)

Definition causes_ref : MergedRelation :=
  mkMergedRelation (str "Causes") (MergedEntity_init microbe) (MergedEntity_init disease).

Definition sample_ref : MergedRefDataset :=
  mkMergedRefDataset [MergedEntity_init microbe; MergedEntity_init disease] [causes_ref].

(** The first two predictions both match [causes_ref] perfectly. *)
Definition sample_pred : Dataset :=
  mkDataset []
            [relation_of "Causes" "E. coli" "diarrhea";
             relation_of "Cause" "e. coli" "'diarrhea'";
             relation_of "Affects" "E. coli" "fever"]
            [].

(** The similarities of the optimal-versus-greedy example of the spec,
    read off the relation types. *)
Definition square_sim : similarity :=
  fun r p =>
    Ret (if str_eqb (mr_type r) (str "R1")
         then (if str_eqb (r_type p) (str "P1") then (9 # 10)%Q else 1%Q)
         else (if str_eqb (r_type p) (str "P1") then 1%Q else 0%Q)).

Definition square_refs : list MergedRelation :=
  [mkMergedRelation (str "R1") (named "a") (named "b");
   mkMergedRelation (str "R2") (named "a") (named "b")].

Definition square_preds : list Relation :=
  [relation_of "P1" "a" "b"; relation_of "P2" "a" "b"].

(** The collaborators of the specification, put together. *)
Definition spec_items (b : base_scores) : outcome (list (pystr * pystr)) := Ret [].

Definition spec_f_score (b : base_scores) : outcome Q := Ret (f1 b).

Definition ref_file : pystr := str "ref.json".
Definition pred_file : pystr := str "pred.txt".

(** ** Vocabulary of the error handling *)

(** The call does not end in [ZeroDivisionError]. *)
Definition no_zero_division {A : Type} (c : outcome A) : Prop :=
  c <> Raise ZeroDivisionError.

Definition io_no_zero_division {A : Type} (c : io A) : Prop :=
  forall t, no_zero_division (fst (c t)).

(** The text handed to [json.loads]. *)
Definition repaired (content : pystr) : pystr :=
  remove_last_comma (remove_codeblock (strip content)).

(** [main] on the two sample files, with the ASCII [lower], the fragment
    decoder and the collaborators of the specification. *)
Definition run_main (fs : pystr -> option pystr) : io Q :=
  main ascii_lower json_loads_lite fs munkres_get_pairs base_scores base_scores
       BaseScores_spec IEScores_spec spec_items spec_items spec_f_score
       ref_file pred_file.

Definition ref_text : pystr :=
  json_text "{'entities': [{'id': 'e1', 'type': 'Microorganism', 'name': 'E. coli', 'NCBI_Taxonomy': '562'}, {'id': 'e2', 'type': 'Disease', 'name': 'diarrhea'}], 'relationships': [{'type': 'Causes', 'source': 'e1', 'target': 'e2'}]}".

(** A reference and a prediction without any relation. *)
Definition bare_text : pystr := json_text "{'entities': []}".

Definition files (ref_content pred_content : option pystr) : pystr -> option pystr :=
  two_files ref_file ref_content pred_file pred_content.

(** A prediction that states the one reference relation by its names. *)
Definition good_text : pystr :=
  json_text "{'entities': [], 'relationships': [{'type': 'Cause', 'arguments': {'source': 'e. coli', 'target': 'Diarrhea'}}]}".

(** ** Vocabulary of the text repair *)

Definition backtick : char := 96%N.
Definition comma : char := 44%N.

Definition no_backtick (s : pystr) : Prop := forall c, In c s -> c <> backtick.

Definition is_closer (c : char) : bool := ((c =? 125) || (c =? 93))%N.

(** Not a decoded JSON object. *)
Definition not_object (j : json) : Prop :=
  match j with JObj _ => False | _ => True end.

(** The chunk that [squash_list] builds from all the chunks. *)
Definition squashed (ents rels : list json) : json :=
  JObj [(str "entities", JArr ents); (str "relationships", JArr rels)].

(** ** Vocabulary of the decoding errors *)

(** The call returns, or raises an exception of the class [E]; it does not
    exit. *)
Definition only_raises {A : Type} (E : exn -> Prop) (c : outcome A) : Prop :=
  match c with
  | Ret _ => True
  | Raise e => E e
  | Exit _ => False
  | Unmodelled => True
  end.

(** The exceptions of a record of the wrong shape. *)
Definition shape_error (e : exn) : Prop :=
  e = KeyError \/ e = TypeError \/ e = AttributeError.

Definition io_only_raises {A : Type} (E : exn -> Prop) (c : io A) : Prop :=
  forall t, only_raises E (fst (c t)).


(** ** Vocabulary of the canonicalizer, continued *)

(** Every cluster is the one that [ent_map] holds for its key. *)
Definition keys_indexed (st : merge_state) : Prop :=
  forall i c, nth_error (clusters st) i = Some c ->
              assoc key_eqb (me_key c) (ent_map st) = Some i.

(** Every binding of [ent_map] points to a cluster with that key. *)
Definition keys_sound (st : merge_state) : Prop :=
  forall k i, assoc key_eqb k (ent_map st) = Some i ->
              exists c, nth_error (clusters st) i = Some c /\ me_key c = k.

(** The clusters hold every entity read so far, and nothing else. *)
Definition covers (done : list Entity) (cl : list MergedEntity) : Prop :=
  (forall e, In e done ->
     exists i c, nth_error cl i = Some c /\ In (id_ e) (ids c) /\ In (name e) (names c))
  /\ (forall i c, nth_error cl i = Some c ->
        ids c <> []
        /\ (forall x, In x (ids c) -> In x (map id_ done))
        /\ (forall n, In n (names c) -> In n (map name done)))
  /\ length cl <= length done.

(** [s] is the id of an entity of the dataset. *)
Definition is_entity_id (ds : Dataset) (s : pystr) : Prop :=
  exists e, In e (entities ds) /\ id_ e = Some s.


(** ** Entities of a prediction against the reference *)

Section Mapping.

Variable lower : pystr -> pystr.

(** The loop of [MergedRefDataset._map_name_to_entity]. *)
Fixpoint first_match (ents : list MergedEntity) (pred_ent : pystr)
  : outcome (option MergedEntity) :=
  match ents with
  | [] => Ret None
  | ref_ent :: rest =>
      b <- match_name lower ref_ent pred_ent ;;
      if b then Ret (Some ref_ent) else first_match rest pred_ent
  end.

(** [MergedRefDataset._map_name_to_entity]. *)
Definition _map_name_to_entity (self : MergedRefDataset) (pred_ent : pystr)
  : outcome (option MergedEntity) :=
  first_match (m_entities self) pred_ent.

(** [MergedRefDataset.map_entities]: a predicted entity is an object
    without [__eq__], so the dictionary has one entry for each of them, in
    the order of the list. *)
Definition map_entities (self : MergedRefDataset) (pred : Dataset)
  : outcome (list (Entity * option MergedEntity)) :=
  mapM (fun pred_ent =>
          r <- _map_name_to_entity self (name pred_ent) ;; Ret (pred_ent, r))
       (entities pred).

End Mapping.

(** ** The batch of the script: the median of five runs *)

(** [str(n)] for an [int]. *)
Definition str_of_int (n : Z) : pystr :=
  str (DecimalString.NilZero.string_of_int (Z.to_int n)).

(** [list.sort()] on floats: a stable sort in ascending order. *)
Fixpoint insert_sorted (x : Q) (l : list Q) : list Q :=
  match l with
  | [] => [x]
  | y :: l' => if Qle_bool x y then x :: l else y :: insert_sorted x l'
  end.

Definition py_sort (l : list Q) : list Q := fold_right insert_sorted [] l.

(** [l[i]] on a list. *)
Definition list_subscript {A : Type} (l : list A) (i : Z) : outcome A :=
  let n := Z.of_nat (length l) in
  let j := if (i <? 0)%Z then (i + n)%Z else i in
  if (j <? 0)%Z then Raise IndexError
  else match nth_error l (Z.to_nat j) with
       | Some a => Ret a
       | None => Raise IndexError
       end.

(** A loop that appends the result of every call to a list. *)
Fixpoint io_mapM {A B : Type} (f : A -> io B) (l : list A) : io (list B) :=
  match l with
  | [] => io_ret []
  | a :: l' => b <~ f a ;; bs <~ io_mapM f l' ;; io_ret (b :: bs)
  end.

(** An entry of [document_model_f1]: a float, or the string that replaces a
    float that is false. *)
Inductive cell : Type :=
  | FloatCell (q : Q)
  | StrCell (s : pystr).

(** [document_med_score if document_med_score else '0.0']. *)
Definition cell_of (document_med_score : Q) : cell :=
  if Qeq_bool document_med_score 0 then StrCell (str "0.0")
  else FloatCell document_med_score.

Definition repeat_num : Z := 5.

Definition reference_file (reference_path document : pystr) : pystr :=
  reference_path ++ str "/" ++ document ++ str ".json".

Definition repetition_file (output document : pystr) (repeat : Z) : pystr :=
  str "output/repetition/" ++ output ++ str "/" ++ document ++ str "/"
      ++ str_of_int repeat ++ str ".txt".

Section Batch.

Variable lower : pystr -> pystr.
Variable json_loads : pystr -> option json.
Variable fs : pystr -> option pystr.
Variable get_pairs : similarity -> list MergedRelation -> list Relation -> outcome (list Pair).
Variables BaseT IET : Type.
Variable BaseScores : list Pair -> outcome BaseT.
Variable IEScores : list Pair -> BaseT -> outcome IET.
Variable base_items : BaseT -> outcome (list (pystr * pystr)).
Variable ie_items : IET -> outcome (list (pystr * pystr)).
Variable f_score : IET -> outcome Q.

(** The run of [main] for one repetition of a document. *)
Definition repetition (reference_path output document : pystr) (repeat : Z) : io Q :=
  main lower json_loads fs get_pairs BaseT IET BaseScores IEScores base_items ie_items
       f_score (reference_file reference_path document)
       (repetition_file output document repeat).

(** The loop over the repetitions of one document for one model:
    [document_score_list] after the loop. *)
Definition document_scores (reference_path output document : pystr) : io (list Q) :=
  io_mapM (repetition reference_path output document)
          (py_range 1 (repeat_num + 1)).

(** The body of the loop over the documents: the value stored in
    [document_model_f1[document][model]]. *)
Definition document_f1 (reference_path output document : pystr) : io cell :=
  document_score_list <~ document_scores reference_path output document ;;
  let document_score_list := py_sort document_score_list in
  document_med_score <~ lift (list_subscript document_score_list (repeat_num / 2)) ;;
  io_ret (cell_of document_med_score).

End Batch.

(** ** Vocabulary of the batch *)

(** A call that does not return. *)
Definition never_returns {A : Type} (c : io A) : Prop :=
  forall t a t', c t <> (Ret a, t').

(** The number of scores that are at most, and at least, [m]. *)
Definition at_most (m : Q) (l : list Q) : nat :=
  length (filter (fun x => Qle_bool x m) l).

Definition at_least (m : Q) (l : list Q) : nat :=
  length (filter (fun x => Qle_bool m x) l).

(** Sample files of a batch: the reference of document [d1] and five
    predicted files, of which the third is not JSON and the fifth has no
    relation. *)
Definition batch_files (f : pystr) : option pystr :=
  if str_eqb f (str "ref/d1.json") then Some ref_text
  else if str_eqb f (str "output/repetition/m/d1/3.txt") then Some (str "not json")
  else if str_eqb f (str "output/repetition/m/d1/5.txt") then Some bare_text
  else Some good_text.

(** The same files without the file [gone]. *)
Definition without (gone : pystr) (fs : pystr -> option pystr) : pystr -> option pystr :=
  fun f => if str_eqb f gone then None else fs f.

Definition run_document (fs : pystr -> option pystr) : io cell :=
  document_f1 ascii_lower json_loads_lite fs munkres_get_pairs base_scores base_scores
              BaseScores_spec IEScores_spec spec_items spec_items spec_f_score
              (str "ref") (str "m") (str "d1").
(** * Properties *)

(** ** Basic facts *)

Lemma str_eqb_eq (a b : pystr) : str_eqb a b = true <-> a = b.
Proof.
  unfold str_eqb. destruct (list_eq_dec N.eq_dec a b); split; congruence.
Qed.

Lemma str_eqb_refl (a : pystr) : str_eqb a a = true.
Proof. apply str_eqb_eq. reflexivity. Qed.

Lemma str_eqb_neq (a b : pystr) : str_eqb a b = false <-> a <> b.
Proof.
  unfold str_eqb. destruct (list_eq_dec N.eq_dec a b); split; congruence.
Qed.

Lemma tokens_eqb_eq (a b : list pystr) : tokens_eqb a b = true <-> a = b.
Proof.
  unfold tokens_eqb.
  destruct (list_eq_dec (list_eq_dec N.eq_dec) a b); split; congruence.
Qed.

Lemma key_eqb_eq (a b : entity_key) : key_eqb a b = true <-> a = b.
Proof.
  destruct a as [[t1 k1] v1], b as [[t2 k2] v2]. unfold key_eqb.
  rewrite !andb_true_iff, !str_eqb_eq. split.
  - intros [[-> ->] ->]. reflexivity.
  - intros H. inversion H. auto.
Qed.

Lemma id_eqb_eq (a b : option pystr) : id_eqb a b = true <-> a = b.
Proof.
  destruct a as [x|], b as [y|]; simpl; try rewrite str_eqb_eq;
    split; intros H; try congruence; try discriminate; auto.
Qed.

Lemma in_py_range (lo hi x : Z) : In x (py_range lo hi) <-> (lo <= x < hi)%Z.
Proof.
  unfold py_range. rewrite in_map_iff. split.
  - intros [k [<- Hk]]. apply in_seq in Hk. lia.
  - intros H. exists (Z.to_nat (x - lo)). split; [lia|]. apply in_seq. lia.
Qed.

(** ** The empty candidate name *)

Section EmptyName.

Variable lower : pystr -> pystr.

Lemma strip_quotes_cons (c : char) (s : pystr) :
  exists t, strip_quotes (c :: s) = Ret t
            /\ (t = c :: s
                \/ (in_quotes c = true /\ in_quotes (last (c :: s) c) = true
                    /\ t = removelast s)).
Proof.
  unfold strip_quotes.
  destruct (in_quotes c) eqn:Hc, (in_quotes (last (c :: s) c)) eqn:Hl;
    cbv [andb]; eexists; split; try reflexivity; auto.
Qed.

Lemma match_name_cons (me : MergedEntity) (c : char) (s : pystr) :
  exists b, match_name lower me (c :: s) = Ret b.
Proof.
  unfold match_name. destruct (strip_quotes_cons c s) as [t [-> _]].
  cbn [bind]. eauto.
Qed.

Lemma standard_arg_similarity_cons (me : MergedEntity) (c : char) (s : pystr) :
  exists q, standard_arg_similarity lower me (c :: s) = Ret q.
Proof.
  unfold standard_arg_similarity.
  destruct (match_name_cons me c s) as [b ->]. cbn [bind]. eauto.
Qed.

Lemma strict_sim_outcome (r : MergedRelation) (p : Relation) :
  (exists q, strict_sim lower r p = Ret q) \/ strict_sim lower r p = Raise IndexError.
Proof.
  unfold strict_sim, relation_similarity, standard_type_similarity. cbn [bind].
  destruct (source p) as [|c s]; [right; reflexivity|].
  destruct (standard_arg_similarity_cons (mr_source r) c s) as [q ->]. cbn [bind].
  destruct (target p) as [|d t]; [right; reflexivity|].
  destruct (standard_arg_similarity_cons (mr_target r) d t) as [q' ->]. cbn [bind].
  left. eauto.
Qed.

Lemma scan_pred_empty_source (r : MergedRelation) (ty t : pystr) (post : list Relation) :
  forall (pre : list Relation) (found : bool) (k : nat),
    scan_pred lower r found
      (combine (seq k (length (pre ++ mkRelation ty [] t :: post)))
               (pre ++ mkRelation ty [] t :: post))
    = Raise IndexError.
Proof.
  induction pre as [|p pre IH]; intros found k; simpl.
  - reflexivity.
  - destruct (strict_sim_outcome r p) as [[q Hq] | Hq]; rewrite Hq; simpl; [|reflexivity].
    destruct (Qeq_bool q 1); [destruct found|]; simpl; rewrite ?IH; reflexivity.
Qed.

(** C10 -- Name matching and token-alignment similarity both read the first
    and the last character of the candidate name before anything else, so on
    the empty name they raise IndexError for every merged entity; the strict
    relation similarity raises it as soon as the source, or the target after
    a non-empty source, of the predicted relation is empty, and the
    redundancy scan of [evaluate] raises it whenever there is a reference
    relation and some predicted relation has an empty source. *)
Theorem empty_name_is_index_error :
  (forall me : MergedEntity,
      match_name lower me [] = Raise IndexError
      /\ jaccard_name lower me [] = Raise IndexError
      /\ standard_arg_similarity lower me [] = Raise IndexError
      /\ relaxed_arg_similarity lower me [] = Raise IndexError)
  /\ (forall (r : MergedRelation) (ty t : pystr),
         strict_sim lower r (mkRelation ty [] t) = Raise IndexError
         /\ relation_similarity (relaxed_type_similarity lower)
              (relaxed_arg_similarity lower) r (mkRelation ty [] t) = Raise IndexError)
  /\ (forall (r : MergedRelation) (ty : pystr) (c : char) (s : pystr),
         strict_sim lower r (mkRelation ty (c :: s) []) = Raise IndexError)
  /\ (forall (r : MergedRelation) (refs : list MergedRelation) (ty t : pystr)
             (pre post : list Relation),
         pred_redundant lower (r :: refs) (pre ++ mkRelation ty [] t :: post)
         = Raise IndexError).
Proof.
  split; [|split; [|split]].
  - intros me. repeat split.
  - intros r ty t. split; [reflexivity|].
    unfold relation_similarity, relaxed_type_similarity. cbn [r_type].
    destruct (match_type lower r ty); reflexivity.
  - intros r ty c s.
    unfold strict_sim, relation_similarity, standard_type_similarity. cbn [bind source].
    destruct (standard_arg_similarity_cons (mr_source r) c s) as [q ->].
    reflexivity.
  - intros r refs ty t pre post.
    unfold pred_redundant, enumerate. cbn [mapM].
    rewrite scan_pred_empty_source. reflexivity.
Qed.

End EmptyName.

(** ** Token alignment *)

Lemma firstn_skipn_pointwise (l1 l2 : list pystr) (a b m : nat) :
  firstn m (skipn a l1) = firstn m (skipn b l2)
  <-> forall k, k < m -> nth_error l1 (a + k) = nth_error l2 (b + k).
Proof.
  split.
  - intros H k Hk.
    assert (E : nth_error (firstn m (skipn a l1)) k = nth_error (firstn m (skipn b l2)) k)
      by (rewrite H; reflexivity).
    rewrite !nth_error_firstn, !nth_error_skipn in E.
    apply Nat.ltb_lt in Hk. rewrite Hk in E. exact E.
  - intros H. apply nth_error_ext. intros k.
    rewrite !nth_error_firstn, !nth_error_skipn.
    destruct (k <? m) eqn:Hk; [|reflexivity].
    apply H. apply Nat.ltb_lt. exact Hk.
Qed.

(** What one turn of the loop tests, in the words of [aligned]. *)
Lemma shift_step_spec (seq1 seq2 : list pystr) (best : nat) (shift : Z) :
  let m := Nat.min (length seq1 - Z.to_nat (Z.max 0 (- shift)))
                   (length seq2 - Z.to_nat (Z.max 0 shift)) in
  let full := forall k, k < m ->
                nth_error seq1 (Z.to_nat (Z.max 0 (- shift)) + k)
                = nth_error seq2 (Z.to_nat (Z.max 0 shift) + k) in
  (full -> shift_step seq1 seq2 best shift = Nat.max best m)
  /\ (~ full -> shift_step seq1 seq2 best shift = best).
Proof.
  intros m full. unfold shift_step. rewrite !length_skipn. fold m.
  destruct (tokens_eqb _ _) eqn:E.
  - apply tokens_eqb_eq in E. split; [|intros F; exfalso; apply F;
                                        exact (proj1 (firstn_skipn_pointwise _ _ _ _ _) E)].
    intros _. rewrite andb_true_r. destruct (best <? m) eqn:L.
    + apply Nat.ltb_lt in L. lia.
    + apply Nat.ltb_ge in L. lia.
  - rewrite andb_false_r. split; [|reflexivity].
    intros F. pose proof (proj2 (firstn_skipn_pointwise _ _ _ _ _) F) as G.
    apply tokens_eqb_eq in G. congruence.
Qed.

Lemma shift_fold_spec (seq1 seq2 : list pystr) (lo hi : Z) :
  forall (shifts : list Z) (b0 : nat),
    (forall s, In s shifts -> (lo <= s < hi)%Z) ->
    let b := fold_left (shift_step seq1 seq2) shifts b0 in
    b0 <= b
    /\ (b = b0 \/ exists s m, In s shifts /\ m = b
                              /\ (m = Nat.min (length seq1 - Z.to_nat (Z.max 0 (- s)))
                                             (length seq2 - Z.to_nat (Z.max 0 s)))
                              /\ forall k, k < m ->
                                   nth_error seq1 (Z.to_nat (Z.max 0 (- s)) + k)
                                   = nth_error seq2 (Z.to_nat (Z.max 0 s) + k))
    /\ (forall s, In s shifts ->
          (forall k, k < Nat.min (length seq1 - Z.to_nat (Z.max 0 (- s)))
                                 (length seq2 - Z.to_nat (Z.max 0 s)) ->
                     nth_error seq1 (Z.to_nat (Z.max 0 (- s)) + k)
                     = nth_error seq2 (Z.to_nat (Z.max 0 s) + k)) ->
          Nat.min (length seq1 - Z.to_nat (Z.max 0 (- s)))
                  (length seq2 - Z.to_nat (Z.max 0 s)) <= b).
Proof.
  induction shifts as [|s shifts IH]; intros b0 Hr; cbn [fold_left].
  - repeat split; auto. intros s [].
  - destruct (IH (shift_step seq1 seq2 b0 s)) as [Hle [Hex Hmax]].
    { intros x Hx. apply Hr. right. exact Hx. }
    destruct (shift_step_spec seq1 seq2 b0 s) as [Hfull Hnot].
    set (m := Nat.min (length seq1 - Z.to_nat (Z.max 0 (- s)))
                      (length seq2 - Z.to_nat (Z.max 0 s))) in *.
    set (b := fold_left (shift_step seq1 seq2) shifts (shift_step seq1 seq2 b0 s)) in *.
    assert (D : (forall k, k < m ->
                   nth_error seq1 (Z.to_nat (Z.max 0 (- s)) + k)
                   = nth_error seq2 (Z.to_nat (Z.max 0 s) + k))
                \/ ~ (forall k, k < m ->
                        nth_error seq1 (Z.to_nat (Z.max 0 (- s)) + k)
                        = nth_error seq2 (Z.to_nat (Z.max 0 s) + k))).
    { destruct (tokens_eqb
                  (firstn m (skipn (Z.to_nat (Z.max 0 (- s))) seq1))
                  (firstn m (skipn (Z.to_nat (Z.max 0 s)) seq2))) eqn:E.
      - left. apply (proj1 (firstn_skipn_pointwise _ _ _ _ _)), tokens_eqb_eq. exact E.
      - right. intros F. apply (proj2 (firstn_skipn_pointwise _ _ _ _ _)) in F.
        apply tokens_eqb_eq in F. congruence. }
    destruct D as [F | F].
    + specialize (Hfull F). rewrite Hfull in *. split; [lia|]. split.
      * destruct Hex as [-> | [s' [m' [Hin H]]]].
        -- destruct (Nat.max_spec b0 m) as [[_ E] | [_ E]]; rewrite E.
           ++ right. exists s, m. repeat split; auto. left. reflexivity.
           ++ left. reflexivity.
        -- right. exists s', m'. split; [right; exact Hin | exact H].
      * intros x [<- | Hx] Hf; [fold m; lia | apply Hmax; assumption].
    + specialize (Hnot F). rewrite Hnot in *. split; [lia|]. split.
      * destruct Hex as [-> | [s' [m' [Hin H]]]]; [left; reflexivity|].
        right. exists s', m'. split; [right; exact Hin | exact H].
      * intros x [<- | Hx] Hf; [contradiction | apply Hmax; assumption].
Qed.

Lemma jaccard_best_spec (seq1 seq2 : list pystr) :
  (jaccard_best seq1 seq2 = 0 \/ exists shift, aligned seq1 seq2 shift (jaccard_best seq1 seq2))
  /\ (forall shift m, aligned seq1 seq2 shift m -> m <= jaccard_best seq1 seq2).
Proof.
  unfold jaccard_best.
  destruct (shift_fold_spec seq1 seq2 (1 - Z.of_nat (length seq1)) (Z.of_nat (length seq2))
              (py_range (1 - Z.of_nat (length seq1)) (Z.of_nat (length seq2))) 0)
    as [_ [Hex Hmax]].
  { intros s Hs. apply in_py_range. exact Hs. }
  split.
  - destruct Hex as [E | [s [m [Hin [E [Hm Hf]]]]]]; [left; exact E|].
    right. exists s. apply in_py_range in Hin. unfold aligned. rewrite <- E.
    repeat split; auto; lia.
  - intros shift m [Hr [-> Hf]]. apply Hmax; [apply in_py_range; lia | exact Hf].
Qed.

Lemma jaccard_best_le (seq1 seq2 : list pystr) :
  jaccard_best seq1 seq2 <= Nat.min (length seq1) (length seq2).
Proof.
  destruct (jaccard_best_spec seq1 seq2) as [[E | [s [_ [E _]]]] _]; lia.
Qed.

Lemma jaccard_seq_value (seq1 seq2 : list pystr) :
  _jaccard_seq seq1 seq2
  = if length seq1 + length seq2 =? 0 then Raise ZeroDivisionError
    else Ret (seq_score seq1 seq2).
Proof.
  unfold _jaccard_seq, seq_score. pose proof (jaccard_best_le seq1 seq2) as H.
  destruct (length seq1 + length seq2 =? 0) eqn:E.
  - apply Nat.eqb_eq in E.
    replace (length seq1 + length seq2 - jaccard_best seq1 seq2 =? 0) with true;
      [reflexivity | symmetry; apply Nat.eqb_eq; lia].
  - apply Nat.eqb_neq in E.
    replace (length seq1 + length seq2 - jaccard_best seq1 seq2 =? 0) with false;
      [reflexivity | symmetry; apply Nat.eqb_neq; lia].
Qed.

Lemma mapM_ret {A B : Type} (f : A -> outcome B) (g : A -> B) (l : list A) :
  (forall a, In a l -> f a = Ret (g a)) -> mapM f l = Ret (map g l).
Proof.
  induction l as [|a l IH]; intros H; cbn [mapM map]; [reflexivity|].
  rewrite (H a (or_introl eq_refl)). cbn [bind].
  rewrite IH by (intros x Hx; apply H; right; exact Hx). reflexivity.
Qed.

Lemma fold_max_spec (l : list Q) :
  forall q0,
    let q := fold_left (fun acc x => if Qle_bool x acc then acc else x) l q0 in
    (q = q0 \/ In q l) /\ (q0 <= q)%Q /\ forall x, In x l -> (x <= q)%Q.
Proof.
  induction l as [|x l IH]; intros q0; cbn [fold_left].
  - repeat split; auto using Qle_refl. intros x [].
  - destruct (IH (if Qle_bool x q0 then q0 else x)) as [Hin [Hle Hmax]].
    set (q := fold_left _ l _) in *.
    destruct (Qle_bool x q0) eqn:E.
    + apply Qle_bool_iff in E. repeat split.
      * destruct Hin; [left | right; right]; assumption.
      * exact Hle.
      * intros y [<- | Hy]; [apply Qle_trans with q0; assumption | apply Hmax; exact Hy].
    + assert (Hlt : (q0 < x)%Q).
      { apply Qnot_le_lt. intros C. apply Qle_bool_iff in C. congruence. }
      repeat split.
      * destruct Hin as [-> | Hin]; right; [left; reflexivity | right; exact Hin].
      * apply Qle_trans with x; [apply Qlt_le_weak; exact Hlt | exact Hle].
      * intros y [<- | Hy]; [exact Hle | apply Hmax; exact Hy].
Qed.

Lemma py_max_spec (l : list Q) :
  l <> [] ->
  exists q, py_max l = Ret q /\ In q l /\ forall x, In x l -> (x <= q)%Q.
Proof.
  destruct l as [|q0 l]; [congruence|]. intros _. unfold py_max.
  destruct (fold_max_spec l q0) as [Hin [Hle Hmax]].
  eexists. split; [reflexivity|]. split.
  - destruct Hin as [-> | Hin]; [left; reflexivity | right; exact Hin].
  - intros x [<- | Hx]; [exact Hle | apply Hmax; exact Hx].
Qed.

(** C1 (amended) -- The relaxed argument similarity strips one pair of
    surrounding quotation characters from the candidate, lowercases and
    splits the candidate and every surface name on white space and, for two
    token sequences of lengths n1 and n2, looks at every shift in
    [1-n1, n2-1]: a shift counts when all the tokens that face each other at
    that shift are equal, and it then contributes m, the whole length of the
    overlap. The best such m (0 when no shift counts) gives the score
    best / (n1 + n2 - best), a division by zero when both sequences are
    empty, and the result is the largest score over the surface names.
    Tokens a b c against b c d overlap best on 2 tokens and score 1/2. *)
Theorem relaxed_similarity_is_best_full_overlap :
  (forall seq1 seq2 : list pystr,
      (jaccard_best seq1 seq2 = 0
       \/ exists shift, aligned seq1 seq2 shift (jaccard_best seq1 seq2))
      /\ (forall shift m, aligned seq1 seq2 shift m -> m <= jaccard_best seq1 seq2)
      /\ _jaccard_seq seq1 seq2
         = if length seq1 + length seq2 =? 0 then Raise ZeroDivisionError
           else Ret (ratio (jaccard_best seq1 seq2)
                           (length seq1 + length seq2 - jaccard_best seq1 seq2)))
  /\ (forall (lower : pystr -> pystr) (me : MergedEntity) (pred_name : pystr),
         pred_name <> [] ->
         exists stripped,
           strip_quotes pred_name = Ret stripped
           /\ (names me <> [] ->
               (forall name, In name (names me) ->
                  split (lower name) <> [] \/ split (lower stripped) <> []) ->
               exists q,
                 relaxed_arg_similarity lower me pred_name = Ret q
                 /\ (exists name, In name (names me)
                       /\ q = seq_score (split (lower name)) (split (lower stripped)))
                 /\ (forall name, In name (names me) ->
                       (seq_score (split (lower name)) (split (lower stripped)) <= q)%Q)))
  /\ (jaccard_best [str "a"; str "b"; str "c"] [str "b"; str "c"; str "d"] = 2
      /\ _jaccard_seq [str "a"; str "b"; str "c"] [str "b"; str "c"; str "d"]
         = Ret (1 # 2)%Q).
Proof.
  split; [|split].
  - intros seq1 seq2. destruct (jaccard_best_spec seq1 seq2) as [H1 H2].
    split; [exact H1|]. split; [exact H2|]. apply jaccard_seq_value.
  - intros lower me pred_name Hne.
    destruct pred_name as [|c s]; [congruence|].
    destruct (strip_quotes_cons c s) as [stripped [Hs _]].
    exists stripped. split; [exact Hs|]. intros Hnames Htok.
    unfold relaxed_arg_similarity, jaccard_name. rewrite Hs. cbn [bind].
    rewrite (mapM_ret _ (fun name => seq_score (split (lower name)) (split (lower stripped)))).
    + cbn [bind].
      destruct (py_max_spec
                  (map (fun name => seq_score (split (lower name)) (split (lower stripped)))
                       (names me))) as [q [Hq [Hin Hmax]]].
      { destruct (names me); [congruence | discriminate]. }
      exists q. split; [exact Hq|]. split.
      * apply in_map_iff in Hin. destruct Hin as [name [E Hin]].
        exists name. split; [exact Hin | symmetry; exact E].
      * intros name Hin'. apply Hmax. apply in_map_iff. exists name. split; auto.
    + intros name Hin. rewrite jaccard_seq_value.
      destruct (length (split (lower name)) + length (split (lower stripped)) =? 0) eqn:E;
        [|reflexivity].
      apply Nat.eqb_eq in E. exfalso.
      destruct (Htok name Hin) as [H | H]; apply H;
        [destruct (split (lower name)) | destruct (split (lower stripped))];
        try reflexivity; simpl in E; lia.
  - split; vm_compute; reflexivity.
Qed.

(** An instance of C1: one surface name, a b c, against the candidate
    b c d. *)
Lemma relaxed_similarity_witness :
  exists stripped,
    strip_quotes (str "b c d") = Ret stripped
    /\ exists q,
         relaxed_arg_similarity ascii_lower
           (named "a b c")
           (str "b c d") = Ret q
         /\ (exists name,
                In name [str "a b c"]
                /\ q = seq_score (split (ascii_lower name)) (split (ascii_lower stripped)))
         /\ (forall name, In name [str "a b c"] ->
               (seq_score (split (ascii_lower name)) (split (ascii_lower stripped)) <= q)%Q).
Proof.
  destruct (proj1 (proj2 relaxed_similarity_is_best_full_overlap) ascii_lower
              (named "a b c")
              (str "b c d")) as [stripped [Hs H]].
  - discriminate.
  - exists stripped. split; [exact Hs|]. apply H.
    + discriminate.
    + intros name [<- | []]. left. vm_compute. discriminate.
Defined.

(** C1 as stated fails: a b x and a b y agree on two tokens from the aligned
    position of shift 0, which the wording scores 2/(3+3-2) = 1/2, but their
    overlap at that shift is three tokens long and does not match as a
    whole, nor does the overlap at any other shift, so the code scores 0. *)
Lemma relaxed_similarity_not_prefix_match :
  relaxed_arg_similarity ascii_lower
    (named "a b x")
    (str "a b y") = Ret 0%Q
  /\ spec_relaxed_similarity ascii_lower
       (named "a b x")
       (str "a b y") = Ret (1 # 2)%Q
  /\ relaxed_arg_similarity ascii_lower
       (named "a b x")
       (str "a b y")
     <> spec_relaxed_similarity ascii_lower
          (named "a b x")
          (str "a b y").
Proof.
  split; [vm_compute; reflexivity|]. split; [vm_compute; reflexivity|].
  vm_compute. discriminate.
Qed.

(** ** Canonicalization of the reference relations *)

Lemma relation_key_eqb_eq (a b : relation_key) : relation_key_eqb a b = true <-> a = b.
Proof.
  destruct a as [[t1 s1] g1], b as [[t2 s2] g2]. unfold relation_key_eqb.
  rewrite !andb_true_iff, str_eqb_eq, !key_eqb_eq. split.
  - intros [[-> ->] ->]. reflexivity.
  - intros H. inversion H. auto.
Qed.

Lemma seen_key_iff (k : relation_key) (seen : list relation_key) :
  existsb (relation_key_eqb k) seen = true <-> In k seen.
Proof.
  rewrite existsb_exists. split.
  - intros [x [Hx E]]. apply relation_key_eqb_eq in E. subst. exact Hx.
  - intros H. exists k. split; [exact H | apply relation_key_eqb_eq; reflexivity].
Qed.

Lemma Relation_key_init (m : list (option pystr * MergedEntity)) (rel : Relation)
  (k : relation_key) :
  Relation_key m rel = Ret k ->
  exists mr, MergedRelation_init m rel = Ret mr /\ mr_key mr = k
             /\ mr_type mr = r_type rel
             /\ ent_lookup m (source rel) = Ret (mr_source mr)
             /\ ent_lookup m (target rel) = Ret (mr_target mr).
Proof.
  unfold Relation_key, MergedRelation_init.
  destruct (ent_lookup m (source rel)) as [s| | |]; cbn [bind]; try discriminate.
  destruct (ent_lookup m (target rel)) as [t| | |]; cbn [bind]; try discriminate.
  intros E. inversion E. eexists. repeat split.
Qed.

Lemma merge_relations_spec (m : list (option pystr * MergedEntity)) :
  forall (rels : list Relation) (seen : list relation_key),
    (forall rel, In rel rels -> exists k, Relation_key m rel = Ret k) ->
    exists out,
      merge_relations m seen rels = Ret out
      /\ NoDup (map mr_key out)
      /\ (forall mr, In mr out -> ~ In (mr_key mr) seen)
      /\ (forall rel, In rel rels ->
            exists k, Relation_key m rel = Ret k /\ (In k seen \/ In k (map mr_key out)))
      /\ (forall mr, In mr out ->
            exists i rel,
              nth_error rels i = Some rel
              /\ MergedRelation_init m rel = Ret mr
              /\ forall j rel', j < i -> nth_error rels j = Some rel' ->
                                Relation_key m rel' <> Ret (mr_key mr)).
Proof.
  induction rels as [|rel rels IH]; intros seen Hres; cbn [merge_relations].
  - exists []. repeat split; try constructor; intros ? [].
  - destruct (Hres rel (or_introl eq_refl)) as [k Hk]. rewrite Hk. cbn [bind].
    assert (Hres' : forall r, In r rels -> exists k, Relation_key m r = Ret k)
      by (intros r Hr; apply Hres; right; exact Hr).
    destruct (existsb (relation_key_eqb k) seen) eqn:E.
    + apply seen_key_iff in E.
      destruct (IH seen Hres') as [out [Hout [Hnd [Hfresh [Hcov Hfirst]]]]].
      exists out. split; [exact Hout|]. split; [exact Hnd|]. split; [exact Hfresh|].
      split.
      * intros r [<- | Hr]; [exists k; auto | apply Hcov; exact Hr].
      * intros mr Hmr. destruct (Hfirst mr Hmr) as [i [r [Hi [Hinit Hbefore]]]].
        exists (S i), r. split; [exact Hi|]. split; [exact Hinit|].
        intros [|j] r' Hj Hr'; cbn [nth_error] in Hr'.
        -- inversion Hr'; subst r'. rewrite Hk. intros C. injection C as C'.
           apply (Hfresh mr Hmr). rewrite <- C'. exact E.
        -- apply (Hbefore j r'); [lia | exact Hr'].
    + assert (Hnew : ~ In k seen)
        by (intros C; apply seen_key_iff in C; congruence).
      destruct (Relation_key_init m rel k Hk) as [mr0 [Hinit0 [Hkey0 _]]].
      rewrite Hinit0. cbn [bind].
      destruct (IH (k :: seen) Hres') as [out [Hout [Hnd [Hfresh [Hcov Hfirst]]]]].
      rewrite Hout. cbn [bind]. exists (mr0 :: out). split; [reflexivity|].
      split.
      { cbn [map]. constructor; [|exact Hnd].
        rewrite Hkey0. intros C. apply in_map_iff in C. destruct C as [mr [Ek Hmr]].
        apply (Hfresh mr Hmr). left. symmetry. exact Ek. }
      split.
      { intros mr [<- | Hmr]; [rewrite Hkey0; exact Hnew|].
        intros C. apply (Hfresh mr Hmr). right. exact C. }
      split.
      * intros r [<- | Hr].
        -- exists k. split; [exact Hk|]. right. left. exact Hkey0.
        -- destruct (Hcov r Hr) as [k' [Hk' [[Ek | Hs] | Ho]]]; exists k';
             (split; [exact Hk'|]).
           ++ right. left. rewrite Hkey0. exact Ek.
           ++ left. exact Hs.
           ++ right. right. exact Ho.
      * intros mr [<- | Hmr].
        -- exists 0, rel. split; [reflexivity|]. split; [exact Hinit0|].
           intros j r' Hj. lia.
        -- destruct (Hfirst mr Hmr) as [i [r [Hi [Hinit Hbefore]]]].
           exists (S i), r. split; [exact Hi|]. split; [exact Hinit|].
           intros [|j] r' Hj Hr'; cbn [nth_error] in Hr'.
           ++ inversion Hr'; subst r'. rewrite Hk. intros C. injection C as C'.
              apply (Hfresh mr Hmr). left. exact C'.
           ++ apply (Hbefore j r'); [lia | exact Hr'].
Qed.

Lemma NoDup_map_injective {A B : Type} (f : A -> B) (l : list A) :
  NoDup (map f l) -> forall x y, In x l -> In y l -> f x = f y -> x = y.
Proof.
  induction l as [|a l IH]; intros Hnd x y Hx Hy E; [destruct Hx|].
  cbn [map] in Hnd. inversion Hnd as [|? ? Hnotin Hnd']; subst.
  destruct Hx as [<- | Hx], Hy as [<- | Hy]; auto.
  - exfalso. apply Hnotin. rewrite E. apply in_map. exact Hy.
  - exfalso. apply Hnotin. rewrite <- E. apply in_map. exact Hx.
Qed.

(** C2 (amended) -- The structural dedup key of a reference relation is its
    type as written, not normalized, together with the identity keys of the
    merged entities of its source and target ids. When every id resolves,
    [_merge_ref_relations] keeps exactly the first relation seen per key:
    no two kept relations share a key, every raw relation has its key
    among the kept ones, every kept relation is built from the first raw
    relation of its key, and two raw relations with the same type string
    whose ids resolve to the same merged entities are represented by one
    and the same [MergedRelation]. *)
Theorem merge_ref_relations_first_per_raw_key (ds : Dataset) (ents : list MergedEntity) :
  (forall rel, In rel (relations ds) ->
     exists k, Relation_key (build_ent_id_map ents) rel = Ret k) ->
  exists out,
    _merge_ref_relations ds ents = Ret out
    /\ NoDup (map mr_key out)
    /\ (forall rel, In rel (relations ds) ->
          exists mr, In mr out
                     /\ Relation_key (build_ent_id_map ents) rel = Ret (mr_key mr))
    /\ (forall mr, In mr out ->
          exists i rel,
            nth_error (relations ds) i = Some rel
            /\ MergedRelation_init (build_ent_id_map ents) rel = Ret mr
            /\ mr_type mr = r_type rel
            /\ forall j rel', j < i -> nth_error (relations ds) j = Some rel' ->
                 Relation_key (build_ent_id_map ents) rel' <> Ret (mr_key mr))
    /\ (forall rel1 rel2,
          In rel1 (relations ds) -> In rel2 (relations ds) ->
          r_type rel1 = r_type rel2 ->
          ent_lookup (build_ent_id_map ents) (source rel1)
          = ent_lookup (build_ent_id_map ents) (source rel2) ->
          ent_lookup (build_ent_id_map ents) (target rel1)
          = ent_lookup (build_ent_id_map ents) (target rel2) ->
          exists mr,
            In mr out
            /\ Relation_key (build_ent_id_map ents) rel1 = Ret (mr_key mr)
            /\ Relation_key (build_ent_id_map ents) rel2 = Ret (mr_key mr)
            /\ forall mr', In mr' out -> mr_key mr' = mr_key mr -> mr' = mr).
Proof.
  intros Hres. unfold _merge_ref_relations.
  destruct (merge_relations_spec (build_ent_id_map ents) (relations ds) [] Hres)
    as [out [Hout [Hnd [_ [Hcov Hfirst]]]]].
  assert (Hrep : forall rel, In rel (relations ds) ->
                   exists mr, In mr out
                     /\ Relation_key (build_ent_id_map ents) rel = Ret (mr_key mr)).
  { intros rel Hrel. destruct (Hcov rel Hrel) as [k [Hk [[] | Hin]]].
    apply in_map_iff in Hin. destruct Hin as [mr [E Hmr]].
    exists mr. split; [exact Hmr | rewrite E; exact Hk]. }
  exists out. split; [exact Hout|]. split; [exact Hnd|]. split; [exact Hrep|]. split.
  - intros mr Hmr. destruct (Hfirst mr Hmr) as [i [rel [Hi [Hinit Hbefore]]]].
    exists i, rel. split; [exact Hi|]. split; [exact Hinit|]. split; [|exact Hbefore].
    unfold MergedRelation_init in Hinit.
    destruct (ent_lookup _ (source rel)); cbn [bind] in Hinit; try discriminate.
    destruct (ent_lookup _ (target rel)); cbn [bind] in Hinit; try discriminate.
    inversion Hinit. reflexivity.
  - intros rel1 rel2 H1 H2 Ety Esrc Etgt.
    destruct (Hrep rel1 H1) as [mr [Hmr Hk1]]. exists mr.
    split; [exact Hmr|]. split; [exact Hk1|]. split.
    + rewrite <- Hk1. unfold Relation_key. rewrite Esrc, Etgt, Ety. reflexivity.
    + intros mr' Hmr' E. apply (NoDup_map_injective mr_key out Hnd); assumption.
Qed.

(** An instance of C2: of three relations between the same two entities,
    the second repeats the type string of the first and is dropped. *)
Lemma merge_ref_relations_witness :
  exists out,
    _merge_ref_relations repeated_relation (_merge_ref_entities repeated_relation) = Ret out
    /\ NoDup (map mr_key out)
    /\ length out = 2.
Proof.
  destruct (merge_ref_relations_first_per_raw_key
              repeated_relation (_merge_ref_entities repeated_relation))
    as [out [Hout [Hnd _]]].
  - intros rel [<- | [<- | [<- | []]]]; eexists; vm_compute; reflexivity.
  - exists out. split; [exact Hout|]. split; [exact Hnd|].
    vm_compute in Hout. inversion Hout. reflexivity.
Defined.

(** C2 as stated fails: the types Cause and Causes normalize to the same
    label and both relations link the same two merged entities, yet both are
    kept, because the dedup key holds the type as written. *)
Lemma dedup_key_keeps_type_variants :
  _normalize_type ascii_lower (str "Cause") = _normalize_type ascii_lower (str "Causes")
  /\ exists a b,
       _merge_ref_relations type_variants (_merge_ref_entities type_variants) = Ret [a; b]
       /\ mr_source a = mr_source b
       /\ mr_target a = mr_target b
       /\ match_type ascii_lower a (mr_type b) = true
       /\ mr_key a <> mr_key b.
Proof.
  split; [vm_compute; reflexivity|].
  eexists. eexists. split; [vm_compute; reflexivity|].
  split; [reflexivity|]. split; [reflexivity|]. split; [vm_compute; reflexivity|].
  vm_compute. discriminate.
Qed.

(** ** Canonicalization of the reference entities *)

Lemma nth_error_update_at {A : Type} (f : A -> A) (l : list A) :
  forall i j,
    nth_error (update_at i f l) j
    = if j =? i then option_map f (nth_error l j) else nth_error l j.
Proof.
  induction l as [|a l IH]; intros i j.
  - destruct i, j; cbn; try reflexivity; destruct (j =? i); reflexivity.
  - destruct i as [|i], j as [|j]; cbn [update_at nth_error Nat.eqb option_map];
      try reflexivity.
    apply IH.
Qed.

Lemma length_update_at {A : Type} (f : A -> A) (l : list A) :
  forall i, length (update_at i f l) = length l.
Proof.
  induction l as [|a l IH]; intros [|i]; cbn [update_at length]; auto.
Qed.

Lemma in_set_add {A : Type} (eqb : A -> A -> bool) (x y : A) (s : list A) :
  (forall a b, eqb a b = true <-> a = b) ->
  In y (set_add eqb x s) <-> y = x \/ In y s.
Proof.
  intros Heq. unfold set_add. destruct (existsb (eqb x) s) eqn:E.
  - apply existsb_exists in E. destruct E as [z [Hz Ez]]. apply Heq in Ez. subst z.
    split; [auto | intros [-> | H]; assumption].
  - rewrite in_app_iff. cbn [In]. split; intros [H | H]; auto.
    + destruct H as [<- | []]. auto.
Qed.

Lemma in_ids_add (me : MergedEntity) (ent : Entity) (x : option pystr) :
  In x (ids (add me ent)) <-> x = id_ ent \/ In x (ids me).
Proof. apply in_set_add. apply id_eqb_eq. Qed.

Lemma in_names_add (me : MergedEntity) (ent : Entity) (x : pystr) :
  In x (names (add me ent)) <-> x = name ent \/ In x (names me).
Proof. apply in_set_add. apply str_eqb_eq. Qed.

Lemma same_identity_add (me : MergedEntity) (ent : Entity) : same_identity me (add me ent).
Proof. repeat split. Qed.

Lemma assoc_inner_register (s : pystr) (i : nat) (eq : list pystr) :
  forall m : list (pystr * nat),
    assoc str_eqb s (fold_left (fun m id_ => (id_, i) :: m) eq m)
    = if existsb (str_eqb s) eq then Some i else assoc str_eqb s m.
Proof.
  induction eq as [|x eq IH]; intros m; cbn [fold_left existsb]; [reflexivity|].
  rewrite IH. cbn [assoc]. destruct (existsb (str_eqb s) eq); cbn [orb].
  - rewrite orb_true_r. reflexivity.
  - rewrite orb_false_r. destruct (str_eqb s x); reflexivity.
Qed.

Lemma assoc_register (s : pystr) (i : nat) (id : option pystr) (eqs : list (list pystr)) :
  forall m : list (pystr * nat),
    assoc str_eqb s (register i id eqs m)
    = if existsb (fun eq => id_in id eq && existsb (str_eqb s) eq) eqs
      then Some i else assoc str_eqb s m.
Proof.
  unfold register. induction eqs as [|eq eqs IH]; intros m; cbn [fold_left existsb];
    [reflexivity|].
  rewrite IH. destruct (existsb _ eqs); [rewrite orb_true_r; reflexivity|].
  rewrite orb_false_r. destruct (id_in id eq); cbn [andb]; [|reflexivity].
  apply assoc_inner_register.
Qed.

Lemma merge_step_kind (eqs : list (list pystr)) (st : merge_state) (ent : Entity) :
  refs_valid st -> step_kind st ent (merge_step eqs st ent).
Proof.
  intros [Hk Hq]. unfold merge_step.
  destruct (assoc key_eqb (key ent) (ent_map st)) as [i|] eqn:Ek.
  - destruct (nth_error (clusters st) i) as [c|] eqn:Ec.
    + apply (joins _ _ _ i c); auto.
    + apply nth_error_None in Ec. specialize (Hk _ _ Ek). lia.
  - destruct (eqid_get (id_ ent) (eqid_map st)) as [i|] eqn:Eq.
    + destruct (nth_error (clusters st) i) as [c|] eqn:Ec.
      * apply (joins _ _ _ i c); auto.
      * apply nth_error_None in Ec. unfold eqid_get in Eq.
        destruct (id_ ent) as [s|]; [|discriminate]. specialize (Hq _ _ Eq). lia.
    + apply creates; auto.
Qed.

Lemma refs_valid_step (eqs : list (list pystr)) (st : merge_state) (ent : Entity) :
  refs_valid st -> refs_valid (merge_step eqs st ent).
Proof.
  intros [Hk Hq]. unfold merge_step.
  destruct (assoc key_eqb (key ent) (ent_map st)) as [i|] eqn:Ek;
    [|destruct (eqid_get (id_ ent) (eqid_map st)) as [i|] eqn:Eq];
    split; cbn [clusters ent_map eqid_map]; intros k j Hj;
    rewrite ?length_update_at, ?length_app; cbn [length];
    try (apply Hk in Hj; lia); try (apply Hq in Hj; lia).
  - cbn [assoc] in Hj. destruct (key_eqb k (key ent)).
    + inversion Hj. lia.
    + apply Hk in Hj. lia.
  - rewrite assoc_register in Hj. destruct (existsb _ eqs).
    + inversion Hj. lia.
    + apply Hq in Hj. lia.
Qed.

Lemma refs_valid_run (eqs : list (list pystr)) (ents : list Entity) :
  forall st, refs_valid st -> refs_valid (merge_run eqs st ents).
Proof.
  unfold merge_run. induction ents as [|e ents IH]; intros st H; cbn [fold_left];
    [exact H|]. apply IH, refs_valid_step, H.
Qed.

Lemma refs_valid_init : refs_valid (mkState [] [] []).
Proof. split; intros ? ? H; discriminate H. Qed.

Lemma grows_refl (c : MergedEntity) : grows c c.
Proof. repeat split; apply incl_refl. Qed.

Lemma grows_trans (a b c : MergedEntity) : grows a b -> grows b c -> grows a c.
Proof.
  intros [[K1 [T1 [N1 V1]]] [I1 M1]] [[K2 [T2 [N2 V2]]] [I2 M2]].
  repeat split; try congruence; eapply incl_tran; eassumption.
Qed.

Lemma grows_add (c : MergedEntity) (ent : Entity) : grows c (add c ent).
Proof.
  split; [apply same_identity_add|]. split; intros x Hx.
  - apply in_ids_add. auto.
  - apply in_names_add. auto.
Qed.

Lemma cluster_grows_step (eqs : list (list pystr)) (st : merge_state) (ent : Entity)
  (i : nat) (c : MergedEntity) :
  nth_error (clusters st) i = Some c ->
  exists c', nth_error (clusters (merge_step eqs st ent)) i = Some c' /\ grows c c'.
Proof.
  intros Hc. unfold merge_step.
  destruct (assoc key_eqb (key ent) (ent_map st)) as [j|];
    [|destruct (eqid_get (id_ ent) (eqid_map st)) as [j|]]; cbn [clusters].
  1, 2: rewrite nth_error_update_at; destruct (i =? j); rewrite Hc; cbn [option_map];
    eexists; split; try reflexivity; auto using grows_add, grows_refl.
  rewrite nth_error_app1 by (apply nth_error_Some; congruence).
  exists c. split; [exact Hc | apply grows_refl].
Qed.

Lemma cluster_grows_run (eqs : list (list pystr)) (ents : list Entity) :
  forall (st : merge_state) (i : nat) (c : MergedEntity),
    nth_error (clusters st) i = Some c ->
    exists c', nth_error (clusters (merge_run eqs st ents)) i = Some c' /\ grows c c'.
Proof.
  unfold merge_run. induction ents as [|e ents IH]; intros st i c Hc; cbn [fold_left].
  - exists c. split; [exact Hc | apply grows_refl].
  - destruct (cluster_grows_step eqs st e i c Hc) as [c1 [H1 G1]].
    destruct (IH _ i c1 H1) as [c2 [H2 G2]].
    exists c2. split; [exact H2 | eapply grows_trans; eassumption].
Qed.

Lemma nth_error_snoc {A : Type} (l : list A) (a c : A) (j : nat) :
  nth_error (l ++ [a]) j = Some c
  <-> nth_error l j = Some c \/ (j = length l /\ c = a).
Proof.
  destruct (Nat.lt_ge_cases j (length l)) as [H | H].
  - rewrite nth_error_app1 by exact H. split; [auto | intros [E | [E _]]; [exact E | lia]].
  - rewrite nth_error_app2 by exact H. split.
    + intros E. right. destruct (j - length l) as [|k] eqn:D; cbn in E.
      * inversion E. split; [lia | reflexivity].
      * destruct k; discriminate.
    + intros [E | [-> ->]].
      * apply nth_error_None in H. congruence.
      * rewrite Nat.sub_diag. reflexivity.
Qed.

Lemma fresh_id (done : list Entity) (e : Entity) :
  NoDup (map id_ (done ++ [e])) -> ~ In (id_ e) (map id_ done).
Proof.
  rewrite map_app. cbn [map]. intros H C.
  apply NoDup_remove_2 in H. apply H. rewrite app_nil_r. exact C.
Qed.

Lemma first_member_snoc (done : list Entity) (e : Entity) (c : MergedEntity)
  (p : nat) (e0 : Entity) :
  first_member done c p e0 -> first_member (done ++ [e]) c p e0.
Proof.
  intros [Hp [K [T [N [V [I F]]]]]].
  assert (Hlt : p < length done) by (apply nth_error_Some; congruence).
  repeat split; auto.
  - rewrite nth_error_app1 by exact Hlt. exact Hp.
  - intros q e' Hq Hq'. rewrite nth_error_app1 in Hq' by lia. apply (F q e' Hq Hq').
Qed.

Lemma first_member_add (done : list Entity) (e : Entity) (c : MergedEntity)
  (p : nat) (e0 : Entity) :
  ~ In (id_ e) (map id_ done) ->
  first_member done c p e0 -> first_member (done ++ [e]) (add c e) p e0.
Proof.
  intros Hfresh [Hp [K [T [N [V [I F]]]]]].
  assert (Hlt : p < length done) by (apply nth_error_Some; congruence).
  repeat split; auto.
  - rewrite nth_error_app1 by exact Hlt. exact Hp.
  - apply in_ids_add. auto.
  - intros q e' Hq Hq'. rewrite nth_error_app1 in Hq' by lia.
    intros C. apply in_ids_add in C. destruct C as [C | C].
    + apply Hfresh. rewrite <- C. apply in_map. eapply nth_error_In. exact Hq'.
    + apply (F q e' Hq Hq'). exact C.
Qed.

Lemma partitioned_step (eqs : list (list pystr)) (done : list Entity) (e : Entity)
  (st : merge_state) :
  NoDup (map id_ (done ++ [e])) ->
  refs_valid st ->
  partitioned done (clusters st) ->
  partitioned (done ++ [e]) (clusters (merge_step eqs st e)).
Proof.
  intros Hnd Hv [P1 [P2 [P3 P4]]].
  pose proof (fresh_id done e Hnd) as Hfresh.
  assert (Hold : forall i c, nth_error (clusters st) i = Some c -> ~ In (id_ e) (ids c))
    by (intros i c Hc C; apply Hfresh; apply (P2 i c); assumption).
  destruct (merge_step_kind eqs st e Hv) as [i c Hc Hcl _ _ _ | _ _ Hcl _]; rewrite Hcl.
  - (* the entity joins cluster i *)
    assert (Hnth : forall j c', nth_error (update_at i (fun me => add me e) (clusters st)) j
                                = Some c' ->
                     (j = i /\ c' = add c e)
                     \/ (j <> i /\ nth_error (clusters st) j = Some c')).
    { intros j c'. rewrite nth_error_update_at. destruct (j =? i) eqn:E.
      - apply Nat.eqb_eq in E. subst j. rewrite Hc. cbn. intros H. inversion H. auto.
      - apply Nat.eqb_neq in E. auto. }
    split; [|split; [|split]].
    + intros j c' Hj. destruct (Hnth j c' Hj) as [[-> ->] | [_ Hj']].
      * destruct (P1 i c Hc) as [p [e0 F]]. exists p, e0.
        apply first_member_add; assumption.
      * destruct (P1 j c' Hj') as [p [e0 F]]. exists p, e0.
        apply first_member_snoc; assumption.
    + intros j c' x Hj Hx. rewrite map_app, in_app_iff. cbn [map In].
      destruct (Hnth j c' Hj) as [[-> ->] | [_ Hj']].
      * apply in_ids_add in Hx. destruct Hx as [-> | Hx]; [auto|].
        left. apply (P2 i c); assumption.
      * left. apply (P2 j c'); assumption.
    + intros e' He'. apply in_app_iff in He'. destruct He' as [He' | [<- | []]].
      * destruct (P3 e' He') as [j [c' [Hj Hin]]].
        destruct (Nat.eq_dec j i) as [-> | Hne].
        -- exists i, (add c e). rewrite nth_error_update_at, Nat.eqb_refl, Hc.
           split; [reflexivity|]. apply in_ids_add. right. congruence.
        -- exists j, c'. rewrite nth_error_update_at.
           apply Nat.eqb_neq in Hne. rewrite Hne. auto.
      * exists i, (add c e). rewrite nth_error_update_at, Nat.eqb_refl, Hc.
        split; [reflexivity|]. apply in_ids_add. auto.
    + intros a b ca cb x Ha Hb Hxa Hxb.
      destruct (Hnth a ca Ha) as [[-> ->] | [Hna Ha']],
               (Hnth b cb Hb) as [[-> ->] | [Hnb Hb']]; auto.
      * apply in_ids_add in Hxa. destruct Hxa as [-> | Hxa].
        -- exfalso. apply (Hold b cb Hb' Hxb).
        -- apply (P4 i b c cb x); assumption.
      * apply in_ids_add in Hxb. destruct Hxb as [-> | Hxb].
        -- exfalso. apply (Hold a ca Ha' Hxa).
        -- apply (P4 a i ca c x); assumption.
      * apply (P4 a b ca cb x); assumption.
  - (* the entity creates a cluster *)
    split; [|split; [|split]].
    + intros j c' Hj. apply nth_error_snoc in Hj. destruct Hj as [Hj | [-> ->]].
      * destruct (P1 j c' Hj) as [p [e0 F]]. exists p, e0.
        apply first_member_snoc; assumption.
      * exists (length done), e. repeat split.
        -- apply nth_error_snoc. auto.
        -- left. reflexivity.
        -- intros q e' Hq Hq'. rewrite nth_error_app1 in Hq' by exact Hq.
           cbn [MergedEntity_init ids In]. intros [C | []].
           apply Hfresh. rewrite C. apply in_map. eapply nth_error_In. exact Hq'.
    + intros j c' x Hj Hx. rewrite map_app, in_app_iff. cbn [map In].
      apply nth_error_snoc in Hj. destruct Hj as [Hj | [-> ->]].
      * left. apply (P2 j c'); assumption.
      * cbn [MergedEntity_init ids In] in Hx. destruct Hx as [<- | []]. auto.
    + intros e' He'. apply in_app_iff in He'. destruct He' as [He' | [<- | []]].
      * destruct (P3 e' He') as [j [c' [Hj Hin]]]. exists j, c'.
        split; [apply nth_error_snoc; auto | exact Hin].
      * exists (length (clusters st)), (MergedEntity_init e).
        split; [apply nth_error_snoc; auto | left; reflexivity].
    + intros a b ca cb x Ha Hb Hxa Hxb.
      apply nth_error_snoc in Ha, Hb.
      destruct Ha as [Ha | [-> ->]], Hb as [Hb | [-> ->]]; auto.
      * apply (P4 a b ca cb x); assumption.
      * cbn [MergedEntity_init ids In] in Hxb. destruct Hxb as [<- | []].
        exfalso. apply (Hold a ca Ha Hxa).
      * cbn [MergedEntity_init ids In] in Hxa. destruct Hxa as [<- | []].
        exfalso. apply (Hold b cb Hb Hxb).
Qed.

Lemma partitioned_run (eqs : list (list pystr)) (rest : list Entity) :
  forall (done : list Entity) (st : merge_state),
    NoDup (map id_ (done ++ rest)) ->
    refs_valid st ->
    partitioned done (clusters st) ->
    partitioned (done ++ rest) (clusters (merge_run eqs st rest)).
Proof.
  unfold merge_run. induction rest as [|e rest IH]; intros done st Hnd Hv Hp;
    cbn [fold_left].
  - rewrite app_nil_r. exact Hp.
  - replace (done ++ e :: rest) with ((done ++ [e]) ++ rest) in *
      by (rewrite <- app_assoc; reflexivity).
    apply IH; [exact Hnd | apply refs_valid_step; exact Hv|].
    apply partitioned_step; [|exact Hv | exact Hp].
    rewrite map_app in Hnd. apply NoDup_app_remove_r in Hnd. exact Hnd.
Qed.

Lemma partitioned_init : partitioned [] [].
Proof.
  repeat split.
  - intros i c H. destruct i; discriminate.
  - intros i c x H. destruct i; discriminate.
  - intros e [].
  - intros i j c c' x H. destruct i; discriminate.
Qed.

Lemma merge_run_app (eqs : list (list pystr)) (st : merge_state) (a b : list Entity) :
  merge_run eqs st (a ++ b) = merge_run eqs (merge_run eqs st a) b.
Proof. unfold merge_run. apply fold_left_app. Qed.

(** C7 -- When the ids of the raw entities are pairwise distinct, after
    [_merge_ref_entities] the id of every raw entity is in the id set of
    exactly one cluster; every cluster has the identity key, the type and
    the normalization kind and value of its first member; and a cluster
    keeps that identity from the moment it exists, whatever is read after
    it, while its ids and names only grow. *)
Theorem merged_entities_partition (ds : Dataset) :
  NoDup (map id_ (entities ds)) ->
  (forall e, In e (entities ds) ->
     exists i c,
       nth_error (_merge_ref_entities ds) i = Some c
       /\ In (id_ e) (ids c)
       /\ forall j c', nth_error (_merge_ref_entities ds) j = Some c' ->
                       In (id_ e) (ids c') -> j = i)
  /\ (forall i c, nth_error (_merge_ref_entities ds) i = Some c ->
        exists p e, first_member (entities ds) c p e)
  /\ (forall read later i c,
        entities ds = read ++ later ->
        nth_error (clusters (merge_run (equivalences ds) (mkState [] [] []) read)) i
        = Some c ->
        exists c', nth_error (_merge_ref_entities ds) i = Some c' /\ grows c c').
Proof.
  intros Hnd. unfold _merge_ref_entities.
  destruct (partitioned_run (equivalences ds) (entities ds) [] (mkState [] [] []))
    as [P1 [P2 [P3 P4]]];
    [exact Hnd | apply refs_valid_init | apply partitioned_init |].
  cbn [app] in *. split; [|split].
  - intros e He. destruct (P3 e He) as [i [c [Hc Hin]]].
    exists i, c. split; [exact Hc|]. split; [exact Hin|].
    intros j c' Hj Hin'. apply (P4 j i c' c (id_ e)); assumption.
  - exact P1.
  - intros read later i c E Hc. rewrite E, merge_run_app.
    apply cluster_grows_run. exact Hc.
Qed.

(** An instance of C7: three entities with distinct ids, the first and the
    third with the same identity key. *)
Lemma merged_entities_partition_witness :
  exists i c,
    nth_error (_merge_ref_entities three_entities) i = Some c
    /\ In (id_ microbe_again) (ids c)
    /\ forall j c', nth_error (_merge_ref_entities three_entities) j = Some c' ->
                    In (id_ microbe_again) (ids c') -> j = i.
Proof.
  apply (proj1 (merged_entities_partition three_entities
                  ltac:(vm_compute; repeat constructor; cbn [In];
                        intros H; repeat destruct H as [H | H];
                        try discriminate H; exact H))).
  right. right. left. reflexivity.
Defined.

Lemma maps_from_step (eqs : list (list pystr)) (done : list Entity) (st : merge_state)
  (e : Entity) :
  maps_from eqs done st -> maps_from eqs (done ++ [e]) (merge_step eqs st e).
Proof.
  intros [M1 M2].
  assert (M1' : forall k i, assoc key_eqb k (ent_map st) = Some i ->
                            In k (map key (done ++ [e]))).
  { intros k i H. rewrite map_app, in_app_iff. left. eapply M1. exact H. }
  assert (M2' : forall s i, assoc str_eqb s (eqid_map st) = Some i ->
                  exists e' eq, In e' (done ++ [e]) /\ In eq eqs
                                /\ id_in (id_ e') eq = true /\ In s eq).
  { intros s i H. destruct (M2 s i H) as [e' [eq [H1 H2]]].
    exists e', eq. split; [apply in_app_iff; auto | exact H2]. }
  unfold merge_step.
  destruct (assoc key_eqb (key e) (ent_map st)) as [i|];
    [|destruct (eqid_get (id_ e) (eqid_map st)) as [i|]];
    split; cbn [ent_map eqid_map]; auto.
  - intros k i H. cbn [assoc] in H. destruct (key_eqb k (key e)) eqn:E.
    + apply key_eqb_eq in E. subst k. rewrite map_app, in_app_iff. right. left. reflexivity.
    + eapply M1'. exact H.
  - intros s i H. rewrite assoc_register in H.
    destruct (existsb _ eqs) eqn:E.
    + apply existsb_exists in E. destruct E as [eq [Heq Hc]].
      apply andb_true_iff in Hc. destruct Hc as [Hid Hs].
      apply existsb_exists in Hs. destruct Hs as [s' [Hs' Es]].
      apply str_eqb_eq in Es. subst s'.
      exists e, eq. split; [apply in_app_iff; right; left; reflexivity|]. auto.
    + eapply M2'. exact H.
Qed.

Lemma maps_from_run (eqs : list (list pystr)) (rest : list Entity) :
  forall (done : list Entity) (st : merge_state),
    maps_from eqs done st -> maps_from eqs (done ++ rest) (merge_run eqs st rest).
Proof.
  unfold merge_run. induction rest as [|e rest IH]; intros done st H; cbn [fold_left].
  - rewrite app_nil_r. exact H.
  - replace (done ++ e :: rest) with ((done ++ [e]) ++ rest)
      by (rewrite <- app_assoc; reflexivity).
    apply IH, maps_from_step, H.
Qed.

Lemma maps_from_init (eqs : list (list pystr)) : maps_from eqs [] (mkState [] [] []).
Proof. split; intros ? ? H; discriminate H. Qed.

Lemma bridge_open_step (eqs : list (list pystr)) (n : nat) (c0 : MergedEntity)
  (id2 : pystr) (k2 : entity_key) (st : merge_state) (e : Entity) :
  key e <> k2 ->
  (forall eq, In eq eqs -> id_in (id_ e) eq = true -> ~ In id2 eq) ->
  bridge_open n c0 id2 k2 st -> bridge_open n c0 id2 k2 (merge_step eqs st e).
Proof.
  intros Hk Heq [[c [Hc G]] [Hid Hkey]].
  split.
  { destruct (cluster_grows_step eqs st e n c Hc) as [c' [Hc' G']].
    exists c'. split; [exact Hc' | eapply grows_trans; eassumption]. }
  unfold merge_step.
  destruct (assoc key_eqb (key e) (ent_map st)) as [i|];
    [|destruct (eqid_get (id_ e) (eqid_map st)) as [i|]];
    cbn [ent_map eqid_map]; auto.
  split.
  - rewrite assoc_register.
    destruct (existsb _ eqs) eqn:E; [|exact Hid].
    apply existsb_exists in E. destruct E as [eq [Hin Hc']].
    apply andb_true_iff in Hc'. destruct Hc' as [H1 H2].
    apply existsb_exists in H2. destruct H2 as [s [Hs Es]].
    apply str_eqb_eq in Es. subst s. exfalso. apply (Heq eq Hin H1 Hs).
  - cbn [assoc]. destruct (key_eqb k2 (key e)) eqn:E; [|exact Hkey].
    apply key_eqb_eq in E. congruence.
Qed.

Lemma bridge_open_run (eqs : list (list pystr)) (n : nat) (c0 : MergedEntity)
  (id2 : pystr) (k2 : entity_key) (mid : list Entity) :
  forall st,
    (forall e, In e mid -> key e <> k2) ->
    (forall e, In e mid -> forall eq, In eq eqs -> id_in (id_ e) eq = true -> ~ In id2 eq) ->
    bridge_open n c0 id2 k2 st -> bridge_open n c0 id2 k2 (merge_run eqs st mid).
Proof.
  unfold merge_run. induction mid as [|e mid IH]; intros st Hk Heq H; cbn [fold_left];
    [exact H|].
  apply IH.
  - intros x Hx. apply Hk. right. exact Hx.
  - intros x Hx. apply Heq. right. exact Hx.
  - apply bridge_open_step; [apply Hk | apply Heq | exact H]; left; reflexivity.
Qed.

(** C6 (amended) -- Let an equivalence set hold the ids of two raw entities
    e1 and e2 with different identity keys, e1 read before e2. If no entity
    read before e1 has the key of e1 or shares an equivalence set with e1,
    no entity read before e2 has the key of e2, and no entity read between
    them shares an equivalence set with e2, then e1 creates a cluster, e2
    joins it through the registration of its id, and the canonical entity
    list holds one [MergedEntity] with the key of e1, both ids and both
    names. *)
Theorem equivalence_bridging (ds : Dataset) (front mid back : list Entity)
  (e1 e2 : Entity) (id1 id2 : pystr) (eq : list pystr) :
  entities ds = front ++ e1 :: mid ++ e2 :: back ->
  id_ e1 = Some id1 ->
  id_ e2 = Some id2 ->
  In eq (equivalences ds) -> In id1 eq -> In id2 eq ->
  key e1 <> key e2 ->
  (forall e, In e front -> key e <> key e1) ->
  (forall e, In e front ->
     forall eq', In eq' (equivalences ds) -> id_in (id_ e) eq' = true -> ~ In id1 eq') ->
  (forall e, In e (front ++ mid) -> key e <> key e2) ->
  (forall e, In e mid ->
     forall eq', In eq' (equivalences ds) -> id_in (id_ e) eq' = true -> ~ In id2 eq') ->
  exists i c,
    nth_error (_merge_ref_entities ds) i = Some c
    /\ me_key c = key e1
    /\ In (Some id1) (ids c) /\ In (Some id2) (ids c)
    /\ In (name e1) (names c) /\ In (name e2) (names c).
Proof.
  intros Hents Hid1 Hid2 Heq H1eq H2eq Hkeys Hfk Hfe Hk2 Hme.
  unfold _merge_ref_entities. rewrite Hents.
  set (eqs := equivalences ds) in *.
  rewrite merge_run_app.
  pose proof (maps_from_run eqs front [] _ (maps_from_init eqs)) as [M1 M2].
  cbn [app] in M1, M2.
  set (st0 := merge_run eqs (mkState [] [] []) front) in *.
  set (n := length (clusters st0)).
  assert (K1 : assoc key_eqb (key e1) (ent_map st0) = None).
  { destruct (assoc key_eqb (key e1) (ent_map st0)) as [i|] eqn:E; [|reflexivity].
    apply M1 in E. apply in_map_iff in E. destruct E as [e [Ek He]].
    exfalso. apply (Hfk e He Ek). }
  assert (Q1 : eqid_get (id_ e1) (eqid_map st0) = None).
  { rewrite Hid1. cbn [eqid_get].
    destruct (assoc str_eqb id1 (eqid_map st0)) as [i|] eqn:E; [|reflexivity].
    apply M2 in E. destruct E as [e [eq' [He [Heq' [Hin Hs]]]]].
    exfalso. apply (Hfe e He eq' Heq' Hin Hs). }
  assert (K2 : assoc key_eqb (key e2) (ent_map st0) = None).
  { destruct (assoc key_eqb (key e2) (ent_map st0)) as [i|] eqn:E; [|reflexivity].
    apply M1 in E. apply in_map_iff in E. destruct E as [e [Ek He]].
    exfalso. apply (Hk2 e); [apply in_app_iff; auto | exact Ek]. }
  change (e1 :: mid ++ e2 :: back) with ([e1] ++ mid ++ [e2] ++ back).
  rewrite !merge_run_app.
  assert (B1 : bridge_open n (MergedEntity_init e1) id2 (key e2) (merge_run eqs st0 [e1])).
  { unfold merge_run. cbn [fold_left]. unfold merge_step. rewrite K1, Q1.
    split; [|split]; cbn [clusters ent_map eqid_map].
    - exists (MergedEntity_init e1). split; [|apply grows_refl].
      apply nth_error_snoc. right. auto.
    - rewrite assoc_register.
      replace (existsb _ eqs) with true; [reflexivity|].
      symmetry. apply existsb_exists. exists eq. split; [exact Heq|].
      apply andb_true_iff. split.
      + rewrite Hid1. cbn [id_in]. apply existsb_exists. exists id1.
        split; [exact H1eq | apply str_eqb_refl].
      + apply existsb_exists. exists id2. split; [exact H2eq | apply str_eqb_refl].
    - cbn [assoc]. destruct (key_eqb (key e2) (key e1)) eqn:E; [|exact K2].
      apply key_eqb_eq in E. congruence. }
  pose proof (bridge_open_run eqs n (MergedEntity_init e1) id2 (key e2) mid _
                (fun e He => Hk2 e (proj2 (in_app_iff _ _ _) (or_intror He)))
                Hme B1) as [[c [Hc G]] [Hq Hk]].
  set (st2 := merge_run eqs (merge_run eqs st0 [e1]) mid) in *.
  assert (S2 : nth_error (clusters (merge_run eqs st2 [e2])) n = Some (add c e2)).
  { unfold merge_run. cbn [fold_left]. unfold merge_step.
    rewrite Hk, Hid2. cbn [eqid_get]. rewrite Hq. cbn [clusters].
    rewrite nth_error_update_at, Nat.eqb_refl, Hc. reflexivity. }
  destruct (cluster_grows_run eqs back _ n _ S2) as [c' [Hc' G']].
  exists n, c'. split; [exact Hc'|].
  destruct G as [[Ka _] [Ia Na]]. destruct G' as [[Kb _] [Ib Nb]].
  split; [rewrite Kb; cbn [add me_key]; rewrite Ka; reflexivity|].
  repeat split.
  - apply Ib, in_ids_add. right. apply Ia. rewrite <- Hid1. left. reflexivity.
  - apply Ib, in_ids_add. left. symmetry. exact Hid2.
  - apply Nb, in_names_add. right. apply Na. left. reflexivity.
  - apply Nb, in_names_add. left. reflexivity.
Qed.

(** An instance of C6: two records of one organism, declared equivalent. *)
Lemma equivalence_bridging_witness :
  exists i c,
    nth_error (_merge_ref_entities bridged) i = Some c
    /\ me_key c = key strain_a
    /\ In (Some (str "e1")) (ids c) /\ In (Some (str "e2")) (ids c)
    /\ In (name strain_a) (names c) /\ In (name strain_b) (names c).
Proof.
  apply (equivalence_bridging bridged [] [] [] strain_a strain_b (str "e1") (str "e2")
           [str "e1"; str "e2"]).
  - reflexivity.
  - reflexivity.
  - reflexivity.
  - left. reflexivity.
  - left. reflexivity.
  - right. left. reflexivity.
  - vm_compute. discriminate.
  - intros e [].
  - intros e [].
  - intros e [].
  - intros e [].
Defined.

(** C6 as stated fails: strain_c is read between the two members and has
    the key of the second one, so it creates the cluster of that key and the
    second member joins it by key, before its registered id is looked at.
    The equivalence set holds e1 and e2, nothing is read before e1, and yet
    no cluster holds both ids. *)
Lemma equivalence_bridging_missed :
  In [str "e1"; str "e2"] (equivalences bridge_missed)
  /\ key strain_a <> key strain_b
  /\ (exists c0 c1,
        _merge_ref_entities bridge_missed = [c0; c1]
        /\ ids c0 = [Some (str "e1")]
        /\ ids c1 = [Some (str "e3"); Some (str "e2")])
  /\ ~ (exists c, In c (_merge_ref_entities bridge_missed)
                  /\ In (Some (str "e1")) (ids c) /\ In (Some (str "e2")) (ids c)).
Proof.
  split; [left; reflexivity|]. split; [vm_compute; discriminate|]. split.
  - eexists. eexists. split; [vm_compute; reflexivity|]. split; reflexivity.
  - intros [c [Hc [H1 H2]]]. vm_compute in Hc.
    destruct Hc as [<- | [<- | []]]; vm_compute in H1, H2.
    + destruct H2 as [H | []]. discriminate H.
    + destruct H1 as [H | [H | []]]; discriminate H.
Qed.

(** ** The redundancy filter *)

Lemma mapM_inv {A B : Type} (f : A -> outcome B) (l : list A) :
  forall out, mapM f l = Ret out -> Forall2 (fun a b => f a = Ret b) l out.
Proof.
  induction l as [|a l IH]; intros out H; cbn [mapM] in H.
  - inversion H. constructor.
  - destruct (f a) as [b| | |] eqn:E; cbn [bind] in H; try discriminate.
    destruct (mapM f l) as [bs| | |]; cbn [bind] in H; try discriminate.
    inversion H. constructor; [exact E | apply IH; reflexivity].
Qed.

Lemma Forall2_in_l {A B : Type} (R : A -> B -> Prop) (l : list A) (l' : list B) :
  Forall2 R l l' -> forall a, In a l -> exists b, In b l' /\ R a b.
Proof.
  induction 1 as [|x y l l' Hxy _ IH]; intros a Ha; [destruct Ha|].
  destruct Ha as [<- | Ha].
  - exists y. split; [left; reflexivity | exact Hxy].
  - destruct (IH a Ha) as [b [Hb Hab]]. exists b. split; [right; exact Hb | exact Hab].
Qed.

Lemma Forall2_in_r {A B : Type} (R : A -> B -> Prop) (l : list A) (l' : list B) :
  Forall2 R l l' -> forall b, In b l' -> exists a, In a l /\ R a b.
Proof.
  induction 1 as [|x y l l' Hxy _ IH]; intros b Hb; [destruct Hb|].
  destruct Hb as [<- | Hb].
  - exists x. split; [left; reflexivity | exact Hxy].
  - destruct (IH b Hb) as [a [Ha Hab]]. exists a. split; [right; exact Ha | exact Hab].
Qed.

Lemma scan_pred_spec (lower : pystr -> pystr) (r : MergedRelation) :
  forall (preds : list Relation) (k : nat) (found : bool) (out : list nat),
    scan_pred lower r found (combine (seq k (length preds)) preds) = Ret out ->
    forall j,
      In j out <->
      exists p, k <= j /\ nth_error preds (j - k) = Some p /\ perfect lower r p
                /\ (found = true
                    \/ exists i p', k <= i < j /\ nth_error preds (i - k) = Some p'
                                    /\ perfect lower r p').
Proof.
  induction preds as [|p0 preds IH]; intros k found out H j;
    cbn [length seq combine scan_pred] in H.
  - inversion H. split; [intros []|].
    intros [p [_ [Hp _]]]. destruct (j - k); discriminate.
  - destruct (strict_sim lower r p0) as [q| | |] eqn:Es; cbn [bind] in H; try discriminate.
    assert (Hshift : forall i p, S k <= i -> nth_error (p0 :: preds) (i - k) = Some p
                                 <-> nth_error preds (i - S k) = Some p).
    { intros i p Hi. replace (i - k) with (S (i - S k)) by lia. reflexivity. }
    assert (Hhead : forall i, k <= i -> ~ S k <= i -> i = k) by (intros; lia).
    destruct (Qeq_bool q 1) eqn:Eq.
    + (* p0 is a perfect match *)
      assert (P0 : perfect lower r p0) by (exists q; auto).
      destruct found.
      * destruct (scan_pred lower r true _) as [l| | |] eqn:El; cbn [bind] in H;
          try discriminate.
        inversion H; subst out. specialize (IH (S k) true l El).
        split.
        -- intros [<- | Hj].
           ++ exists p0. rewrite Nat.sub_diag. repeat split; auto.
           ++ apply IH in Hj. destruct Hj as [p [Hk [Hp [Pp _]]]].
              exists p. split; [lia|]. split; [apply Hshift; assumption|]. auto.
        -- intros [p [Hk [Hp [Pp _]]]].
           destruct (Nat.eq_dec j k) as [-> | Hne]; [left; reflexivity|].
           right. apply IH. exists p. split; [lia|].
           split; [apply Hshift; [lia | exact Hp]|]. auto.
      * specialize (IH (S k) true out H). split.
        -- intros Hj. apply IH in Hj. destruct Hj as [p [Hk [Hp [Pp _]]]].
           exists p. split; [lia|]. split; [apply Hshift; assumption|].
           split; [exact Pp|]. right. exists k, p0.
           rewrite Nat.sub_diag. repeat split; auto; lia.
        -- intros [p [Hk [Hp [Pp [C | [i [p' [Hi [Hp' Pp']]]]]]]]]; [discriminate|].
           apply IH. exists p. split; [lia|].
           split; [apply Hshift; [lia | exact Hp]|]. auto.
    + (* p0 is not a perfect match *)
      assert (N0 : ~ perfect lower r p0).
      { intros [q' [E' Q']]. rewrite Es in E'. inversion E'; subst q'. congruence. }
      specialize (IH (S k) found out H). split.
      * intros Hj. apply IH in Hj. destruct Hj as [p [Hk [Hp [Pp Hf]]]].
        exists p. split; [lia|]. split; [apply Hshift; assumption|].
        split; [exact Pp|]. destruct Hf as [Hf | [i [p' [Hi [Hp' Pp']]]]]; [auto|].
        right. exists i, p'. split; [lia|]. split; [apply Hshift; [lia | exact Hp']|].
        exact Pp'.
      * intros [p [Hk [Hp [Pp Hf]]]].
        destruct (Nat.eq_dec j k) as [-> | Hne].
        { rewrite Nat.sub_diag in Hp. inversion Hp; subst p. contradiction. }
        apply IH. exists p. split; [lia|].
        split; [apply Hshift; [lia | exact Hp]|]. split; [exact Pp|].
        destruct Hf as [Hf | [i [p' [Hi [Hp' Pp']]]]]; [auto|].
        destruct (Nat.eq_dec i k) as [-> | Hne'].
        { rewrite Nat.sub_diag in Hp'. inversion Hp'; subst p'. contradiction. }
        right. exists i, p'. split; [lia|]. split; [apply Hshift; [lia | exact Hp']|].
        exact Pp'.
Qed.

Lemma pred_redundant_spec (lower : pystr -> pystr) (refs : list MergedRelation)
  (preds : list Relation) (idxs : list nat) :
  pred_redundant lower refs preds = Ret idxs ->
  forall j, In j idxs <-> repeats_perfect_match lower refs preds j.
Proof.
  unfold pred_redundant, enumerate. intros H j.
  destruct (mapM _ refs) as [l| | |] eqn:El; cbn [bind] in H; try discriminate.
  inversion H; subst idxs. apply mapM_inv in El. rewrite in_concat. split.
  - intros [out [Hout Hj]].
    destruct (Forall2_in_r _ _ _ El _ Hout) as [r [Hr Er]].
    apply (scan_pred_spec lower r preds 0 false out Er) in Hj.
    destruct Hj as [p [_ [Hp [Pp [C | [i [p' [Hi [Hp' Pp']]]]]]]]]; [discriminate|].
    rewrite Nat.sub_0_r in Hp, Hp'.
    exists r, p. repeat split; auto. exists i, p'. repeat split; auto. lia.
  - intros [r [p [Hr [Hp [Pp [i [p' [Hi [Hp' Pp']]]]]]]]].
    destruct (Forall2_in_l _ _ _ El _ Hr) as [out [Hout Er]].
    exists out. split; [exact Hout|].
    apply (scan_pred_spec lower r preds 0 false out Er).
    exists p. rewrite Nat.sub_0_r. repeat split; auto; [lia|].
    right. exists i, p'. rewrite Nat.sub_0_r. repeat split; auto; lia.
Qed.

(** ** The assignment *)

Lemma total_app (w : list (list Q)) (a b : matching) :
  (total w (a ++ b) == total w a + total w b)%Q.
Proof.
  induction a as [|x a IH].
  - change (total w b == 0 + total w b)%Q. lra.
  - change (weight w (fst x) (snd x) + total w (a ++ b)
            == weight w (fst x) (snd x) + total w a + total w b)%Q.
    rewrite IH. lra.
Qed.

Lemma total_cons (w : list (list Q)) (ij : nat * nat) (m : matching) :
  total w (ij :: m) = (weight w (fst ij) (snd ij) + total w m)%Q.
Proof. reflexivity. Qed.

(** The candidate kept by the inner loop of [best_matching]. *)
Lemma fold_best (w : list (list Q)) (f : nat -> matching) (cols : list nat) :
  forall init,
    let r := fold_left (fun best j => if Qle_bool (total w (f j)) (total w best)
                                      then best else f j) cols init in
    (r = init \/ exists j, In j cols /\ r = f j)
    /\ (total w init <= total w r)%Q
    /\ forall j, In j cols -> (total w (f j) <= total w r)%Q.
Proof.
  induction cols as [|j cols IH]; intros init; cbn [fold_left].
  - repeat split; auto using Qle_refl. intros j [].
  - destruct (IH (if Qle_bool (total w (f j)) (total w init) then init else f j))
      as [Hc [Hle Hmax]].
    set (r := fold_left _ cols _) in *.
    destruct (Qle_bool (total w (f j)) (total w init)) eqn:E.
    + apply Qle_bool_iff in E. repeat split.
      * destruct Hc as [Hc | [j' [Hj' Hc]]]; [left; exact Hc|].
        right. exists j'. split; [right; exact Hj' | exact Hc].
      * exact Hle.
      * intros x [<- | Hx]; [lra | apply Hmax; exact Hx].
    + assert (Hlt : (total w init < total w (f j))%Q).
      { apply Qnot_le_lt. intros C. apply Qle_bool_iff in C. congruence. }
      repeat split.
      * destruct Hc as [Hc | [j' [Hj' Hc]]]; right.
        -- exists j. split; [left; reflexivity | exact Hc].
        -- exists j'. split; [right; exact Hj' | exact Hc].
      * lra.
      * intros x [<- | Hx]; [exact Hle | apply Hmax; exact Hx].
Qed.

Lemma valid_matching_weaken (i : nat) (rows cols : list nat) (m : matching) :
  valid_matching rows cols m -> valid_matching (i :: rows) cols m.
Proof.
  intros [H1 [H2 H3]]. split; [exact H1|]. split; [exact H2|].
  intros ij Hin. destruct (H3 ij Hin) as [Hr Hc]. split; [right; exact Hr | exact Hc].
Qed.

Lemma valid_matching_cons (i j : nat) (rows cols : list nat) (m : matching) :
  ~ In i rows -> In j cols ->
  valid_matching rows (remove Nat.eq_dec j cols) m ->
  valid_matching (i :: rows) cols ((i, j) :: m).
Proof.
  intros Hi Hj [H1 [H2 H3]]. split; [|split].
  - cbn [map fst]. constructor; [|exact H1].
    intros C. apply in_map_iff in C. destruct C as [ij [E Hin]].
    apply Hi. rewrite <- E. apply (H3 ij Hin).
  - cbn [map snd]. constructor; [|exact H2].
    intros C. apply in_map_iff in C. destruct C as [ij [E Hin]].
    destruct (H3 ij Hin) as [_ Hc]. rewrite E in Hc. apply in_remove in Hc. tauto.
  - intros ij [<- | Hin]; cbn [fst snd].
    + split; [left; reflexivity | exact Hj].
    + destruct (H3 ij Hin) as [Hr Hc]. apply in_remove in Hc.
      split; [right; exact Hr | apply Hc].
Qed.

Lemma best_matching_valid (w : list (list Q)) (rows : list nat) :
  forall cols, NoDup rows -> valid_matching rows cols (best_matching w rows cols).
Proof.
  induction rows as [|i rows IH]; intros cols Hr; cbn [best_matching].
  - split; [constructor|]. split; [constructor|]. intros ij [].
  - inversion Hr as [|? ? Hi Hr']; subst.
    destruct (fold_best w (fun j => (i, j) :: best_matching w rows (remove Nat.eq_dec j cols))
                cols (best_matching w rows cols)) as [[-> | [j [Hj ->]]] _].
    + apply valid_matching_weaken, IH, Hr'.
    + apply valid_matching_cons; [exact Hi | exact Hj | apply IH, Hr'].
Qed.

Lemma valid_matching_split (i j : nat) (rows cols : list nat) (m1 m2 : matching) :
  valid_matching (i :: rows) cols (m1 ++ (i, j) :: m2) ->
  In j cols /\ valid_matching rows (remove Nat.eq_dec j cols) (m1 ++ m2).
Proof.
  intros [H1 [H2 H3]]. rewrite map_app in H1, H2. cbn [map fst snd] in H1, H2.
  pose proof (NoDup_remove_2 _ _ _ H1) as Hi. pose proof (NoDup_remove_2 _ _ _ H2) as Hj.
  apply NoDup_remove_1 in H1, H2. rewrite <- map_app in *.
  split; [apply (H3 (i, j)), in_app_iff; right; left; reflexivity|].
  split; [exact H1|]. split; [exact H2|].
  intros ij Hin.
  assert (Hin' : In ij (m1 ++ (i, j) :: m2)).
  { apply in_app_iff in Hin. apply in_app_iff. destruct Hin; [left | right; right]; auto. }
  destruct (H3 ij Hin') as [Hr Hc]. split.
  - destruct Hr as [E | Hr]; [|exact Hr].
    exfalso. apply Hi. rewrite E. apply in_map. exact Hin.
  - apply in_in_remove; [|exact Hc].
    intros E. apply Hj. rewrite <- E. apply in_map. exact Hin.
Qed.

Lemma valid_matching_strengthen (i : nat) (rows cols : list nat) (m : matching) :
  ~ In i (map fst m) -> valid_matching (i :: rows) cols m -> valid_matching rows cols m.
Proof.
  intros Hi [H1 [H2 H3]]. split; [exact H1|]. split; [exact H2|].
  intros ij Hin. split; [|apply (H3 ij Hin)].
  destruct (H3 ij Hin) as [[E | Hr] _]; [|exact Hr].
  exfalso. apply Hi. rewrite E. apply in_map. exact Hin.
Qed.

Lemma best_matching_optimal (w : list (list Q)) (rows : list nat) :
  forall cols m,
    valid_matching rows cols m ->
    (total w m <= total w (best_matching w rows cols))%Q.
Proof.
  induction rows as [|i rows IH]; intros cols m Hm; cbn [best_matching].
  - destruct m as [|ij m]; [apply Qle_refl|].
    destruct Hm as [_ [_ H3]]. destruct (H3 ij (or_introl eq_refl)) as [[] _].
  - destruct (fold_best w (fun j => (i, j) :: best_matching w rows (remove Nat.eq_dec j cols))
                cols (best_matching w rows cols)) as [_ [Hinit Hmax]].
    set (r := fold_left _ cols _) in *.
    destruct (in_dec Nat.eq_dec i (map fst m)) as [Hin | Hout].
    + apply in_map_iff in Hin. destruct Hin as [[i' j] [E Hin]]. cbn [fst] in E. subst i'.
      apply in_split in Hin. destruct Hin as [m1 [m2 ->]].
      destruct (valid_matching_split i j rows cols m1 m2 Hm) as [Hj Hv].
      specialize (IH _ _ Hv). specialize (Hmax j Hj). rewrite total_cons in Hmax.
      cbn [fst snd] in Hmax.
      rewrite total_app, total_cons. cbn [fst snd].
      rewrite total_app in IH. lra.
    + apply valid_matching_strengthen in Hm; [|exact Hout].
      specialize (IH _ _ Hm). lra.
Qed.

Lemma count_app {A : Type} (f : A -> bool) (a b : list A) :
  count f (a ++ b) = count f a + count f b.
Proof. unfold count. rewrite filter_app, length_app. reflexivity. Qed.

Lemma count_map {A B : Type} (f : B -> bool) (g : A -> B) (l : list A) :
  count f (map g l) = count (fun x => f (g x)) l.
Proof.
  unfold count. induction l as [|a l IH]; cbn [map filter]; [reflexivity|].
  destruct (f (g a)); cbn [length]; rewrite IH; reflexivity.
Qed.

Lemma count_none {A : Type} (f : A -> bool) (l : list A) :
  (forall x, In x l -> f x = false) -> count f l = 0.
Proof.
  unfold count. induction l as [|a l IH]; intros H; cbn [filter]; [reflexivity|].
  rewrite (H a (or_introl eq_refl)). apply IH. intros x Hx. apply H. right. exact Hx.
Qed.

Lemma mem_nat_iff (i : nat) (l : list nat) : mem_nat i l = true <-> In i l.
Proof.
  unfold mem_nat. rewrite existsb_exists. split.
  - intros [x [Hx E]]. apply Nat.eqb_eq in E. subst. exact Hx.
  - intros H. exists i. split; [exact H | apply Nat.eqb_refl].
Qed.

Lemma count_NoDup (i : nat) (l : list nat) :
  NoDup l -> count (fun x => x =? i) l = if mem_nat i l then 1 else 0.
Proof.
  induction 1 as [|a l Ha Hnd IH]; [reflexivity|].
  unfold count in *. cbn [filter]. unfold mem_nat in *. cbn [existsb].
  rewrite (Nat.eqb_sym i a). destruct (a =? i) eqn:E; cbn [length orb].
  - apply Nat.eqb_eq in E. subst a. rewrite IH.
    destruct (existsb (Nat.eqb i) l) eqn:M; [|reflexivity].
    exfalso. apply Ha. apply mem_nat_iff. exact M.
  - exact IH.
Qed.

(** Every row and every column is in exactly one slot. *)
Lemma slots_cover (w : list (list Q)) (R P : nat) (m : matching) :
  valid_matching (seq 0 R) (seq 0 P) m ->
  (forall i, i < R -> count (has_ref i) (slots_of w R P m) = 1)
  /\ (forall j, j < P -> count (has_pred j) (slots_of w R P m) = 1).
Proof.
  intros [H1 [H2 _]]. unfold slots_of. split.
  - intros i Hi. rewrite !count_app, !count_map. unfold has_ref. cbn [fst snd].
    rewrite (count_none (fun _ => false)) by reflexivity.
    rewrite <- (count_map (fun x => x =? i) fst), (count_NoDup i (map fst m) H1).
    rewrite (count_NoDup i) by (apply NoDup_filter, seq_NoDup).
    destruct (mem_nat i (map fst m)) eqn:M.
    + replace (mem_nat i (filter _ (seq 0 R))) with false; [reflexivity|].
      symmetry. apply not_true_iff_false. intros C. apply mem_nat_iff, filter_In in C.
      destruct C as [_ C]. rewrite M in C. discriminate.
    + replace (mem_nat i (filter _ (seq 0 R))) with true; [reflexivity|].
      symmetry. apply mem_nat_iff, filter_In. split; [apply in_seq; lia|].
      rewrite M. reflexivity.
  - intros j Hj. rewrite !count_app, !count_map. unfold has_pred. cbn [fst snd].
    rewrite (count_none (fun _ => false) (filter _ (seq 0 R))) by reflexivity.
    rewrite <- (count_map (fun x => x =? j) snd), (count_NoDup j (map snd m) H2).
    rewrite (count_NoDup j) by (apply NoDup_filter, seq_NoDup).
    destruct (mem_nat j (map snd m)) eqn:M.
    + replace (mem_nat j (filter _ (seq 0 P))) with false; [reflexivity|].
      symmetry. apply not_true_iff_false. intros C. apply mem_nat_iff, filter_In in C.
      destruct C as [_ C]. rewrite M in C. discriminate.
    + replace (mem_nat j (filter _ (seq 0 P))) with true; [reflexivity|].
      symmetry. apply mem_nat_iff, filter_In. split; [apply in_seq; lia|].
      rewrite M. reflexivity.
Qed.

Lemma slots_shape (w : list (list Q)) (R P : nat) (m : matching) :
  forall s, In s (slots_of w R P m) -> slot_shape w m s.
Proof.
  intros s Hs. unfold slots_of in Hs. rewrite !in_app_iff, !in_map_iff in Hs.
  destruct Hs as [[[i j] [<- Hin]] | [[i [<- _]] | [j [<- _]]]]; cbn; auto.
Qed.

Lemma valid_matching_length (R P : nat) (m : matching) :
  valid_matching (seq 0 R) (seq 0 P) m -> length m <= Nat.min R P.
Proof.
  intros [H1 [H2 H3]].
  assert (L1 : length (map fst m) <= length (seq 0 R)).
  { apply NoDup_incl_length; [exact H1|]. intros x Hx.
    apply in_map_iff in Hx. destruct Hx as [ij [<- Hin]]. apply (H3 ij Hin). }
  assert (L2 : length (map snd m) <= length (seq 0 P)).
  { apply NoDup_incl_length; [exact H2|]. intros x Hx.
    apply in_map_iff in Hx. destruct Hx as [ij [<- Hin]]. apply (H3 ij Hin). }
  rewrite length_map, length_seq in L1, L2. lia.
Qed.

Lemma mapM_nth {A B : Type} (f : A -> outcome B) (l : list A) :
  forall out i a,
    mapM f l = Ret out -> nth_error l i = Some a ->
    exists b, nth_error out i = Some b /\ f a = Ret b.
Proof.
  induction l as [|x l IH]; intros out i a H Hi; [destruct i; discriminate|].
  cbn [mapM] in H.
  destruct (f x) as [b| | |] eqn:E; cbn [bind] in H; try discriminate.
  destruct (mapM f l) as [bs| | |] eqn:El; cbn [bind] in H; try discriminate.
  inversion H; subst out. destruct i as [|i]; cbn [nth_error] in *.
  - inversion Hi; subst a. exists b. auto.
  - apply (IH bs i a eq_refl Hi).
Qed.

Lemma weights_spec (sim : similarity) (refs : list MergedRelation) (preds : list Relation)
  (w : list (list Q)) :
  weights sim refs preds = Ret w ->
  forall i j r p,
    nth_error refs i = Some r -> nth_error preds j = Some p ->
    sim r p = Ret (weight w i j).
Proof.
  intros H i j r p Hr Hp. unfold weights in H.
  destruct (mapM_nth _ _ _ _ _ H Hr) as [row [Hrow Erow]].
  destruct (mapM_nth _ _ _ _ _ Erow Hp) as [q [Hq Eq]].
  rewrite Eq. unfold weight.
  rewrite (nth_error_nth _ _ _ Hrow), (nth_error_nth _ _ _ Hq). reflexivity.
Qed.

(** C9 -- On the pairing engine as the specification describes it. For R
    reference relations and P filtered predictions whose similarities can
    all be computed, the pairs returned come from a one-to-one assignment of
    at most min(R, P) disjoint (reference, prediction) positions whose total
    similarity no other one-to-one assignment exceeds; a matched pair
    carries the similarity of its two relations, a relation left alone is
    emitted with the other side absent and score 0, and every position on
    each side is in exactly one pair. *)
Theorem munkres_pairs_optimal (sim : similarity) (refs : list MergedRelation)
  (preds : list Relation) (w : list (list Q)) :
  weights sim refs preds = Ret w ->
  exists m,
    munkres_get_pairs sim refs preds
    = Ret (map (pair_of_slot refs preds) (slots_of w (length refs) (length preds) m))
    /\ (forall i j r p, nth_error refs i = Some r -> nth_error preds j = Some p ->
                        sim r p = Ret (weight w i j))
    /\ valid_matching (seq 0 (length refs)) (seq 0 (length preds)) m
    /\ length m <= Nat.min (length refs) (length preds)
    /\ (forall m', valid_matching (seq 0 (length refs)) (seq 0 (length preds)) m' ->
                   (total w m' <= total w m)%Q)
    /\ (forall i, i < length refs ->
          count (has_ref i) (slots_of w (length refs) (length preds) m) = 1)
    /\ (forall j, j < length preds ->
          count (has_pred j) (slots_of w (length refs) (length preds) m) = 1)
    /\ (forall s, In s (slots_of w (length refs) (length preds) m) -> slot_shape w m s).
Proof.
  intros Hw.
  exists (best_matching w (seq 0 (length refs)) (seq 0 (length preds))).
  pose proof (best_matching_valid w (seq 0 (length refs)) (seq 0 (length preds))
                (seq_NoDup _ _)) as Hv.
  split; [unfold munkres_get_pairs; rewrite Hw; reflexivity|].
  split; [apply weights_spec; exact Hw|].
  split; [exact Hv|].
  split; [apply valid_matching_length; exact Hv|].
  split; [intros m' Hm'; apply best_matching_optimal; exact Hm'|].
  split; [apply slots_cover; exact Hv|].
  split; [apply slots_cover; exact Hv|].
  apply slots_shape.
Qed.

(** An instance of C9: the example of the spec, where matching the first
    reference with its nearest prediction first would total 1.9 and the
    assignment returned totals 2. *)
Lemma munkres_pairs_witness :
  exists m,
    munkres_get_pairs square_sim square_refs square_preds
    = Ret (map (pair_of_slot square_refs square_preds)
               (slots_of [[(9 # 10)%Q; 1%Q]; [1%Q; 0%Q]] 2 2 m))
    /\ (forall m', valid_matching (seq 0 2) (seq 0 2) m' ->
                   (total [[(9 # 10)%Q; 1%Q]; [1%Q; 0%Q]] m'
                    <= total [[(9 # 10)%Q; 1%Q]; [1%Q; 0%Q]] m)%Q).
Proof.
  destruct (munkres_pairs_optimal square_sim square_refs square_preds
              [[(9 # 10)%Q; 1%Q]; [1%Q; 0%Q]] eq_refl)
    as [m [H1 [_ [_ [_ [H2 _]]]]]].
  exists m. split; [exact H1 | exact H2].
Defined.

Example optimal_not_greedy :
  best_matching [[(9 # 10)%Q; 1%Q]; [1%Q; 0%Q]] [0; 1] [0; 1] = [(0, 1); (1, 0)]
  /\ munkres_get_pairs square_sim square_refs square_preds
     = Ret [mkPair (nth_error square_refs 0) (nth_error square_preds 1) 1%Q;
            mkPair (nth_error square_refs 1) (nth_error square_preds 0) 1%Q].
Proof. split; vm_compute; reflexivity. Qed.

(** ** Errors that are not divisions by zero *)

Lemma nzd_bind {A B : Type} (c : outcome A) (k : A -> outcome B) :
  no_zero_division c -> (forall a, no_zero_division (k a)) -> no_zero_division (bind c k).
Proof.
  unfold no_zero_division. intros Hc Hk. destruct c as [a|e|z|]; cbn [bind].
  - apply Hk.
  - intros C. apply Hc. inversion C. reflexivity.
  - discriminate.
  - discriminate.
Qed.

Lemma nzd_mapM {A B : Type} (f : A -> outcome B) (l : list A) :
  (forall a, no_zero_division (f a)) -> no_zero_division (mapM f l).
Proof.
  intros Hf. induction l as [|a l IH]; cbn [mapM]; [discriminate|].
  apply nzd_bind; [apply Hf|]. intros b. apply nzd_bind; [exact IH|]. discriminate.
Qed.

Ltac nzd_done := unfold no_zero_division; cbn; discriminate.

Lemma nzd_subscript (args : list (pystr * json)) (k : pystr) :
  no_zero_division (subscript args k).
Proof. unfold subscript. destruct (dict_get k args); nzd_done. Qed.

Lemma nzd_as_str (j : json) : no_zero_division (as_str j).
Proof. destruct j; nzd_done. Qed.

Lemma nzd_iter_json (j : json) : no_zero_division (iter_json j).
Proof. destruct j; nzd_done. Qed.

Lemma nzd_kwargs (j : json) : no_zero_division (kwargs j).
Proof. destruct j; nzd_done. Qed.

Lemma nzd_Entity_init (ent : json) : no_zero_division (Entity_init ent).
Proof.
  unfold Entity_init.
  apply nzd_bind; [apply nzd_kwargs|]. intros args.
  apply nzd_bind; [apply nzd_subscript|]. intros ty.
  apply nzd_bind; [apply nzd_subscript|]. intros nm.
  destruct (find_norm args); [|nzd_done].
  apply nzd_bind; [apply nzd_subscript|]. intros nv.
  apply nzd_bind; [destruct (dict_get (str "id") args) as [[]|]; nzd_done|]. intros i.
  repeat (apply nzd_bind; [apply nzd_as_str|]; intros ?). nzd_done.
Qed.

Lemma nzd_Relation_init (rel : json) : no_zero_division (Relation_init rel).
Proof.
  unfold Relation_init.
  apply nzd_bind; [apply nzd_kwargs|]. intros args.
  apply nzd_bind; [apply nzd_subscript|]. intros ty.
  apply nzd_bind.
  - destruct (dict_get (str "arguments") args) as [[]|]; try nzd_done.
    + repeat (apply nzd_bind; [apply nzd_subscript|]; intros ?). nzd_done.
    + apply nzd_bind; [apply nzd_subscript|]. intros s.
      apply nzd_bind; [|nzd_done].
      destruct (dict_get (str "target") args) as [v|]; [destruct (truthy v)|];
        try nzd_done; apply nzd_subscript.
  - intros st. repeat (apply nzd_bind; [apply nzd_as_str|]; intros ?). nzd_done.
Qed.

Lemma nzd_get_items (elt : json) (k : pystr) : no_zero_division (get_items elt k).
Proof.
  destruct elt; try nzd_done. cbn [get_items].
  destruct (dict_get k kv); [apply nzd_iter_json | nzd_done].
Qed.

Lemma nzd_squash_list (j : json) : no_zero_division (squash_list j).
Proof.
  destruct j; try nzd_done. cbn [squash_list].
  generalize (@nil json) at 1. generalize (@nil json).
  induction l as [|elt l IH]; intros rels ents; cbn [squash_chunks]; [nzd_done|].
  apply nzd_bind; [apply nzd_get_items|]. intros e.
  apply nzd_bind; [apply nzd_get_items|]. intros r. apply IH.
Qed.

Lemma nzd_id_set (eq : json) : no_zero_division (id_set eq).
Proof.
  unfold id_set. apply nzd_bind; [apply nzd_iter_json|]. intros items.
  apply nzd_bind; [|nzd_done]. apply nzd_mapM. intros x. destruct x; nzd_done.
Qed.

Lemma io_nzd_bind {A B : Type} (c : io A) (k : A -> io B) :
  io_no_zero_division c -> (forall a, io_no_zero_division (k a)) ->
  io_no_zero_division (io_bind c k).
Proof.
  unfold io_no_zero_division, io_bind. intros Hc Hk t. specialize (Hc t).
  destruct (c t) as [[a|e|z|] t']; cbn [fst] in *.
  - apply Hk.
  - intros C. apply Hc. inversion C. reflexivity.
  - discriminate.
  - discriminate.
Qed.

Lemma io_nzd_lift {A : Type} (c : outcome A) :
  no_zero_division c -> io_no_zero_division (lift c).
Proof. intros H t. exact H. Qed.

Lemma io_nzd_log (msg : pystr) : io_no_zero_division (log msg).
Proof. intros t. cbn. discriminate. Qed.

Lemma io_nzd_ret {A : Type} (a : A) : io_no_zero_division (io_ret a).
Proof. intros t. cbn. discriminate. Qed.

Lemma io_nzd_dataset_of_json (j : json) : io_no_zero_division (dataset_of_json j).
Proof.
  unfold dataset_of_json.
  apply io_nzd_bind; [apply io_nzd_lift, nzd_squash_list|]. intros j'.
  apply io_nzd_bind; [apply io_nzd_lift; destruct j'; nzd_done|]. intros kv.
  apply io_nzd_bind.
  { apply io_nzd_lift. apply nzd_bind; [apply nzd_subscript|]. intros e.
    apply nzd_bind; [apply nzd_iter_json|]. intros items.
    apply nzd_mapM, nzd_Entity_init. }
  intros ents. apply io_nzd_bind.
  { apply io_nzd_lift. apply nzd_bind; [apply nzd_subscript|]. intros e.
    apply nzd_bind; [apply nzd_iter_json|]. intros items.
    apply nzd_mapM, nzd_Relation_init. }
  intros rels. apply io_nzd_bind.
  { apply io_nzd_lift. destruct (dict_get (str "equivalences") _); [|nzd_done].
    apply nzd_bind; [apply nzd_iter_json|]. intros items. apply nzd_mapM, nzd_id_set. }
  intros eqs. apply io_nzd_bind; [|intros _; apply io_nzd_ret].
  destruct rels; [apply io_nzd_log | apply io_nzd_ret].
Qed.

Lemma nzd_ent_lookup (m : list (option pystr * MergedEntity)) (id : pystr) :
  no_zero_division (ent_lookup m id).
Proof. unfold ent_lookup. destruct (assoc id_eqb (Some id) m); nzd_done. Qed.

Lemma nzd_merge_relations (m : list (option pystr * MergedEntity)) (rels : list Relation) :
  forall seen, no_zero_division (merge_relations m seen rels).
Proof.
  induction rels as [|rel rels IH]; intros seen; cbn [merge_relations]; [nzd_done|].
  apply nzd_bind.
  { unfold Relation_key. repeat (apply nzd_bind; [apply nzd_ent_lookup|]; intros ?).
    nzd_done. }
  intros k. destruct (existsb (relation_key_eqb k) seen); [apply IH|].
  apply nzd_bind.
  { unfold MergedRelation_init.
    repeat (apply nzd_bind; [apply nzd_ent_lookup|]; intros ?). nzd_done. }
  intros mr. apply nzd_bind; [apply IH | nzd_done].
Qed.

Lemma io_nzd_merge_ref (ds : Dataset) : io_no_zero_division (merge_ref ds).
Proof.
  unfold merge_ref. apply io_nzd_bind; [apply io_nzd_log|]. intros _.
  apply io_nzd_bind; [apply io_nzd_lift, nzd_merge_relations|]. intros rels.
  apply io_nzd_ret.
Qed.

(** ** The evaluation driver *)

Lemma not_redundant_positions (idxs : list nat) (preds : list Relation) :
  map Some (not_redundant idxs preds)
  = map (nth_error preds)
        (filter (fun j => negb (mem_nat j idxs)) (seq 0 (length preds))).
Proof.
  unfold not_redundant, enumerate.
  assert (G : forall (l : list Relation) (k : nat),
             map Some (map snd (filter (fun ip => negb (existsb (Nat.eqb (fst ip)) idxs))
                                       (combine (seq k (length l)) l)))
             = map (fun j => nth_error l (j - k))
                   (filter (fun j => negb (mem_nat j idxs)) (seq k (length l)))).
  { induction l as [|a l IH]; intros k; cbn [length seq combine filter map fst];
      [reflexivity|].
    fold (mem_nat k idxs).
    assert (T : map (fun j => nth_error (a :: l) (j - k))
                    (filter (fun j => negb (mem_nat j idxs)) (seq (S k) (length l)))
                = map (fun j => nth_error l (j - S k))
                      (filter (fun j => negb (mem_nat j idxs)) (seq (S k) (length l)))).
    { apply map_ext_in. intros j Hj. apply filter_In in Hj. destruct Hj as [Hj _].
      apply in_seq in Hj. replace (j - k) with (S (j - S k)) by lia. reflexivity. }
    destruct (negb (mem_nat k idxs)); cbn [map snd]; rewrite ?Nat.sub_diag;
      cbn [nth_error]; rewrite T, <- IH; reflexivity. }
  rewrite G. apply map_ext. intros j. rewrite Nat.sub_0_r. reflexivity.
Qed.

Section Driver.

Variable lower : pystr -> pystr.
Variable json_loads : pystr -> option json.
Variable fs : pystr -> option pystr.
Variable get_pairs : similarity -> list MergedRelation -> list Relation -> outcome (list Pair).
Variables BaseT IET : Type.
Variable BaseScores : list Pair -> outcome BaseT.
Variable IEScores : list Pair -> BaseT -> outcome IET.
Variable base_items : BaseT -> outcome (list (pystr * pystr)).
Variable ie_items : IET -> outcome (list (pystr * pystr)).
Variable f_score : IET -> outcome Q.

(** C8 -- The redundancy filter scores with strict type and strict argument
    similarity whatever similarities [evaluate] was called with. A
    prediction is marked redundant exactly when, for some reference relation,
    it scores 1.0 against it and an earlier prediction also does, so the
    first such prediction is not marked by that reference relation. The
    assignment is computed on the predictions at the positions that are not
    marked, in their order, and on nothing else of the predicted dataset. *)
Theorem redundant_predictions_are_excluded (r : MergedRefDataset) (p : Dataset)
  (idxs : list nat) :
  pred_redundant lower (m_relations r) (relations p) = Ret idxs ->
  (forall j, In j idxs <-> repeats_perfect_match lower (m_relations r) (relations p) j)
  /\ map Some (not_redundant idxs (relations p))
     = map (nth_error (relations p))
           (filter (fun j => negb (mem_nat j idxs)) (seq 0 (length (relations p))))
  /\ forall type_sim arg_sim,
       evaluate lower get_pairs BaseT IET BaseScores IEScores base_items ie_items
                r p type_sim arg_sim
       = evaluate_from get_pairs BaseT IET BaseScores IEScores base_items ie_items
                       r type_sim arg_sim (not_redundant idxs (relations p)).
Proof.
  intros H. split; [apply pred_redundant_spec; exact H|].
  split; [apply not_redundant_positions|].
  intros type_sim arg_sim. unfold evaluate, evaluate_from. rewrite H. reflexivity.
Qed.

Lemma pred_redundant_nil (refs : list MergedRelation) :
  pred_redundant lower refs [] = Ret [].
Proof.
  unfold pred_redundant, enumerate. cbn [length seq combine].
  rewrite (mapM_ret _ (fun _ => @nil nat)) by reflexivity. cbn [bind].
  f_equal. induction refs as [|r refs IH]; cbn [map concat app]; auto.
Qed.

Lemma from_json_file_missing (filename : pystr) (t : list event) :
  fs filename = None ->
  from_json_file json_loads fs filename t
  = (Exit 1, t ++ [Log (str "reading " ++ filename); Log (str "ERROR: file not found")]).
Proof.
  intros H. unfold from_json_file, io_bind, log, exit. rewrite H.
  rewrite <- app_assoc. reflexivity.
Qed.

Lemma from_json_file_malformed (filename content : pystr) (t : list event) :
  fs filename = Some content ->
  json_loads (repaired content) = None ->
  from_json_file json_loads fs filename t
  = (Ret (mkDataset [] [] []),
     t ++ [Log (str "reading " ++ filename); Log (str "ERROR: malformed JSON")]).
Proof.
  intros H1 H2. unfold from_json_file, io_bind, log, io_ret, repaired in *.
  rewrite H1, H2. rewrite <- app_assoc. reflexivity.
Qed.

Lemma main_after_loading (ref_fn pred_fn : pystr) (t t1 : list event)
  (ref_ds : MergedRefDataset) :
  MergedRefDataset_from_json_file json_loads fs ref_fn t = (Ret ref_ds, t1) ->
  main lower json_loads fs get_pairs BaseT IET BaseScores IEScores base_items ie_items
       f_score ref_fn pred_fn t
  = (pred_ds <~ from_json_file json_loads fs pred_fn ;;
     try_except_zero_division
       (main_body lower get_pairs BaseT IET BaseScores IEScores base_items ie_items
                  f_score ref_ds pred_ds)
       main_handler) t1.
Proof.
  intros H. unfold main. unfold io_bind at 1. rewrite H. reflexivity.
Qed.

Lemma try_except_returned {A : Type} (body handler : io A) (t t' : list event) (a : A) :
  body t = (Ret a, t') -> try_except_zero_division body handler t = (Ret a, t').
Proof. intros H. unfold try_except_zero_division. rewrite H. reflexivity. Qed.

Lemma try_except_caught {A : Type} (body handler : io A) (t t' : list event) :
  body t = (Raise ZeroDivisionError, t') ->
  try_except_zero_division body handler t = handler t'.
Proof. intros H. unfold try_except_zero_division. rewrite H. reflexivity. Qed.

Lemma handler_result (t : list event) :
  main_handler t = (Ret 0%Q, t ++ [Log (str "WARNING: nil R/P"); PrintFloat 0%Q]).
Proof.
  unfold main_handler, io_bind, log, print_float, io_ret. rewrite <- app_assoc. reflexivity.
Qed.

(** C5 (amended) -- When the predicted file exists and [json.loads] rejects
    its text after the code fence and the trailing commas are removed, the
    parse step logs the error and returns the empty Dataset, and the
    evaluation proceeds on it: the redundancy filter returns without error
    and the pairing is computed on no prediction. *)
Theorem malformed_json_is_empty_dataset (filename content : pystr) (t : list event) :
  fs filename = Some content ->
  json_loads (repaired content) = None ->
  from_json_file json_loads fs filename t
  = (Ret (mkDataset [] [] []),
     t ++ [Log (str "reading " ++ filename); Log (str "ERROR: malformed JSON")])
  /\ forall r type_sim arg_sim,
       evaluate lower get_pairs BaseT IET BaseScores IEScores base_items ie_items
                r (mkDataset [] [] []) type_sim arg_sim
       = evaluate_from get_pairs BaseT IET BaseScores IEScores base_items ie_items
                       r type_sim arg_sim [].
Proof.
  intros H1 H2. split; [apply (from_json_file_malformed filename content t H1 H2)|].
  intros r type_sim arg_sim. unfold evaluate, evaluate_from. cbn [relations].
  rewrite pred_redundant_nil. reflexivity.
Qed.

(** C3 (amended) -- Absence of the reference file ends the run with exit
    status 1, and so does absence of the predicted file once the reference
    is loaded. When the predicted file exists and its text is rejected by
    [json.loads] after repair, [main] evaluates the reference against the
    empty Dataset: it returns the score of that evaluation when there is
    one, and the score 0.0 when the evaluation ends in ZeroDivisionError. *)
Theorem missing_file_is_fatal_malformed_is_scored :
  (forall ref_fn pred_fn t,
      fs ref_fn = None ->
      main lower json_loads fs get_pairs BaseT IET BaseScores IEScores base_items ie_items
           f_score ref_fn pred_fn t
      = (Exit 1, t ++ [Log (str "reading " ++ ref_fn); Log (str "ERROR: file not found")]))
  /\ (forall ref_fn pred_fn t ref_ds t1,
         MergedRefDataset_from_json_file json_loads fs ref_fn t = (Ret ref_ds, t1) ->
         fs pred_fn = None ->
         main lower json_loads fs get_pairs BaseT IET BaseScores IEScores base_items
              ie_items f_score ref_fn pred_fn t
         = (Exit 1,
            t1 ++ [Log (str "reading " ++ pred_fn); Log (str "ERROR: file not found")]))
  /\ (forall ref_fn pred_fn content t ref_ds t1,
         MergedRefDataset_from_json_file json_loads fs ref_fn t = (Ret ref_ds, t1) ->
         fs pred_fn = Some content ->
         json_loads (repaired content) = None ->
         (forall f t3,
             main_body lower get_pairs BaseT IET BaseScores IEScores base_items ie_items
                       f_score ref_ds (mkDataset [] [] [])
                       (t1 ++ [Log (str "reading " ++ pred_fn);
                               Log (str "ERROR: malformed JSON")])
             = (Ret f, t3) ->
             main lower json_loads fs get_pairs BaseT IET BaseScores IEScores base_items
                  ie_items f_score ref_fn pred_fn t
             = (Ret f, t3))
         /\ (forall t3,
                main_body lower get_pairs BaseT IET BaseScores IEScores base_items ie_items
                          f_score ref_ds (mkDataset [] [] [])
                          (t1 ++ [Log (str "reading " ++ pred_fn);
                                  Log (str "ERROR: malformed JSON")])
                = (Raise ZeroDivisionError, t3) ->
                main lower json_loads fs get_pairs BaseT IET BaseScores IEScores base_items
                     ie_items f_score ref_fn pred_fn t
                = (Ret 0%Q, t3 ++ [Log (str "WARNING: nil R/P"); PrintFloat 0%Q]))).
Proof.
  split; [|split].
  - intros ref_fn pred_fn t H. unfold main, MergedRefDataset_from_json_file.
    unfold io_bind at 1 2. rewrite (from_json_file_missing ref_fn t H). reflexivity.
  - intros ref_fn pred_fn t ref_ds t1 Href Hpred.
    rewrite (main_after_loading ref_fn pred_fn t t1 ref_ds Href).
    unfold io_bind. rewrite (from_json_file_missing pred_fn t1 Hpred). reflexivity.
  - intros ref_fn pred_fn content t ref_ds t1 Href Hpred Hbad.
    assert (M : main lower json_loads fs get_pairs BaseT IET BaseScores IEScores
                     base_items ie_items f_score ref_fn pred_fn t
                = try_except_zero_division
                    (main_body lower get_pairs BaseT IET BaseScores IEScores base_items
                               ie_items f_score ref_ds (mkDataset [] [] []))
                    main_handler
                    (t1 ++ [Log (str "reading " ++ pred_fn);
                            Log (str "ERROR: malformed JSON")])).
    { rewrite (main_after_loading ref_fn pred_fn t t1 ref_ds Href).
      unfold io_bind. rewrite (from_json_file_malformed pred_fn content t1 Hpred Hbad).
      reflexivity. }
    split.
    + intros f t3 H. rewrite M. apply try_except_returned. exact H.
    + intros t3 H. rewrite M.
      etransitivity; [apply try_except_caught; exact H | apply handler_result].
Qed.

(** C4 -- When the evaluation of a loaded reference against a loaded
    prediction ends in ZeroDivisionError, [main] catches it, logs the
    warning, prints 0.0 and returns the score 0.0; and whatever its inputs,
    [main] never ends in ZeroDivisionError. *)
Theorem degenerate_metric_is_score_zero :
  (forall ref_fn pred_fn t ref_ds t1 pred_ds t2 t3,
      MergedRefDataset_from_json_file json_loads fs ref_fn t = (Ret ref_ds, t1) ->
      from_json_file json_loads fs pred_fn t1 = (Ret pred_ds, t2) ->
      main_body lower get_pairs BaseT IET BaseScores IEScores base_items ie_items
                f_score ref_ds pred_ds t2
      = (Raise ZeroDivisionError, t3) ->
      main lower json_loads fs get_pairs BaseT IET BaseScores IEScores base_items ie_items
           f_score ref_fn pred_fn t
      = (Ret 0%Q, t3 ++ [Log (str "WARNING: nil R/P"); PrintFloat 0%Q]))
  /\ (forall ref_fn pred_fn,
         io_no_zero_division
           (main lower json_loads fs get_pairs BaseT IET BaseScores IEScores base_items
                 ie_items f_score ref_fn pred_fn)).
Proof.
  split.
  - intros ref_fn pred_fn t ref_ds t1 pred_ds t2 t3 Href Hpred Hbody.
    rewrite (main_after_loading ref_fn pred_fn t t1 ref_ds Href).
    unfold io_bind. rewrite Hpred. cbv beta iota.
    etransitivity; [apply try_except_caught; exact Hbody | apply handler_result].
  - intros ref_fn pred_fn. unfold main.
    assert (L : forall fn, io_no_zero_division (from_json_file json_loads fs fn)).
    { intros fn. unfold from_json_file.
      apply io_nzd_bind; [apply io_nzd_log|]. intros _.
      destruct (fs fn) as [content|].
      - destruct (json_loads _) as [j|].
        + apply io_nzd_dataset_of_json.
        + apply io_nzd_bind; [apply io_nzd_log|]. intros _. apply io_nzd_ret.
      - apply io_nzd_bind; [apply io_nzd_log|]. intros _ t. cbn. discriminate. }
    apply io_nzd_bind.
    { unfold MergedRefDataset_from_json_file. apply io_nzd_bind; [apply L|].
      intros ds. apply io_nzd_merge_ref. }
    intros ref_ds. apply io_nzd_bind; [apply L|]. intros pred_ds t.
    unfold try_except_zero_division.
    destruct (main_body _ _ _ _ _ _ _ _ _ _ _ t) as [[f|e|z|] t'] eqn:E;
      try (cbn; discriminate).
    destruct e; cbn; discriminate.
Qed.

End Driver.

(** ** Runs of the driver on sample files *)

Example perfect_prediction_scores_one :
  fst (run_main (files (Some ref_text) (Some good_text)) []) = Ret 1%Q.
Proof. vm_compute. reflexivity. Qed.

(** An instance of C8: the second sample prediction repeats the perfect
    match of the first one and is the only one left out. *)
Lemma redundant_predictions_witness :
  repeats_perfect_match ascii_lower (m_relations sample_ref) (relations sample_pred) 1
  /\ map Some (not_redundant [1] (relations sample_pred))
     = [nth_error (relations sample_pred) 0; nth_error (relations sample_pred) 2].
Proof.
  destruct (redundant_predictions_are_excluded ascii_lower munkres_get_pairs
              base_scores base_scores BaseScores_spec IEScores_spec spec_items spec_items
              sample_ref sample_pred [1] eq_refl) as [H1 [H2 _]].
  split.
  - apply (proj1 (H1 1)). left. reflexivity.
  - exact H2.
Defined.

(** An instance of C5: a predicted file whose text is not JSON. *)
Lemma malformed_json_witness :
  from_json_file json_loads_lite (files (Some ref_text) (Some (str "not json"))) pred_file []
  = (Ret (mkDataset [] [] []),
     [Log (str "reading pred.txt"); Log (str "ERROR: malformed JSON")]).
Proof.
  apply (proj1 (malformed_json_is_empty_dataset ascii_lower json_loads_lite
                  (files (Some ref_text) (Some (str "not json")))
                  munkres_get_pairs base_scores base_scores BaseScores_spec IEScores_spec
                  spec_items spec_items pred_file (str "not json") [] eq_refl eq_refl)).
Defined.

(** C5 as stated fails: the texts [{}] and [42] are JSON, but not of the
    expected structure; the parse step does not return the empty Dataset,
    it raises KeyError for the first (no entities) and AttributeError for
    the second (a number has no [get]). *)
Lemma wrong_shape_is_not_recovered :
  json_loads_lite (repaired (str "{}")) = Some (JObj [])
  /\ fst (from_json_file json_loads_lite (files None (Some (str "{}"))) pred_file [])
     = Raise KeyError
  /\ json_loads_lite (repaired (str "42")) = Some (JNum 42)
  /\ fst (from_json_file json_loads_lite (files None (Some (str "42"))) pred_file [])
     = Raise AttributeError.
Proof. repeat split; vm_compute; reflexivity. Qed.

(** An instance of C3: the predicted file holds text that is not JSON; the
    evaluation of the reference against the empty Dataset divides by zero
    and [main] returns the score 0. *)
Lemma malformed_prediction_witness :
  exists t3,
    run_main (files (Some ref_text) (Some (str "not json"))) []
    = (Ret 0%Q, t3 ++ [Log (str "WARNING: nil R/P"); PrintFloat 0%Q]).
Proof.
  eexists.
  eapply (proj2 (proj2 (proj2 (missing_file_is_fatal_malformed_is_scored
                                 ascii_lower json_loads_lite
                                 (files (Some ref_text) (Some (str "not json")))
                                 munkres_get_pairs base_scores base_scores
                                 BaseScores_spec IEScores_spec spec_items spec_items
                                 spec_f_score))
                       ref_file pred_file (str "not json") [] _ _ _ _ _)).
  Unshelve.
  all: try (vm_compute; reflexivity).
  all: vm_compute; reflexivity.
Defined.

(** C3 as stated fails: with the reference in place, a missing predicted
    file ends the whole run with exit status 1, and a predicted file that
    holds the JSON text [{}] ends [main] with an uncaught KeyError. *)
Lemma missing_prediction_aborts_run :
  fst (run_main (files (Some ref_text) None) []) = Exit 1
  /\ fst (run_main (files (Some ref_text) (Some (str "{}"))) []) = Raise KeyError.
Proof. split; vm_compute; reflexivity. Qed.

(** An instance of C4: neither the reference nor the prediction has a
    relation, both denominators are zero. *)
Lemma degenerate_metric_witness :
  exists t3,
    BaseScores_spec [] = Raise ZeroDivisionError
    /\ run_main (files (Some bare_text) (Some bare_text)) []
       = (Ret 0%Q, t3 ++ [Log (str "WARNING: nil R/P"); PrintFloat 0%Q]).
Proof.
  eexists. split; [reflexivity|].
  eapply (proj1 (degenerate_metric_is_score_zero
                   ascii_lower json_loads_lite (files (Some bare_text) (Some bare_text))
                   munkres_get_pairs base_scores base_scores
                   BaseScores_spec IEScores_spec spec_items spec_items spec_f_score)
                ref_file pred_file [] _ _ _ _ _).
  - vm_compute. reflexivity.
  - vm_compute. reflexivity.
  - vm_compute. reflexivity.
Defined.

(** * Further properties of the code *)

(** ** The alignment score *)

Lemma aligned_sym (seq1 seq2 : list pystr) (shift : Z) (m : nat) :
  aligned seq1 seq2 shift m -> aligned seq2 seq1 (- shift) m.
Proof.
  intros [Hr [Hm Hf]]. unfold aligned. rewrite Z.opp_involutive.
  split; [lia|]. split; [lia|].
  intros k Hk. symmetry. apply Hf. exact Hk.
Qed.

Lemma jaccard_best_sym (seq1 seq2 : list pystr) :
  jaccard_best seq1 seq2 = jaccard_best seq2 seq1.
Proof.
  assert (H : forall a b, jaccard_best a b <= jaccard_best b a).
  { intros a b. destruct (jaccard_best_spec a b) as [[E | [s Hs]] _]; [lia|].
    apply (proj2 (jaccard_best_spec b a) (- s)%Z). apply aligned_sym. exact Hs. }
  apply Nat.le_antisymm; apply H.
Qed.

(** X1 -- The alignment score does not depend on the order of its two
    arguments: the same value, or the same division by zero. *)
Theorem jaccard_seq_symmetric (seq1 seq2 : list pystr) :
  _jaccard_seq seq1 seq2 = _jaccard_seq seq2 seq1.
Proof.
  unfold _jaccard_seq. rewrite (jaccard_best_sym seq1 seq2).
  rewrite (Nat.add_comm (length seq1) (length seq2)). reflexivity.
Qed.

Lemma Zpos_of_nat (n : nat) : n <> 0 -> Z.pos (Pos.of_nat n) = Z.of_nat n.
Proof.
  intros H. rewrite <- positive_nat_Z, Nat2Pos.id by exact H. reflexivity.
Qed.

Lemma ratio_bounds (a b : nat) : a <= b -> b <> 0 -> (0 <= ratio a b <= 1)%Q.
Proof.
  intros Hab Hb. unfold ratio. rewrite Qred_correct.
  assert (G : (0 * Z.of_nat b <= Z.of_nat a * 1 /\ Z.of_nat a * 1 <= 1 * Z.of_nat b)%Z)
    by lia.
  rewrite <- (Zpos_of_nat b Hb) in G. exact G.
Qed.

Lemma ratio_one_raw (a b : nat) :
  b <> 0 -> (Z.of_nat a # Pos.of_nat b == 1)%Q <-> a = b.
Proof.
  intros Hb.
  assert (G : (Z.of_nat a * 1 = 1 * Z.of_nat b)%Z <-> a = b) by lia.
  rewrite <- (Zpos_of_nat b Hb) in G. exact G.
Qed.

Lemma ratio_one (a b : nat) : b <> 0 -> (ratio a b == 1)%Q <-> a = b.
Proof.
  intros Hb. unfold ratio. rewrite Qred_correct. apply ratio_one_raw. exact Hb.
Qed.

Lemma ratio_diag (a : nat) : a <> 0 -> ratio a a = 1%Q.
Proof.
  intros Ha. unfold ratio. change 1%Q with (Qred 1). apply Qred_complete.
  apply (proj2 (ratio_one_raw a a Ha)). reflexivity.
Qed.

Lemma aligned_diag (seq : list pystr) : seq <> [] -> aligned seq seq 0 (length seq).
Proof.
  intros Hne. unfold aligned. cbn [Z.opp Z.max Z.to_nat].
  rewrite Nat.sub_0_r, Nat.min_id.
  split; [|split; [reflexivity | reflexivity]].
  destruct seq; [congruence | cbn [length]; lia].
Qed.

Lemma jaccard_best_full (seq1 seq2 : list pystr) :
  length seq1 + length seq2 <> 0 ->
  jaccard_best seq1 seq2 = length seq1 + length seq2 - jaccard_best seq1 seq2 ->
  seq1 = seq2.
Proof.
  intros Hne E. pose proof (jaccard_best_le seq1 seq2) as Hle.
  destruct (jaccard_best_spec seq1 seq2) as [[Z0 | [s [Hr [Hm Hf]]]] _]; [lia|].
  assert (Hs : s = 0%Z) by lia. subst s.
  cbn [Z.opp Z.max Z.to_nat] in Hm, Hf. rewrite !Nat.sub_0_r in Hm.
  apply nth_error_ext. intros k.
  destruct (Nat.lt_ge_cases k (jaccard_best seq1 seq2)) as [Hk | Hk].
  - apply (Hf k Hk).
  - rewrite (proj2 (nth_error_None seq1 k)) by lia.
    rewrite (proj2 (nth_error_None seq2 k)) by lia. reflexivity.
Qed.

Lemma seq_score_range (seq1 seq2 : list pystr) :
  length seq1 + length seq2 <> 0 ->
  (0 <= seq_score seq1 seq2 <= 1)%Q
  /\ ((seq_score seq1 seq2 == 1)%Q <-> seq1 = seq2)
  /\ (seq1 = seq2 -> seq_score seq1 seq2 = 1%Q).
Proof.
  intros E. pose proof (jaccard_best_le seq1 seq2) as Hle. unfold seq_score.
  assert (Hu : length seq1 + length seq2 - jaccard_best seq1 seq2 <> 0) by lia.
  assert (Heq : seq1 = seq2 ->
                jaccard_best seq1 seq2
                = length seq1 + length seq2 - jaccard_best seq1 seq2).
  { intros <-.
    assert (Hne : seq1 <> []) by (destruct seq1; [cbn in E; lia | discriminate]).
    pose proof (proj2 (jaccard_best_spec seq1 seq1) 0%Z _ (aligned_diag seq1 Hne)).
    lia. }
  split; [apply ratio_bounds; [lia | exact Hu]|]. split.
  - rewrite (ratio_one _ _ Hu). split; [apply jaccard_best_full; exact E | exact Heq].
  - intros Hs. rewrite <- (Heq Hs). apply ratio_diag. specialize (Heq Hs). lia.
Qed.

(** X2 -- Whenever the alignment score is defined it lies between 0 and 1,
    and it is 1 exactly when the two token sequences are equal. *)
Theorem jaccard_seq_range (seq1 seq2 : list pystr) (q : Q) :
  _jaccard_seq seq1 seq2 = Ret q ->
  (0 <= q <= 1)%Q
  /\ ((q == 1)%Q <-> seq1 = seq2)
  /\ (seq1 = seq2 -> q = 1%Q).
Proof.
  rewrite jaccard_seq_value. destruct (length seq1 + length seq2 =? 0) eqn:E;
    [discriminate|]. apply Nat.eqb_neq in E. intros H. inversion H; subst q; clear H.
  apply seq_score_range. exact E.
Qed.

(** An instance of X2: a b against b c scores 1/3. *)
Lemma jaccard_seq_range_witness :
  (0 <= 1 # 3 <= 1)%Q
  /\ ((1 # 3 == 1)%Q <-> [str "a"; str "b"] = [str "b"; str "c"])
  /\ ([str "a"; str "b"] = [str "b"; str "c"] -> (1 # 3)%Q = 1%Q).
Proof.
  apply (jaccard_seq_range [str "a"; str "b"] [str "b"; str "c"] (1 # 3)%Q).
  vm_compute. reflexivity.
Defined.

(** ** Name matching and the strict similarity *)

Section NameMatching.

Variable lower : pystr -> pystr.

Lemma strip_quotes_quoted (q1 q2 : char) (n : pystr) :
  in_quotes q1 = true -> in_quotes q2 = true ->
  strip_quotes (q1 :: n ++ [q2]) = Ret n.
Proof.
  intros H1 H2. unfold strip_quotes.
  change (q1 :: n ++ [q2]) with ((q1 :: n) ++ [q2]) at 1.
  rewrite last_last, H1, H2. cbn [andb]. rewrite removelast_last. reflexivity.
Qed.

Lemma match_name_true_iff (me : MergedEntity) (pred_name stripped : pystr) :
  strip_quotes pred_name = Ret stripped ->
  match_name lower me pred_name = Ret true
  <-> exists n, In n (names me) /\ lower n = lower stripped.
Proof.
  intros Hs. unfold match_name. rewrite Hs. cbn [bind]. split.
  - intros H. inversion H as [E]. apply existsb_exists in E.
    destruct E as [n [Hn En]]. apply str_eqb_eq in En. exists n. auto.
  - intros [n [Hn En]]. f_equal. apply existsb_exists. exists n.
    split; [exact Hn | apply str_eqb_eq; exact En].
Qed.

(** X3 -- Name matching returns on every non-empty candidate; it answers
    true exactly when the candidate, without one pair of surrounding
    quotation characters, has the lowercase form of a recorded surface name;
    so a recorded name matches when it is written between any two quotation
    characters, and in any spelling with the same lowercase form that is
    not itself between quotation characters. *)
Theorem match_name_case_and_quote_insensitive (me : MergedEntity) :
  (forall pred_name, pred_name <> [] -> exists b, match_name lower me pred_name = Ret b)
  /\ (forall pred_name stripped,
         strip_quotes pred_name = Ret stripped ->
         match_name lower me pred_name = Ret true
         <-> exists n, In n (names me) /\ lower n = lower stripped)
  /\ (forall n q1 q2,
         In n (names me) -> in_quotes q1 = true -> in_quotes q2 = true ->
         match_name lower me (q1 :: n ++ [q2]) = Ret true)
  /\ (forall n s,
         In n (names me) -> lower s = lower n -> strip_quotes s = Ret s ->
         match_name lower me s = Ret true).
Proof.
  split; [|split; [|split]].
  - intros [|c s] H; [congruence | apply match_name_cons].
  - intros pred_name stripped. apply match_name_true_iff.
  - intros n q1 q2 Hn H1 H2.
    apply (match_name_true_iff me _ n (strip_quotes_quoted q1 q2 n H1 H2)).
    exists n. auto.
  - intros n s Hn E Hs. apply (match_name_true_iff me s s Hs). exists n. auto.
Qed.

Lemma float_product (a b c : bool) :
  (float_of_bool a * float_of_bool b * float_of_bool c)%Q
  = float_of_bool (a && b && c).
Proof. destruct a, b, c; reflexivity. Qed.

Lemma strict_sim_value (r : MergedRelation) (p : Relation) (bs bt : bool) :
  match_name lower (mr_source r) (source p) = Ret bs ->
  match_name lower (mr_target r) (target p) = Ret bt ->
  strict_sim lower r p = Ret (float_of_bool (match_type lower r (r_type p) && bs && bt)).
Proof.
  intros Hs Ht. unfold strict_sim, relation_similarity, standard_type_similarity,
    standard_arg_similarity. rewrite Hs, Ht. cbn [bind]. rewrite float_product.
  reflexivity.
Qed.

Lemma strict_sim_inv (r : MergedRelation) (p : Relation) (q : Q) :
  strict_sim lower r p = Ret q ->
  exists bs bt,
    match_name lower (mr_source r) (source p) = Ret bs
    /\ match_name lower (mr_target r) (target p) = Ret bt
    /\ q = float_of_bool (match_type lower r (r_type p) && bs && bt).
Proof.
  intros H.
  destruct (match_name lower (mr_source r) (source p)) as [bs| | |] eqn:Es;
    try (unfold strict_sim, relation_similarity, standard_type_similarity,
           standard_arg_similarity in H; rewrite Es in H; discriminate H).
  destruct (match_name lower (mr_target r) (target p)) as [bt| | |] eqn:Et;
    try (unfold strict_sim, relation_similarity, standard_type_similarity,
           standard_arg_similarity in H; rewrite Es, Et in H; discriminate H).
  rewrite (strict_sim_value r p bs bt Es Et) in H. inversion H.
  exists bs, bt. auto.
Qed.

(** X4 -- The strict relation similarity is all or nothing: when it
    returns, its value is 1 or 0, and it is 1 exactly when the types match
    after normalization and both argument names match; it returns whenever
    the source and the target of the prediction are non-empty. *)
Theorem strict_similarity_is_all_or_nothing (r : MergedRelation) (p : Relation) :
  (forall q, strict_sim lower r p = Ret q -> q = 1%Q \/ q = 0%Q)
  /\ (perfect lower r p
      <-> match_type lower r (r_type p) = true
          /\ match_name lower (mr_source r) (source p) = Ret true
          /\ match_name lower (mr_target r) (target p) = Ret true)
  /\ (source p <> [] -> target p <> [] -> exists q, strict_sim lower r p = Ret q).
Proof.
  split; [|split].
  - intros q H. destruct (strict_sim_inv r p q H) as [bs [bt [_ [_ ->]]]].
    destruct (match_type lower r (r_type p) && bs && bt); auto.
  - split.
    + intros [q [H Hq]]. destruct (strict_sim_inv r p q H) as [bs [bt [Hs [Ht ->]]]].
      destruct (match_type lower r (r_type p)), bs, bt; try discriminate Hq; auto.
    + intros [Hty [Hs Ht]]. exists 1%Q. split; [|reflexivity].
      rewrite (strict_sim_value r p true true Hs Ht), Hty. reflexivity.
  - intros Hs Ht. destruct (source p) as [|c s] eqn:Es; [congruence|].
    destruct (target p) as [|d t] eqn:Et; [congruence|].
    destruct (match_name_cons lower (mr_source r) c s) as [bs Hbs].
    destruct (match_name_cons lower (mr_target r) d t) as [bt Hbt].
    rewrite <- Es in Hbs. rewrite <- Et in Hbt.
    eexists. apply (strict_sim_value r p bs bt Hbs Hbt).
Qed.

End NameMatching.

(** An instance of X3: the name between two apostrophes. *)
Lemma match_name_witness :
  match_name ascii_lower (named "Escherichia coli")
             (39%N :: str "Escherichia coli" ++ [39%N]) = Ret true.
Proof.
  apply (proj1 (proj2 (proj2 (match_name_case_and_quote_insensitive
                                ascii_lower (named "Escherichia coli"))))
               (str "Escherichia coli") 39%N 39%N).
  - left. reflexivity.
  - reflexivity.
  - reflexivity.
Defined.

(** An instance of X4: the strict similarity returns on the first sample
    prediction. *)
Lemma strict_similarity_witness :
  exists q, strict_sim ascii_lower causes_ref (relation_of "Causes" "E. coli" "diarrhea")
            = Ret q.
Proof.
  apply (proj2 (proj2 (strict_similarity_is_all_or_nothing
                         ascii_lower causes_ref
                         (relation_of "Causes" "E. coli" "diarrhea")))).
  - vm_compute. discriminate.
  - vm_compute. discriminate.
Defined.

(** ** The relaxed argument similarity *)

Section RelaxedName.

Variable lower : pystr -> pystr.

Lemma jaccard_name_value (me : MergedEntity) (pred_name stripped : pystr) :
  strip_quotes pred_name = Ret stripped ->
  split (lower stripped) <> [] ->
  jaccard_name lower me pred_name
  = py_max (map (fun n => seq_score (split (lower n)) (split (lower stripped)))
                (names me)).
Proof.
  intros Hs Hne. unfold jaccard_name. rewrite Hs. cbn [bind].
  rewrite (mapM_ret _ (fun n => seq_score (split (lower n)) (split (lower stripped)))).
  - reflexivity.
  - intros n _. rewrite jaccard_seq_value.
    destruct (length (split (lower n)) + length (split (lower stripped)) =? 0) eqn:E;
      [|reflexivity].
    apply Nat.eqb_eq in E. destruct (split (lower stripped)); [congruence|].
    cbn [length] in E. lia.
Qed.

(** X5 -- For a candidate that has at least one token once its quotation
    characters are stripped, the relaxed argument similarity of an entity
    with a surface name returns a value between 0 and 1, and it returns 1
    whenever the strict name matching answers true. *)
Theorem relaxed_similarity_dominates_strict (me : MergedEntity)
  (pred_name stripped : pystr) :
  strip_quotes pred_name = Ret stripped ->
  split (lower stripped) <> [] ->
  (names me <> [] ->
   exists q, relaxed_arg_similarity lower me pred_name = Ret q /\ (0 <= q <= 1)%Q)
  /\ (match_name lower me pred_name = Ret true ->
      relaxed_arg_similarity lower me pred_name = Ret 1%Q).
Proof.
  intros Hs Hne. unfold relaxed_arg_similarity.
  rewrite (jaccard_name_value me pred_name stripped Hs Hne).
  assert (Hlen : forall n, length (split (lower n)) + length (split (lower stripped)) <> 0).
  { intros n. destruct (split (lower stripped)); [congruence | cbn [length]; lia]. }
  split.
  - intros Hnames.
    destruct (py_max_spec
                (map (fun n => seq_score (split (lower n)) (split (lower stripped)))
                     (names me))) as [q [Hq [Hin _]]].
    { destruct (names me); [congruence | discriminate]. }
    exists q. split; [exact Hq|].
    apply in_map_iff in Hin. destruct Hin as [n [<- _]].
    apply seq_score_range, Hlen.
  - intros Hm. apply (match_name_true_iff lower me pred_name stripped Hs) in Hm.
    destruct Hm as [n [Hn En]].
    destruct (py_max_spec
                (map (fun n => seq_score (split (lower n)) (split (lower stripped)))
                     (names me))) as [q [Hq [Hin Hmax]]].
    { destruct (names me); [destruct Hn | discriminate]. }
    rewrite Hq. f_equal.
    assert (H1 : (1 <= q)%Q).
    { apply Hmax. apply in_map_iff. exists n. split; [|exact Hn].
      rewrite En. apply (seq_score_range _ _ (Hlen stripped)). reflexivity. }
    apply in_map_iff in Hin. destruct Hin as [n' [E' _]].
    destruct (seq_score_range _ _ (Hlen n')) as [[_ Hle] [Hone Heq]].
    rewrite <- E'. apply Heq, Hone. rewrite <- E' in H1. apply Qle_antisym; assumption.
Qed.

End RelaxedName.

(** An instance of X5: the candidate in capitals, between quotation marks. *)
Lemma relaxed_similarity_dominates_witness :
  relaxed_arg_similarity ascii_lower (named "Escherichia coli")
                         (39%N :: str "ESCHERICHIA COLI" ++ [39%N]) = Ret 1%Q.
Proof.
  apply (proj2 (relaxed_similarity_dominates_strict
                  ascii_lower (named "Escherichia coli")
                  (39%N :: str "ESCHERICHIA COLI" ++ [39%N]) (str "ESCHERICHIA COLI")
                  eq_refl ltac:(vm_compute; discriminate))).
  vm_compute. reflexivity.
Defined.

(** ** Repair of the text *)

Lemma after_first_fence (p pre rest : pystr) (c0 : char) (p' : pystr) :
  p = c0 :: p' -> (forall c, In c pre -> c <> c0) ->
  after_first p (pre ++ p ++ rest) = Some rest.
Proof.
  intros Hp Hpre. induction pre as [|c pre IH].
  - cbn [app]. assert (S : starts_with p (p ++ rest) = true).
    { clear. induction p as [|a p IH]; [reflexivity|].
      cbn [app starts_with]. rewrite N.eqb_refl. exact IH. }
    destruct (p ++ rest) eqn:E; cbn [after_first]; rewrite S; rewrite <- E;
      rewrite skipn_app, skipn_all, Nat.sub_diag; reflexivity.
  - cbn [app after_first]. subst p. cbn [starts_with].
    assert (N : (c0 =? c)%N = false).
    { apply N.eqb_neq. intros E. apply (Hpre c (or_introl eq_refl)). auto. }
    rewrite N. cbn [andb]. apply IH. intros x Hx. apply Hpre. right. exact Hx.
Qed.

Lemma before_last_none (post : pystr) :
  no_backtick post -> before_last (str "```") post = None.
Proof.
  intros H. induction post as [|c post IH]; [reflexivity|].
  cbn [before_last]. rewrite IH by (intros x Hx; apply H; right; exact Hx).
  assert (N : (96 =? c)%N = false).
  { apply N.eqb_neq. intros E. apply (H c (or_introl eq_refl)). symmetry. exact E. }
  change (str "```") with [96%N; 96%N; 96%N]. cbn [starts_with]. rewrite N. reflexivity.
Qed.

Lemma before_last_fence (post : pystr) :
  no_backtick post -> before_last (str "```") (str "```" ++ post) = Some [].
Proof.
  intros H. pose proof (before_last_none post H) as Hn.
  change (str "```") with [96%N; 96%N; 96%N] in *. cbn [app before_last].
  rewrite Hn. destruct post as [|c post]; [reflexivity|].
  assert (N : (96 =? c)%N = false).
  { apply N.eqb_neq. intros E. apply (H c (or_introl eq_refl)). symmetry. exact E. }
  cbn [starts_with]. rewrite N, !N.eqb_refl. reflexivity.
Qed.

Lemma before_last_app (p body x t : pystr) :
  before_last p x = Some t -> before_last p (body ++ x) = Some (body ++ t).
Proof.
  intros H. induction body as [|c body IH]; [exact H|].
  cbn [app before_last]. rewrite IH. reflexivity.
Qed.

(** X6 -- When the text before the opening fence and the text after the
    closing fence hold no backtick, [remove_codeblock] returns exactly what
    stands between the two fences, whatever that is; and a text without any
    backtick is returned unchanged. *)
Theorem remove_codeblock_extracts (pre body post : pystr) :
  no_backtick pre -> no_backtick post ->
  remove_codeblock (pre ++ str "```json" ++ body ++ str "```" ++ post) = body
  /\ remove_codeblock pre = pre.
Proof.
  intros Hpre Hpost. split.
  - unfold remove_codeblock.
    rewrite (after_first_fence (str "```json") pre (body ++ str "```" ++ post)
               96%N (str "``json") eq_refl Hpre).
    rewrite (before_last_app _ body _ [] (before_last_fence post Hpost)).
    rewrite app_nil_r. reflexivity.
  - unfold remove_codeblock.
    replace (after_first (str "```json") pre) with (@None pystr); [reflexivity|].
    symmetry. clear Hpost. induction pre as [|c pre IH]; [reflexivity|].
    cbn [after_first].
    change (str "```json") with (96%N :: str "``json") at 1. cbn [starts_with].
    replace (96 =? c)%N with false.
    + cbn [andb]. apply IH. intros x Hx. apply Hpre. right. exact Hx.
    + symmetry. apply N.eqb_neq. intros E. apply (Hpre c (or_introl eq_refl)).
      symmetry. exact E.
Qed.

(** An instance of X6: an answer of a model around its fenced JSON. *)
Lemma remove_codeblock_witness :
  remove_codeblock (str "Here it is: " ++ str "```json" ++ str "{}" ++ str "```"
                    ++ str " Done.") = str "{}"
  /\ remove_codeblock (str "Here it is: ") = str "Here it is: ".
Proof.
  apply (remove_codeblock_extracts (str "Here it is: ") (str "{}") (str " Done.")).
  - intros c Hc. vm_compute in Hc.
    repeat (destruct Hc as [<- | Hc]; [discriminate|]). destruct Hc.
  - intros c Hc. vm_compute in Hc.
    repeat (destruct Hc as [<- | Hc]; [discriminate|]). destruct Hc.
Defined.

Lemma space_not_comma (y : char) : is_space y = true -> (y =? 44)%N = false.
Proof.
  intros H. apply N.eqb_neq. intros ->. discriminate H.
Qed.

Lemma lstrip_spaces (w s : pystr) :
  (forall y, In y w -> is_space y = true) -> lstrip (w ++ s) = lstrip s.
Proof.
  intros H. induction w as [|y w IH]; [reflexivity|].
  cbn [app lstrip]. rewrite (H y (or_introl eq_refl)).
  apply IH. intros z Hz. apply H. right. exact Hz.
Qed.

Lemma lstrip_snoc (a b : pystr) (x : char) :
  is_space x = false ->
  exists h t, lstrip (a ++ [x]) = h :: t /\ lstrip ((a ++ [x]) ++ b) = h :: t ++ b.
Proof.
  intros Hx. induction a as [|y a IH].
  - exists x, []. cbn [app lstrip]. rewrite Hx. auto.
  - cbn [app lstrip]. destruct (is_space y); [exact IH|].
    exists y, (a ++ [x]). auto.
Qed.

Lemma closes_bracket_snoc (a b : pystr) (x : char) :
  is_space x = false -> closes_bracket ((a ++ [x]) ++ b) = closes_bracket (a ++ [x]).
Proof.
  intros Hx. unfold closes_bracket.
  destruct (lstrip_snoc a b x Hx) as [h [t [-> ->]]]. reflexivity.
Qed.

Lemma remove_last_comma_app (a b : pystr) (x : char) :
  is_space x = false -> x <> comma ->
  remove_last_comma ((a ++ [x]) ++ b)
  = remove_last_comma (a ++ [x]) ++ remove_last_comma b.
Proof.
  intros Hs Hc. induction a as [|y a IH].
  - cbn [app remove_last_comma].
    replace (x =? 44)%N with false by (symmetry; apply N.eqb_neq; exact Hc).
    reflexivity.
  - change ((y :: a) ++ [x]) with (y :: (a ++ [x])). cbn [app remove_last_comma].
    rewrite (closes_bracket_snoc a b x Hs).
    destruct ((y =? 44)%N && closes_bracket (a ++ [x])); rewrite IH; reflexivity.
Qed.

Lemma remove_last_comma_spaces (w s : pystr) :
  (forall y, In y w -> is_space y = true) ->
  remove_last_comma (w ++ s) = w ++ remove_last_comma s.
Proof.
  intros H. induction w as [|y w IH]; [reflexivity|].
  cbn [app remove_last_comma].
  rewrite (space_not_comma y (H y (or_introl eq_refl))). cbn [andb].
  rewrite IH by (intros z Hz; apply H; right; exact Hz). reflexivity.
Qed.

(** X7 -- [remove_last_comma] deletes commas and nothing else: the other
    characters come out unchanged and in order. A comma that follows a
    character other than white space and comma and is followed, after
    optional white space, by a closing brace or bracket is deleted, and the
    text on both sides of it is treated independently. *)
Theorem remove_last_comma_deletes_trailing_commas :
  (forall s,
      filter (fun c => negb (c =? 44)%N) (remove_last_comma s)
      = filter (fun c => negb (c =? 44)%N) s)
  /\ (forall a x w c rest,
         is_space x = false -> x <> comma ->
         (forall y, In y w -> is_space y = true) ->
         is_closer c = true ->
         remove_last_comma ((a ++ [x]) ++ [comma] ++ w ++ c :: rest)
         = remove_last_comma (a ++ [x]) ++ w ++ c :: remove_last_comma rest).
Proof.
  split.
  - induction s as [|c s IH]; [reflexivity|]. cbn [remove_last_comma].
    destruct ((c =? 44)%N) eqn:E; cbn [andb].
    + destruct (closes_bracket s); cbn [filter]; rewrite ?E; cbn [negb]; exact IH.
    + cbn [filter]. rewrite E. cbn [negb]. rewrite IH. reflexivity.
  - intros a x w c rest Hx Hc Hw Hcl.
    rewrite (remove_last_comma_app a _ x Hx Hc). f_equal.
    assert (Hnc : (c =? 44)%N = false).
    { apply N.eqb_neq. intros ->. discriminate Hcl. }
    assert (Hns : is_space c = false).
    { unfold is_closer in Hcl. apply orb_true_iff in Hcl.
      destruct Hcl as [E | E]; apply N.eqb_eq in E; subst c; reflexivity. }
    unfold comma. cbn [app remove_last_comma]. cbn [N.eqb Pos.eqb andb].
    replace (closes_bracket (w ++ c :: rest)) with true.
    + rewrite (remove_last_comma_spaces w _ Hw). cbn [remove_last_comma].
      rewrite Hnc. reflexivity.
    + symmetry. unfold closes_bracket. rewrite (lstrip_spaces w _ Hw).
      cbn [lstrip]. rewrite Hns. exact Hcl.
Qed.

(** An instance of X7: the comma after the last item of a list. *)
Lemma remove_last_comma_witness :
  remove_last_comma ((str "[1, " ++ [50%N]) ++ [comma] ++ str " " ++ 93%N :: [])
  = remove_last_comma (str "[1, " ++ [50%N]) ++ str " " ++ 93%N :: remove_last_comma [].
Proof.
  apply (proj2 remove_last_comma_deletes_trailing_commas (str "[1, ") 50%N (str " ") 93%N []).
  - reflexivity.
  - discriminate.
  - intros y [<- | []]. reflexivity.
  - reflexivity.
Defined.

(** ** Chunked predictions *)

Lemma squash_chunks_union (l : list json) :
  forall (es rs : list (list json)) (ents rels : list json),
    Forall2 (fun elt e => get_items elt (str "entities") = Ret e) l es ->
    Forall2 (fun elt r => get_items elt (str "relationships") = Ret r) l rs ->
    squash_chunks l ents rels = Ret (squashed (ents ++ concat es) (rels ++ concat rs)).
Proof.
  induction l as [|elt l IH]; intros es rs ents rels He Hr;
    inversion He; inversion Hr; subst; cbn [squash_chunks concat].
  - rewrite !app_nil_r. reflexivity.
  - match goal with H : get_items elt (str "entities") = _ |- _ => rewrite H end.
    match goal with H : get_items elt (str "relationships") = _ |- _ => rewrite H end.
    cbn [bind]. rewrite (IH _ _ _ _ ltac:(eassumption) ltac:(eassumption)).
    rewrite <- !app_assoc. reflexivity.
Qed.

Lemma squash_chunks_bad (l : list json) (elt : json) (post : list json) :
  not_object elt ->
  forall (es rs : list (list json)) (ents rels : list json),
    Forall2 (fun elt e => get_items elt (str "entities") = Ret e) l es ->
    Forall2 (fun elt r => get_items elt (str "relationships") = Ret r) l rs ->
    squash_chunks (l ++ elt :: post) ents rels = Raise AttributeError.
Proof.
  intros Hbad. induction l as [|x l IH]; intros es rs ents rels He Hr;
    inversion He; inversion Hr; subst; cbn [app squash_chunks].
  - destruct elt; try reflexivity. destruct Hbad.
  - match goal with H : get_items x (str "entities") = _ |- _ => rewrite H end.
    match goal with H : get_items x (str "relationships") = _ |- _ => rewrite H end.
    cbn [bind]. eapply IH; eassumption.
Qed.

(** X8 -- On a list of chunks [squash_list] returns one chunk whose
    entities are the entities of all chunks, in order, and likewise for the
    relationships, a missing list counting as empty and nothing else of a
    chunk being kept; when the first chunk that cannot be read this way is
    not an object, it raises AttributeError. *)
Theorem squash_list_unions_chunks (l : list json) (es rs : list (list json)) :
  Forall2 (fun elt e => get_items elt (str "entities") = Ret e) l es ->
  Forall2 (fun elt r => get_items elt (str "relationships") = Ret r) l rs ->
  squash_list (JArr l) = Ret (squashed (concat es) (concat rs))
  /\ forall elt post, not_object elt ->
       squash_list (JArr (l ++ elt :: post)) = Raise AttributeError.
Proof.
  intros He Hr. split.
  - cbn [squash_list]. apply (squash_chunks_union l es rs [] [] He Hr).
  - intros elt post Hbad. cbn [squash_list].
    apply (squash_chunks_bad l elt post Hbad es rs [] [] He Hr).
Qed.

(** An instance of X8: two chunks, the second without relationships. *)
Lemma squash_list_witness :
  squash_list
    (JArr [JObj [(str "entities", JArr [JStr (str "a")]);
                 (str "relationships", JArr [JStr (str "r")]);
                 (str "equivalences", JArr [])];
           JObj [(str "entities", JArr [JStr (str "b")])]])
  = Ret (squashed (concat [[JStr (str "a")]; [JStr (str "b")]])
                  (concat [[JStr (str "r")]; []])).
Proof.
  destruct (squash_list_unions_chunks
              [JObj [(str "entities", JArr [JStr (str "a")]);
                     (str "relationships", JArr [JStr (str "r")]);
                     (str "equivalences", JArr [])];
               JObj [(str "entities", JArr [JStr (str "b")])]]
              [[JStr (str "a")]; [JStr (str "b")]]
              [[JStr (str "r")]; []]) as [H _].
  - constructor; [vm_compute; reflexivity|].
    constructor; [vm_compute; reflexivity|]. constructor.
  - constructor; [vm_compute; reflexivity|].
    constructor; [vm_compute; reflexivity|]. constructor.
  - exact H.
Defined.

(** ** Construction of the records *)








(** ** Errors of the construction *)

Lemma only_raises_bind {A B : Type} (E : exn -> Prop) (c : outcome A) (k : A -> outcome B) :
  only_raises E c -> (forall a, only_raises E (k a)) -> only_raises E (bind c k).
Proof. intros Hc Hk. destruct c; cbn in *; auto. Qed.

Lemma only_raises_mapM {A B : Type} (E : exn -> Prop) (f : A -> outcome B) (l : list A) :
  (forall a, only_raises E (f a)) -> only_raises E (mapM f l).
Proof.
  intros Hf. induction l as [|a l IH]; cbn [mapM]; [exact I|].
  apply only_raises_bind; [apply Hf|]. intros b.
  apply only_raises_bind; [exact IH|]. intros bs. exact I.
Qed.

Lemma shape_subscript (args : list (pystr * json)) (k : pystr) :
  only_raises shape_error (subscript args k).
Proof. unfold subscript. destruct (dict_get k args); cbn; unfold shape_error; auto. Qed.

Lemma shape_as_str (j : json) : only_raises shape_error (as_str j).
Proof. destruct j; exact I. Qed.

Lemma shape_iter_json (j : json) : only_raises shape_error (iter_json j).
Proof. destruct j; cbn; unfold shape_error; auto. Qed.

Lemma shape_kwargs (j : json) : only_raises shape_error (kwargs j).
Proof. destruct j; cbn; unfold shape_error; auto. Qed.

Lemma shape_Entity_init (ent : json) : only_raises shape_error (Entity_init ent).
Proof.
  unfold Entity_init.
  apply only_raises_bind; [apply shape_kwargs|]. intros args.
  apply only_raises_bind; [apply shape_subscript|]. intros ty.
  apply only_raises_bind; [apply shape_subscript|]. intros nm.
  destruct (find_norm args); [|cbn; unfold shape_error; auto].
  apply only_raises_bind; [apply shape_subscript|]. intros nv.
  apply only_raises_bind; [destruct (dict_get (str "id") args) as [[]|]; exact I|].
  intros i. repeat (apply only_raises_bind; [apply shape_as_str|]; intros ?). exact I.
Qed.

Lemma shape_Relation_init (rel : json) : only_raises shape_error (Relation_init rel).
Proof.
  unfold Relation_init.
  apply only_raises_bind; [apply shape_kwargs|]. intros args.
  apply only_raises_bind; [apply shape_subscript|]. intros ty.
  apply only_raises_bind.
  - destruct (dict_get (str "arguments") args) as [[]|];
      try (cbn; unfold shape_error; auto; fail).
    + repeat (apply only_raises_bind; [apply shape_subscript|]; intros ?). exact I.
    + apply only_raises_bind; [apply shape_subscript|]. intros s.
      apply only_raises_bind; [|intros; exact I].
      destruct (dict_get (str "target") args) as [v|]; [destruct (truthy v)|];
        try exact I; apply shape_subscript.
  - intros st. repeat (apply only_raises_bind; [apply shape_as_str|]; intros ?). exact I.
Qed.

Lemma shape_get_items (elt : json) (k : pystr) : only_raises shape_error (get_items elt k).
Proof.
  destruct elt; try (cbn; unfold shape_error; auto; fail). cbn [get_items].
  destruct (dict_get k kv); [apply shape_iter_json | exact I].
Qed.

Lemma shape_squash_list (j : json) : only_raises shape_error (squash_list j).
Proof.
  destruct j; try exact I. cbn [squash_list].
  generalize (@nil json) at 1. generalize (@nil json).
  induction l as [|elt l IH]; intros rels ents; cbn [squash_chunks]; [exact I|].
  apply only_raises_bind; [apply shape_get_items|]. intros e.
  apply only_raises_bind; [apply shape_get_items|]. intros r. apply IH.
Qed.

Lemma shape_id_set (eq : json) : only_raises shape_error (id_set eq).
Proof.
  unfold id_set. apply only_raises_bind; [apply shape_iter_json|]. intros items.
  apply only_raises_bind; [|intros; exact I]. apply only_raises_mapM.
  intros x. destruct x; cbn; unfold shape_error; auto.
Qed.

Lemma io_only_raises_bind {A B : Type} (E : exn -> Prop) (c : io A) (k : A -> io B) :
  io_only_raises E c -> (forall a, io_only_raises E (k a)) ->
  io_only_raises E (io_bind c k).
Proof.
  unfold io_only_raises, io_bind. intros Hc Hk t. specialize (Hc t).
  destruct (c t) as [[a|e|z|] t']; cbn [fst] in *; auto; apply Hk.
Qed.

Lemma io_only_raises_lift {A : Type} (E : exn -> Prop) (c : outcome A) :
  only_raises E c -> io_only_raises E (lift c).
Proof. intros H t. exact H. Qed.

Lemma shape_dataset_of_json (j : json) : io_only_raises shape_error (dataset_of_json j).
Proof.
  unfold dataset_of_json.
  apply io_only_raises_bind; [apply io_only_raises_lift, shape_squash_list|]. intros j'.
  apply io_only_raises_bind.
  { apply io_only_raises_lift. destruct j'; cbn; unfold shape_error; auto. }
  intros kv. apply io_only_raises_bind.
  { apply io_only_raises_lift. apply only_raises_bind; [apply shape_subscript|]. intros e.
    apply only_raises_bind; [apply shape_iter_json|]. intros items.
    apply only_raises_mapM, shape_Entity_init. }
  intros ents. apply io_only_raises_bind.
  { apply io_only_raises_lift. apply only_raises_bind; [apply shape_subscript|]. intros e.
    apply only_raises_bind; [apply shape_iter_json|]. intros items.
    apply only_raises_mapM, shape_Relation_init. }
  intros rels. apply io_only_raises_bind.
  { apply io_only_raises_lift. destruct (dict_get (str "equivalences") _); [|exact I].
    apply only_raises_bind; [apply shape_iter_json|]. intros items.
    apply only_raises_mapM, shape_id_set. }
  intros eqs. apply io_only_raises_bind; [|intros _ t; exact I].
  destruct rels; intros t; exact I.
Qed.

Lemma dict_get_snoc {V : Type} (k k' : pystr) (v : V) (d : list (pystr * V)) :
  dict_get k (d ++ [(k', v)]) = if str_eqb k k' then Some v else dict_get k d.
Proof.
  induction d as [|[k0 v0] d IH]; cbn [app dict_get].
  - destruct (str_eqb k k'); reflexivity.
  - rewrite IH. destruct (str_eqb k k'); [reflexivity|].
    destruct (dict_get k d); reflexivity.
Qed.

(** X11 -- What follows [json.loads] in [Dataset.from_json_file] raises
    AttributeError on a decoded value that is neither an object nor a list,
    and KeyError on an object without ['entities'], in both cases before
    anything is logged; when ['relationships'] is missing or holds a false
    value, a Dataset that is returned has no relation and the warning about
    empty relations is the one line logged. *)
Theorem dataset_of_json_errors (t : list event) :
  (forall j, not_object j -> (forall l, j <> JArr l) ->
             dataset_of_json j t = (Raise AttributeError, t))
  /\ (forall kv, dict_get (str "entities") kv = None ->
                 dataset_of_json (JObj kv) t = (Raise KeyError, t))
  /\ (forall kv ds t',
         dict_get (str "relationships") kv = None
         \/ (exists v, dict_get (str "relationships") kv = Some v /\ truthy v = false) ->
         dataset_of_json (JObj kv) t = (Ret ds, t') ->
         relations ds = [] /\ t' = t ++ [Log (str "WARNING: empty relations")]).
Proof.
  split; [|split].
  - intros j Hj Hl. destruct j; try reflexivity.
    + exfalso. apply (Hl l). reflexivity.
    + destruct Hj.
  - intros kv H. unfold dataset_of_json, io_bind, lift. cbn [squash_list].
    assert (E : forall kv', kv' = kv \/ kv' = kv ++ [(str "relationships", JArr [])] ->
                            subscript kv' (str "entities") = Raise KeyError).
    { intros kv' [-> | ->]; unfold subscript; [rewrite H; reflexivity|].
      rewrite dict_get_snoc.
      change (str_eqb (str "entities") (str "relationships")) with false.
      rewrite H. reflexivity. }
    destruct (dict_get (str "relationships") kv) as [v|]; [destruct (truthy v)|];
      rewrite E by auto; reflexivity.
  - intros kv ds t' Hrel H. unfold dataset_of_json, io_bind, lift in H.
    cbn [squash_list] in H.
    replace (match dict_get (str "relationships") kv with
             | Some v => if truthy v then kv else kv ++ [(str "relationships", JArr [])]
             | None => kv ++ [(str "relationships", JArr [])]
             end) with (kv ++ [(str "relationships", JArr [])]) in H.
    2: { destruct Hrel as [-> | [v [-> ->]]]; reflexivity. }
    destruct (e <- subscript _ (str "entities");; items <- iter_json e;;
              mapM Entity_init items) as [ents| | |]; try discriminate H.
    unfold subscript at 1 in H. rewrite dict_get_snoc in H.
    change (str_eqb (str "relationships") (str "relationships")) with true in H.
    cbn [bind iter_json mapM] in H.
    destruct (match dict_get (str "equivalences") _ with
              | Some e => _ | None => _ end) as [eqs| | |]; try discriminate H.
    cbn in H. inversion H. split; reflexivity.
Qed.

(** An instance of X11: an object with entities and a null relationships. *)
Lemma dataset_of_json_witness :
  relations (mkDataset [] [] []) = []
  /\ [Log (str "WARNING: empty relations")] = [] ++ [Log (str "WARNING: empty relations")].
Proof.
  apply (proj2 (proj2 (dataset_of_json_errors []))
               [(str "entities", JArr []); (str "relationships", JNull)]
               (mkDataset [] [] []) [Log (str "WARNING: empty relations")]).
  - right. exists JNull. split; reflexivity.
  - reflexivity.
Defined.

Section Loading.

Variable json_loads : pystr -> option json.
Variable fs : pystr -> option pystr.

(** X12 -- [Dataset.from_json_file] leaves the process, with status 1 and
    after logging that the file was not found, exactly when the file is
    missing; on a file that exists it returns a Dataset or raises KeyError,
    TypeError or AttributeError, and nothing else. *)
Theorem from_json_file_exits_iff_missing (filename : pystr) (t : list event) :
  (forall z t',
      from_json_file json_loads fs filename t = (Exit z, t')
      <-> fs filename = None /\ z = 1%Z
          /\ t' = t ++ [Log (str "reading " ++ filename);
                        Log (str "ERROR: file not found")])
  /\ (fs filename <> None ->
      only_raises shape_error (fst (from_json_file json_loads fs filename t))).
Proof.
  assert (P : fs filename <> None ->
              only_raises shape_error (fst (from_json_file json_loads fs filename t))).
  { intros Hfs. unfold from_json_file, io_bind, log.
    destruct (fs filename) as [content|]; [|congruence].
    destruct (json_loads _) as [j|]; [apply shape_dataset_of_json | exact I]. }
  split; [|exact P].
  intros z t'. split.
  - intros H. destruct (fs filename) as [content|] eqn:Efs.
    + exfalso. assert (Q := P ltac:(discriminate)). rewrite H in Q. exact Q.
    + rewrite (from_json_file_missing json_loads fs filename t Efs) in H.
      inversion H. auto.
  - intros [Hfs [-> ->]]. apply from_json_file_missing. exact Hfs.
Qed.

End Loading.

(** An instance of X12: the predicted file exists and holds an object
    without entities. *)
Lemma from_json_file_witness :
  only_raises shape_error
    (fst (from_json_file json_loads_lite (files None (Some (str "{}"))) pred_file [])).
Proof.
  apply (proj2 (from_json_file_exits_iff_missing json_loads_lite
                  (files None (Some (str "{}"))) pred_file [])).
  vm_compute. discriminate.
Defined.

(** ** More on the canonicalization of entities *)

Lemma keys_indexed_step (eqs : list (list pystr)) (st : merge_state) (e : Entity) :
  keys_indexed st -> keys_indexed (merge_step eqs st e).
Proof.
  intros H. unfold merge_step.
  destruct (assoc key_eqb (key e) (ent_map st)) as [j|] eqn:Ek;
    [|destruct (eqid_get (id_ e) (eqid_map st)) as [j|]];
    intros i c Hc; cbn [clusters ent_map] in *.
  1, 2: rewrite nth_error_update_at in Hc; destruct (i =? j);
    [destruct (nth_error (clusters st) i) as [c0|] eqn:E0; [|discriminate Hc];
     cbn in Hc; inversion Hc; subst c; apply (H i c0 E0)
    | apply (H i c Hc)].
  apply nth_error_snoc in Hc. cbn [assoc]. destruct Hc as [Hc | [-> ->]].
  - specialize (H i c Hc). destruct (key_eqb (me_key c) (key e)) eqn:E; [|exact H].
    apply key_eqb_eq in E. rewrite E in H. congruence.
  - cbn [MergedEntity_init me_key].
    replace (key_eqb (key e) (key e)) with true; [reflexivity|].
    symmetry. apply key_eqb_eq. reflexivity.
Qed.

Lemma keys_indexed_run (eqs : list (list pystr)) (ents : list Entity) :
  forall st, keys_indexed st -> keys_indexed (merge_run eqs st ents).
Proof.
  unfold merge_run. induction ents as [|e ents IH]; intros st H; cbn [fold_left];
    [exact H|]. apply IH, keys_indexed_step, H.
Qed.

(** X13 -- No two merged entities have the same identity key, whatever the
    dataset and its equivalence sets. *)
Theorem merged_entities_have_distinct_keys (ds : Dataset) :
  NoDup (map me_key (_merge_ref_entities ds))
  /\ forall i j c c',
       nth_error (_merge_ref_entities ds) i = Some c ->
       nth_error (_merge_ref_entities ds) j = Some c' ->
       me_key c = me_key c' -> i = j.
Proof.
  assert (K : keys_indexed (merge_run (equivalences ds) (mkState [] [] []) (entities ds))).
  { apply keys_indexed_run. intros i c H. destruct i; discriminate H. }
  assert (J : forall i j c c',
             nth_error (_merge_ref_entities ds) i = Some c ->
             nth_error (_merge_ref_entities ds) j = Some c' ->
             me_key c = me_key c' -> i = j).
  { intros i j c c' Hi Hj E. unfold _merge_ref_entities in *.
    pose proof (K i c Hi) as A. pose proof (K j c' Hj) as B. rewrite E in A. congruence. }
  split; [|exact J].
  apply NoDup_nth_error. intros i j Hi E.
  rewrite length_map in Hi. rewrite !nth_error_map in E.
  destruct (nth_error (_merge_ref_entities ds) i) as [c|] eqn:Ei.
  - destruct (nth_error (_merge_ref_entities ds) j) as [c'|] eqn:Ej; [|discriminate E].
    cbn in E. inversion E. apply (J i j c c' Ei Ej). assumption.
  - apply nth_error_None in Ei. lia.
Qed.

Lemma covers_step (eqs : list (list pystr)) (done : list Entity) (e : Entity)
  (st : merge_state) :
  refs_valid st ->
  covers done (clusters st) ->
  covers (done ++ [e]) (clusters (merge_step eqs st e)).
Proof.
  intros Hv [C1 [C2 C3]].
  assert (Hold : forall e', In e' done ->
                   exists i c, nth_error (clusters (merge_step eqs st e)) i = Some c
                               /\ In (id_ e') (ids c) /\ In (name e') (names c)).
  { intros e' He'. destruct (C1 e' He') as [i [c [Hc [Hi Hn]]]].
    destruct (cluster_grows_step eqs st e i c Hc) as [c' [Hc' [_ [Gi Gn]]]].
    exists i, c'. split; [exact Hc'|]. split; [apply Gi | apply Gn]; assumption. }
  assert (Hwiden : forall i c, nth_error (clusters st) i = Some c ->
                     ids c <> []
                     /\ (forall x, In x (ids c) -> In x (map id_ (done ++ [e])))
                     /\ (forall n, In n (names c) -> In n (map name (done ++ [e])))).
  { intros i c Hc. destruct (C2 i c Hc) as [A [B D]]. split; [exact A|].
    split; intros x Hx; rewrite map_app, in_app_iff; left; [apply B | apply D]; exact Hx. }
  destruct (merge_step_kind eqs st e Hv) as [i c Hc Hcl _ _ _ | _ _ Hcl _]; rewrite Hcl in *.
  - split; [|split].
    + intros e' He'. apply in_app_iff in He'. destruct He' as [He' | [<- | []]];
        [apply Hold; exact He'|].
      exists i, (add c e). rewrite nth_error_update_at, Nat.eqb_refl, Hc.
      split; [reflexivity|]. split; [apply in_ids_add | apply in_names_add]; auto.
    + intros j c' Hj. rewrite nth_error_update_at in Hj. destruct (j =? i) eqn:E.
      * apply Nat.eqb_eq in E. subst j. rewrite Hc in Hj. cbn in Hj.
        inversion Hj; subst c'. destruct (Hwiden i c Hc) as [A [B D]].
        split; [|split].
        -- intros C. assert (F : In (id_ e) (ids (add c e))) by (apply in_ids_add; auto).
           rewrite C in F. destruct F.
        -- intros x Hx. apply in_ids_add in Hx. destruct Hx as [-> | Hx]; [|apply B; exact Hx].
           rewrite map_app, in_app_iff. right. left. reflexivity.
        -- intros n Hn. apply in_names_add in Hn.
           destruct Hn as [-> | Hn]; [|apply D; exact Hn].
           rewrite map_app, in_app_iff. right. left. reflexivity.
      * apply (Hwiden j c' Hj).
    + rewrite length_update_at, length_app. cbn [length]. lia.
  - split; [|split].
    + intros e' He'. apply in_app_iff in He'. destruct He' as [He' | [<- | []]];
        [apply Hold; exact He'|].
      exists (length (clusters st)), (MergedEntity_init e).
      split; [apply nth_error_snoc; auto|]. split; left; reflexivity.
    + intros j c' Hj. apply nth_error_snoc in Hj. destruct Hj as [Hj | [-> ->]];
        [apply (Hwiden j c' Hj)|].
      cbn [MergedEntity_init ids names]. split; [discriminate|].
      split; intros x [<- | []]; rewrite map_app, in_app_iff; right; left; reflexivity.
    + rewrite !length_app. cbn [length]. lia.
Qed.

Lemma covers_run (eqs : list (list pystr)) (rest : list Entity) :
  forall (done : list Entity) (st : merge_state),
    refs_valid st ->
    covers done (clusters st) ->
    covers (done ++ rest) (clusters (merge_run eqs st rest)).
Proof.
  unfold merge_run. induction rest as [|e rest IH]; intros done st Hv Hc; cbn [fold_left].
  - rewrite app_nil_r. exact Hc.
  - replace (done ++ e :: rest) with ((done ++ [e]) ++ rest)
      by (rewrite <- app_assoc; reflexivity).
    apply IH; [apply refs_valid_step; exact Hv | apply covers_step; assumption].
Qed.

Lemma covers_merged (ds : Dataset) : covers (entities ds) (_merge_ref_entities ds).
Proof.
  unfold _merge_ref_entities.
  apply (covers_run (equivalences ds) (entities ds) [] (mkState [] [] []) refs_valid_init).
  split; [intros e []|]. split; [|cbn; lia]. intros i c H. destruct i; discriminate H.
Qed.

(** X14 -- Whatever the dataset, canonicalization loses nothing and
    invents nothing: the id and the name of every raw entity are in one
    merged entity together, every id and every name of a merged entity come
    from a raw entity, no merged entity is empty, and there are at most as
    many merged entities as raw ones. *)
Theorem merged_entities_cover (ds : Dataset) :
  (forall e, In e (entities ds) ->
     exists c, In c (_merge_ref_entities ds)
               /\ In (id_ e) (ids c) /\ In (name e) (names c))
  /\ (forall c, In c (_merge_ref_entities ds) ->
        ids c <> []
        /\ (forall x, In x (ids c) -> exists e, In e (entities ds) /\ id_ e = x)
        /\ (forall n, In n (names c) -> exists e, In e (entities ds) /\ name e = n))
  /\ length (_merge_ref_entities ds) <= length (entities ds).
Proof.
  destruct (covers_merged ds) as [C1 [C2 C3]]. split; [|split; [|exact C3]].
  - intros e He. destruct (C1 e He) as [i [c [Hc H]]].
    exists c. split; [eapply nth_error_In; exact Hc | exact H].
  - intros c Hc. apply In_nth_error in Hc. destruct Hc as [i Hc].
    destruct (C2 i c Hc) as [A [B D]]. split; [exact A|]. split.
    + intros x Hx. apply B, in_map_iff in Hx. destruct Hx as [e [E He]]. eauto.
    + intros n Hn. apply D, in_map_iff in Hn. destruct Hn as [e [E He]]. eauto.
Qed.

(** An instance of X14 on the three sample entities. *)
Lemma merged_entities_cover_witness :
  exists c, In c (_merge_ref_entities three_entities)
            /\ In (id_ microbe_again) (ids c) /\ In (name microbe_again) (names c).
Proof.
  apply (proj1 (merged_entities_cover three_entities)).
  right. right. left. reflexivity.
Defined.

Lemma register_nil (me : nat) (id : option pystr) (m : list (pystr * nat)) :
  register me id [] m = m.
Proof. reflexivity. Qed.

Lemma by_key_step (done : list Entity) (e : Entity) (st : merge_state) :
  eqid_map st = [] -> keys_sound st ->
  (forall e', In e' done ->
     exists i c, nth_error (clusters st) i = Some c /\ me_key c = key e'
                 /\ In (id_ e') (ids c) /\ In (name e') (names c)) ->
  eqid_map (merge_step [] st e) = []
  /\ keys_sound (merge_step [] st e)
  /\ (forall e', In e' (done ++ [e]) ->
        exists i c, nth_error (clusters (merge_step [] st e)) i = Some c
                    /\ me_key c = key e'
                    /\ In (id_ e') (ids c) /\ In (name e') (names c)).
Proof.
  intros Hq Hs Hd.
  assert (Hold : forall e', In e' done ->
                   exists i c, nth_error (clusters (merge_step [] st e)) i = Some c
                               /\ me_key c = key e'
                               /\ In (id_ e') (ids c) /\ In (name e') (names c)).
  { intros e' He'. destruct (Hd e' He') as [i [c [Hc [Hk [Hi Hn]]]]].
    destruct (cluster_grows_step [] st e i c Hc) as [c' [Hc' [[K _] [Gi Gn]]]].
    exists i, c'. split; [exact Hc'|]. split; [congruence|].
    split; [apply Gi | apply Gn]; assumption. }
  assert (Hsound : forall k i, assoc key_eqb k (ent_map st) = Some i ->
                     exists c, nth_error (clusters (merge_step [] st e)) i = Some c
                               /\ me_key c = k).
  { intros k i Hk. destruct (Hs k i Hk) as [c [Hc Kc]].
    destruct (cluster_grows_step [] st e i c Hc) as [c' [Hc' [[K _] _]]].
    exists c'. split; [exact Hc' | congruence]. }
  unfold merge_step in *. rewrite Hq in *.
  assert (Hnone : eqid_get (id_ e) [] = None) by (destruct (id_ e); reflexivity).
  rewrite Hnone in *.
  destruct (assoc key_eqb (key e) (ent_map st)) as [j|] eqn:Ek;
    cbn [clusters ent_map eqid_map] in *.
  - split; [reflexivity|]. split; [exact Hsound|].
    intros e' He'. apply in_app_iff in He'. destruct He' as [He' | [<- | []]];
      [apply Hold; exact He'|].
    destruct (Hs _ _ Ek) as [c [Hc Kc]].
    exists j, (add c e). rewrite nth_error_update_at, Nat.eqb_refl, Hc.
    split; [reflexivity|]. split; [exact Kc|].
    split; [apply in_ids_add | apply in_names_add]; auto.
  - split; [reflexivity|]. split.
    + intros k i Hk. cbn [ent_map assoc] in Hk. cbn [clusters].
      destruct (key_eqb k (key e)) eqn:E.
      * injection Hk as Hi. subst i. apply key_eqb_eq in E. subst k.
        exists (MergedEntity_init e). split; [apply nth_error_snoc; auto | reflexivity].
      * apply Hsound. exact Hk.
    + intros e' He'. apply in_app_iff in He'. destruct He' as [He' | [<- | []]];
        [apply Hold; exact He'|].
      exists (length (clusters st)), (MergedEntity_init e).
      split; [apply nth_error_snoc; auto|]. split; [reflexivity|].
      split; left; reflexivity.
Qed.

Lemma by_key_run (rest : list Entity) :
  forall (done : list Entity) (st : merge_state),
    eqid_map st = [] -> keys_sound st ->
    (forall e', In e' done ->
       exists i c, nth_error (clusters st) i = Some c /\ me_key c = key e'
                   /\ In (id_ e') (ids c) /\ In (name e') (names c)) ->
    forall e', In e' (done ++ rest) ->
      exists i c, nth_error (clusters (merge_run [] st rest)) i = Some c
                  /\ me_key c = key e'
                  /\ In (id_ e') (ids c) /\ In (name e') (names c).
Proof.
  unfold merge_run. induction rest as [|e rest IH]; intros done st Hq Hs Hd;
    cbn [fold_left].
  - rewrite app_nil_r. exact Hd.
  - replace (done ++ e :: rest) with ((done ++ [e]) ++ rest)
      by (rewrite <- app_assoc; reflexivity).
    destruct (by_key_step done e st Hq Hs Hd) as [A [B C]].
    apply IH; assumption.
Qed.

(** X15 -- In a dataset without equivalence sets every raw entity is in
    the merged entity that has its identity key, with its id and its name,
    so that raw entities with the same key are merged. *)
Theorem entities_merge_by_key (ds : Dataset) :
  equivalences ds = [] ->
  forall e, In e (entities ds) ->
    exists c, In c (_merge_ref_entities ds)
              /\ me_key c = key e /\ In (id_ e) (ids c) /\ In (name e) (names c).
Proof.
  intros Heq e He. unfold _merge_ref_entities. rewrite Heq.
  destruct (by_key_run (entities ds) [] (mkState [] [] []) eq_refl) with (e' := e)
    as [i [c [Hc H]]].
  - intros k i H. discriminate H.
  - intros e' [].
  - exact He.
  - exists c. split; [eapply nth_error_In; exact Hc | exact H].
Qed.

(** An instance of X15: the third sample entity joins the first one. *)
Lemma entities_merge_by_key_witness :
  exists c, In c (_merge_ref_entities three_entities)
            /\ me_key c = key microbe_again
            /\ In (id_ microbe_again) (ids c) /\ In (name microbe_again) (names c).
Proof.
  apply (entities_merge_by_key three_entities eq_refl).
  right. right. left. reflexivity.
Defined.

(** ** The index of ids and the canonicalization as a whole *)

Lemma assoc_inner_ids (k : option pystr) (me : MergedEntity) (l : list (option pystr)) :
  forall m : list (option pystr * MergedEntity),
    assoc id_eqb k (fold_left (fun m id => (id, me) :: m) l m)
    = if existsb (id_eqb k) l then Some me else assoc id_eqb k m.
Proof.
  induction l as [|x l IH]; intros m; cbn [fold_left existsb]; [reflexivity|].
  rewrite IH. cbn [assoc]. destruct (existsb (id_eqb k) l); cbn [orb].
  - rewrite orb_true_r. reflexivity.
  - rewrite orb_false_r. destruct (id_eqb k x); reflexivity.
Qed.

Lemma existsb_id_iff (k : option pystr) (l : list (option pystr)) :
  existsb (id_eqb k) l = true <-> In k l.
Proof.
  rewrite existsb_exists. split.
  - intros [x [Hx E]]. apply id_eqb_eq in E. subst. exact Hx.
  - intros H. exists k. split; [exact H | apply id_eqb_eq; reflexivity].
Qed.

Lemma ent_id_map_fold (k : option pystr) (ents : list MergedEntity) :
  forall m0 : list (option pystr * MergedEntity),
    (exists pre me post,
        ents = pre ++ me :: post /\ In k (ids me)
        /\ (forall c, In c post -> ~ In k (ids c))
        /\ assoc id_eqb k
             (fold_left (fun m me => fold_left (fun m id => (id, me) :: m) (ids me) m)
                        ents m0) = Some me)
    \/ ((forall c, In c ents -> ~ In k (ids c))
        /\ assoc id_eqb k
             (fold_left (fun m me => fold_left (fun m id => (id, me) :: m) (ids me) m)
                        ents m0) = assoc id_eqb k m0).
Proof.
  induction ents as [|me ents IH]; intros m0; cbn [fold_left].
  - right. split; [intros c [] | reflexivity].
  - destruct (IH (fold_left (fun m id => (id, me) :: m) (ids me) m0))
      as [[pre [c [post [-> [Hk [Hpost Hget]]]]]] | [Hnone Hget]].
    + left. exists (me :: pre), c, post. auto.
    + rewrite assoc_inner_ids in Hget.
      destruct (existsb (id_eqb k) (ids me)) eqn:E.
      * left. exists [], me, ents. apply existsb_id_iff in E. auto.
      * right. split; [|exact Hget].
        intros c [<- | Hc]; [|apply Hnone; exact Hc].
        intros C. apply existsb_id_iff in C. congruence.
Qed.

(** X16 -- The index of ids built by [_merge_ref_relations] answers, for an
    id, the last of the merged entities that holds it, and raises KeyError
    exactly when no merged entity holds it. *)
Theorem ent_id_map_lookup (ents : list MergedEntity) (id : pystr) :
  (forall me,
      ent_lookup (build_ent_id_map ents) id = Ret me
      <-> exists pre post,
            ents = pre ++ me :: post /\ In (Some id) (ids me)
            /\ forall c, In c post -> ~ In (Some id) (ids c))
  /\ (ent_lookup (build_ent_id_map ents) id = Raise KeyError
      <-> forall c, In c ents -> ~ In (Some id) (ids c)).
Proof.
  unfold ent_lookup, build_ent_id_map.
  destruct (ent_id_map_fold (Some id) ents [])
    as [[pre [me [post [E [Hk [Hpost Hget]]]]]] | [Hnone Hget]]; rewrite Hget.
  - split.
    + intros me'. split.
      * intros H. inversion H; subst me'. exists pre, post. auto.
      * intros [pre' [post' [E' [Hk' Hpost']]]]. f_equal.
        (* both are the last cluster that holds the id *)
        clear Hget. subst ents. revert pre' E'.
        induction pre as [|x pre IH]; intros pre' E'.
        -- destruct pre' as [|y pre']; cbn [app] in E'.
           ++ inversion E'. reflexivity.
           ++ inversion E'; subst. exfalso.
              apply (Hpost me'); [apply in_app_iff; right; left; reflexivity | exact Hk'].
        -- destruct pre' as [|y pre']; cbn [app] in E'.
           ++ inversion E'; subst. exfalso.
              apply (Hpost' me); [apply in_app_iff; right; left; reflexivity | exact Hk].
           ++ inversion E'. apply (IH pre'). assumption.
    + split; [discriminate|]. intros H. exfalso.
      apply (H me); [rewrite E; apply in_app_iff; right; left; reflexivity | exact Hk].
  - cbn [assoc]. split.
    + intros me. split; [discriminate|].
      intros [pre [post [E [Hk _]]]]. exfalso.
      apply (Hnone me); [rewrite E; apply in_app_iff; right; left; reflexivity | exact Hk].
    + split; [intros _; exact Hnone | reflexivity].
Qed.

Lemma ent_lookup_outcome (m : list (option pystr * MergedEntity)) (id : pystr) :
  (exists me, ent_lookup m id = Ret me) \/ ent_lookup m id = Raise KeyError.
Proof. unfold ent_lookup. destruct (assoc id_eqb (Some id) m); eauto. Qed.

Lemma merge_relations_dangling (m : list (option pystr * MergedEntity)) (rels : list Relation) :
  (exists rel, In rel rels /\ Relation_key m rel = Raise KeyError) ->
  forall seen, merge_relations m seen rels = Raise KeyError.
Proof.
  induction rels as [|rel rels IH]; intros [r [Hin Hr]] seen; [destruct Hin|].
  cbn [merge_relations].
  destruct (Relation_key m rel) as [k| | |] eqn:Ek; cbn [bind].
  - assert (Hrest : exists r', In r' rels /\ Relation_key m r' = Raise KeyError).
    { destruct Hin as [<- | Hin]; [congruence | eauto]. }
    destruct (existsb (relation_key_eqb k) seen); [apply IH; exact Hrest|].
    destruct (Relation_key_init m rel k Ek) as [mr [-> _]]. cbn [bind].
    rewrite (IH Hrest). reflexivity.
  - unfold Relation_key in Ek.
    destruct (ent_lookup_outcome m (source rel)) as [[s Hs] | Hs]; rewrite Hs in Ek;
      cbn [bind] in Ek; [|congruence].
    destruct (ent_lookup_outcome m (target rel)) as [[t Ht] | Ht]; rewrite Ht in Ek;
      cbn [bind] in Ek; [discriminate | congruence].
  - unfold Relation_key in Ek.
    destruct (ent_lookup_outcome m (source rel)) as [[s Hs] | Hs]; rewrite Hs in Ek;
      cbn [bind] in Ek; [|discriminate].
    destruct (ent_lookup_outcome m (target rel)) as [[t Ht] | Ht]; rewrite Ht in Ek;
      cbn [bind] in Ek; discriminate.
  - unfold Relation_key in Ek.
    destruct (ent_lookup_outcome m (source rel)) as [[s Hs] | Hs]; rewrite Hs in Ek;
      cbn [bind] in Ek; [|discriminate].
    destruct (ent_lookup_outcome m (target rel)) as [[t Ht] | Ht]; rewrite Ht in Ek;
      cbn [bind] in Ek; discriminate.
Qed.

Lemma lookup_entity_id (ds : Dataset) (s : pystr) :
  (is_entity_id ds s
   -> exists me, ent_lookup (build_ent_id_map (_merge_ref_entities ds)) s = Ret me)
  /\ (~ is_entity_id ds s
      -> ent_lookup (build_ent_id_map (_merge_ref_entities ds)) s = Raise KeyError).
Proof.
  destruct (covers_merged ds) as [C1 [C2 _]]. split.
  - intros [e [He Hid]].
    destruct (ent_lookup_outcome (build_ent_id_map (_merge_ref_entities ds)) s)
      as [H | H]; [exact H|]. exfalso.
    destruct (C1 e He) as [i [c [Hc [Hi _]]]]. rewrite Hid in Hi.
    destruct (ent_id_map_fold (Some s) (_merge_ref_entities ds) [])
      as [[pre [me [post [_ [_ [_ Hget]]]]]] | [Hnone _]].
    + unfold ent_lookup, build_ent_id_map in H. rewrite Hget in H. discriminate H.
    + apply (Hnone c); [eapply nth_error_In; exact Hc | exact Hi].
  - intros Hno.
    destruct (ent_id_map_fold (Some s) (_merge_ref_entities ds) [])
      as [[pre [me [post [E [Hk _]]]]] | [_ Hget]].
    + exfalso. apply Hno.
      assert (Hme : In me (_merge_ref_entities ds))
        by (rewrite E; apply in_app_iff; right; left; reflexivity).
      apply In_nth_error in Hme. destruct Hme as [i Hi].
      destruct (C2 i me Hi) as [_ [B _]]. apply B, in_map_iff in Hk.
      destruct Hk as [e [Ee He]]. exists e. auto.
    + unfold ent_lookup, build_ent_id_map. rewrite Hget. reflexivity.
Qed.

(** X17 -- Canonicalizing a reference dataset returns, after logging one
    line, a merged dataset with the merged entities and at most as many
    relations as the dataset has, whenever the source and the target of
    every relation are ids of entities of the dataset; it raises KeyError as
    soon as one of them is not. *)
Theorem merge_ref_succeeds_iff_ids_resolve (ds : Dataset) (t : list event) :
  ((forall rel, In rel (relations ds) ->
      is_entity_id ds (source rel) /\ is_entity_id ds (target rel)) ->
   exists rels,
     merge_ref ds t
     = (Ret (mkMergedRefDataset (_merge_ref_entities ds) rels),
        t ++ [Log (str "merging reference relations")])
     /\ length rels <= length (relations ds))
  /\ ((exists rel, In rel (relations ds)
                   /\ (~ is_entity_id ds (source rel) \/ ~ is_entity_id ds (target rel))) ->
      merge_ref ds t = (Raise KeyError, t ++ [Log (str "merging reference relations")])).
Proof.
  split.
  - intros Hids.
    destruct (merge_relations_spec (build_ent_id_map (_merge_ref_entities ds))
                (relations ds) []) as [out [Hout [Hnd [_ [Hcov _]]]]].
    { intros rel Hrel. destruct (Hids rel Hrel) as [Hs Ht].
      destruct (proj1 (lookup_entity_id ds (source rel)) Hs) as [s Es].
      destruct (proj1 (lookup_entity_id ds (target rel)) Ht) as [g Eg].
      unfold Relation_key. rewrite Es, Eg. cbn [bind]. eauto. }
    exists out. split.
    + unfold merge_ref, io_bind, log, lift, io_ret, _merge_ref_relations.
      rewrite Hout. reflexivity.
    + assert (L : length (map mr_key out) <= length (relations ds)).
      { rewrite <- (length_map (fun rel => (r_type rel,
                      match ent_lookup (build_ent_id_map (_merge_ref_entities ds))
                                       (source rel) with Ret s => me_key s | _ => me_key (MergedEntity_init (mkEntity None [] [] [] [])) end,
                      match ent_lookup (build_ent_id_map (_merge_ref_entities ds))
                                       (target rel) with Ret s => me_key s | _ => me_key (MergedEntity_init (mkEntity None [] [] [] [])) end))
                    (relations ds)).
        apply NoDup_incl_length; [exact Hnd|].
        intros k Hk. apply in_map_iff in Hk. destruct Hk as [mr [<- Hmr]].
        destruct (merge_relations_spec (build_ent_id_map (_merge_ref_entities ds))
                    (relations ds) []) as [out' [Hout' [_ [_ [_ Hfirst]]]]].
        { intros rel Hrel. destruct (Hcov rel Hrel) as [k [Hk _]]. eauto. }
        rewrite Hout in Hout'. inversion Hout'; subst out'.
        destruct (Hfirst mr Hmr) as [i [rel [Hi [Hinit _]]]].
        apply in_map_iff. exists rel. split; [|eapply nth_error_In; exact Hi].
        unfold MergedRelation_init in Hinit.
        destruct (ent_lookup _ (source rel)); cbn [bind] in Hinit; try discriminate.
        destruct (ent_lookup _ (target rel)); cbn [bind] in Hinit; try discriminate.
        inversion Hinit. reflexivity. }
      rewrite length_map in L. exact L.
  - intros [rel [Hrel Hbad]].
    unfold merge_ref, io_bind, log, lift, _merge_ref_relations.
    rewrite merge_relations_dangling; [reflexivity|].
    exists rel. split; [exact Hrel|]. unfold Relation_key.
    destruct (ent_lookup_outcome (build_ent_id_map (_merge_ref_entities ds)) (source rel))
      as [[s Hs] | Hs]; rewrite Hs; cbn [bind]; [|reflexivity].
    destruct Hbad as [Hbad | Hbad].
    + rewrite (proj2 (lookup_entity_id ds (source rel)) Hbad) in Hs. discriminate Hs.
    + rewrite (proj2 (lookup_entity_id ds (target rel)) Hbad). reflexivity.
Qed.

(** An instance of X17: the three relations of the sample dataset resolve. *)
Lemma merge_ref_witness :
  exists rels,
    merge_ref repeated_relation []
    = (Ret (mkMergedRefDataset (_merge_ref_entities repeated_relation) rels),
       [] ++ [Log (str "merging reference relations")])
    /\ length rels <= length (relations repeated_relation).
Proof.
  apply (proj1 (merge_ref_succeeds_iff_ids_resolve repeated_relation [])).
  intros rel [<- | [<- | [<- | []]]]; split;
    first [ exists microbe; split; [left; reflexivity | reflexivity]
          | exists disease; split; [right; left; reflexivity | reflexivity] ].
Defined.

(** ** The redundancy filter *)

Section RedundancyFilter.

Variable lower : pystr -> pystr.

Lemma strict_sim_named (r : MergedRelation) (p : Relation) :
  source p <> [] -> target p <> [] -> exists q, strict_sim lower r p = Ret q.
Proof.
  intros Hs Ht. destruct (source p) as [|c s] eqn:Es; [congruence|].
  destruct (target p) as [|d t] eqn:Et; [congruence|].
  destruct (match_name_cons lower (mr_source r) c s) as [bs Hbs].
  destruct (match_name_cons lower (mr_target r) d t) as [bt Hbt].
  rewrite <- Es in Hbs. rewrite <- Et in Hbt.
  rewrite (strict_sim_value lower r p bs bt Hbs Hbt). eauto.
Qed.

Lemma strict_sim_unnamed (r : MergedRelation) (p : Relation) :
  source p = [] \/ target p = [] -> strict_sim lower r p = Raise IndexError.
Proof.
  intros H. destruct (strict_sim_outcome lower r p) as [[q Hq] | Hq]; [|exact Hq].
  exfalso. destruct (strict_sim_inv lower r p q Hq) as [bs [bt [Hs [Ht _]]]].
  destruct H as [H | H]; [rewrite H in Hs | rewrite H in Ht]; discriminate.
Qed.

Lemma scan_pred_returns (r : MergedRelation) (preds : list (nat * Relation)) :
  (forall ip, In ip preds -> source (snd ip) <> [] /\ target (snd ip) <> []) ->
  forall found, exists out, scan_pred lower r found preds = Ret out.
Proof.
  induction preds as [|[i p] preds IH]; intros H found; cbn [scan_pred]; [eauto|].
  destruct (H (i, p) (or_introl eq_refl)) as [Hs Ht]. cbn [snd] in Hs, Ht.
  destruct (strict_sim_named r p Hs Ht) as [q ->]. cbn [bind].
  assert (H' : forall ip, In ip preds -> source (snd ip) <> [] /\ target (snd ip) <> [])
    by (intros ip Hip; apply H; right; exact Hip).
  destruct (Qeq_bool q 1); [destruct found|]; try apply (IH H').
  destruct (IH H' true) as [out ->]. cbn [bind]. eauto.
Qed.

Lemma scan_pred_raises (r : MergedRelation) (preds : list (nat * Relation)) :
  (exists ip, In ip preds /\ (source (snd ip) = [] \/ target (snd ip) = [])) ->
  forall found, scan_pred lower r found preds = Raise IndexError.
Proof.
  induction preds as [|[i p] preds IH]; intros [ip [Hin Hbad]] found; [destruct Hin|].
  cbn [scan_pred].
  destruct (strict_sim_outcome lower r p) as [[q Hq] | Hq]; rewrite Hq; cbn [bind];
    [|reflexivity].
  assert (H' : exists ip, In ip preds /\ (source (snd ip) = [] \/ target (snd ip) = [])).
  { destruct Hin as [<- | Hin]; [|eauto].
    cbn [snd] in Hbad. rewrite (strict_sim_unnamed r p Hbad) in Hq. discriminate Hq. }
  destruct (Qeq_bool q 1); [destruct found|]; rewrite (IH H'); reflexivity.
Qed.

Lemma in_enumerate {A : Type} (l : list A) (ia : nat * A) :
  In ia (enumerate l) -> In (snd ia) l.
Proof. destruct ia as [i a]. unfold enumerate. intros H. apply in_combine_r in H. exact H. Qed.

Lemma enumerate_in {A : Type} (l : list A) (a : A) :
  In a l -> exists i, In (i, a) (enumerate l).
Proof.
  unfold enumerate. generalize 0. induction l as [|x l IH]; intros k H; [destruct H|].
  cbn [length seq combine]. destruct H as [-> | H].
  - exists k. left. reflexivity.
  - destruct (IH (S k) H) as [i Hi]. exists i. right. exact Hi.
Qed.

(** X18 -- The redundancy filter returns its set of redundant predictions
    when there is no reference relation, and when the source and the target
    of every predicted relation are non-empty; with a reference relation and
    a predicted relation whose source or target is empty, it raises
    IndexError. *)
Theorem pred_redundant_outcome (refs : list MergedRelation) (preds : list Relation) :
  (refs = [] \/ (forall p, In p preds -> source p <> [] /\ target p <> []) ->
   exists idxs, pred_redundant lower refs preds = Ret idxs)
  /\ (refs <> [] ->
      (exists p, In p preds /\ (source p = [] \/ target p = [])) ->
      pred_redundant lower refs preds = Raise IndexError).
Proof.
  split.
  - intros [-> | H]; [unfold pred_redundant; cbn; eauto|].
    unfold pred_redundant.
    assert (G : exists l, mapM (fun r => scan_pred lower r false (enumerate preds)) refs
                          = Ret l).
    { induction refs as [|r refs IH]; cbn [mapM]; [eauto|].
      destruct (scan_pred_returns r (enumerate preds)) with (found := false) as [out ->].
      { intros ip Hip. apply H, in_enumerate, Hip. }
      destruct IH as [l ->]. cbn [bind]. eauto. }
    destruct G as [l ->]. cbn [bind]. eauto.
  - intros Hrefs [p [Hp Hbad]]. destruct refs as [|r refs]; [congruence|].
    unfold pred_redundant. cbn [mapM]. rewrite scan_pred_raises; [reflexivity|].
    destruct (enumerate_in preds p Hp) as [i Hi]. exists (i, p). auto.
Qed.

Lemma perfect_dec (r : MergedRelation) (p : Relation) :
  perfect lower r p \/ ~ perfect lower r p.
Proof.
  unfold perfect. destruct (strict_sim lower r p) as [q| | |] eqn:E.
  - destruct (Qeq_bool q 1) eqn:Hq.
    + left. eauto.
    + right. intros [q' [C Hq']]. inversion C; subst q'. congruence.
  - right. intros [q' [C _]]. discriminate C.
  - right. intros [q' [C _]]. discriminate C.
  - right. intros [q' [C _]]. discriminate C.
Qed.

(** X19 -- The redundancy filter removes only predictions with an earlier
    prediction that matches some reference relation perfectly: every removed
    position is a position of the list other than the first one, and below
    every prediction that matches a reference relation perfectly there is
    one, at the same or at an earlier position, that matches a reference
    relation perfectly and is kept. *)
Theorem pred_redundant_keeps_a_perfect_match
  (refs : list MergedRelation) (preds : list Relation) (idxs : list nat) :
  pred_redundant lower refs preds = Ret idxs ->
  (forall j, In j idxs -> 0 < j < length preds)
  /\ (forall j p r,
         nth_error preds j = Some p -> In r refs -> perfect lower r p ->
         exists i p' r',
           i <= j /\ nth_error preds i = Some p' /\ In r' refs /\ perfect lower r' p'
           /\ ~ In i idxs /\ In p' (not_redundant idxs preds)).
Proof.
  intros H. pose proof (pred_redundant_spec lower refs preds idxs H) as S. split.
  - intros j Hj. apply S in Hj.
    destruct Hj as [r [p [_ [Hp [_ [i [p' [Hi _]]]]]]]].
    split; [lia | apply nth_error_Some; congruence].
  - intros j. induction j as [j IH] using (well_founded_induction lt_wf).
    intros p r Hp Hr Pp.
    destruct (in_dec Nat.eq_dec j idxs) as [Hj | Hj].
    + apply S in Hj. destruct Hj as [r1 [p1 [Hr1 [_ [_ [i [p' [Hi [Hp' Pp']]]]]]]]].
      destruct (IH i Hi p' r1 Hp' Hr1 Pp') as [i0 [p0 [r0 [Hle G]]]].
      exists i0, p0, r0. split; [lia | exact G].
    + exists j, p, r. repeat (split; [first [lia | assumption]|]).
      assert (M : In (Some p) (map Some (not_redundant idxs preds))).
      { rewrite not_redundant_positions. apply in_map_iff. exists j.
        split; [exact Hp|]. apply filter_In. split.
        - apply in_seq. split; [lia|]. cbn. apply nth_error_Some. congruence.
        - unfold mem_nat. destruct (existsb (Nat.eqb j) idxs) eqn:E; [|reflexivity].
          apply existsb_exists in E. destruct E as [x [Hx Ex]].
          apply Nat.eqb_eq in Ex. subst x. contradiction. }
      apply in_map_iff in M. destruct M as [x [Ex Hx]]. inversion Ex; subst x. exact Hx.
Qed.

End RedundancyFilter.

(** An instance of X18: the sample predictions all name both arguments. *)
Lemma pred_redundant_outcome_witness :
  exists idxs,
    pred_redundant ascii_lower (m_relations sample_ref) (relations sample_pred) = Ret idxs.
Proof.
  apply (proj1 (pred_redundant_outcome ascii_lower (m_relations sample_ref)
                  (relations sample_pred))).
  right. intros p [<- | [<- | [<- | []]]]; split; discriminate.
Defined.

(** An instance of X19: of the two perfect matches of the sample, the first
    one is kept. *)
Lemma pred_redundant_keeps_witness :
  exists i p' r',
    i <= 1 /\ nth_error (relations sample_pred) i = Some p'
    /\ In r' (m_relations sample_ref) /\ perfect ascii_lower r' p'
    /\ ~ In i [1] /\ In p' (not_redundant [1] (relations sample_pred)).
Proof.
  apply (proj2 (pred_redundant_keeps_a_perfect_match ascii_lower (m_relations sample_ref)
                  (relations sample_pred) [1] eq_refl)
               1 (relation_of "Cause" "e. coli" "'diarrhea'") causes_ref).
  - reflexivity.
  - left. reflexivity.
  - exists 1%Q. split; vm_compute; reflexivity.
Defined.

(** ** Relation types *)

Section TypeMatching.

Variable lower : pystr -> pystr.

(** X20 -- Relation types are compared after the four singular forms of
    TYPEMAP are replaced by the forms of the schema: a reference relation
    whose type is one of the two forms of an entry matches both forms. For
    two types that are not singular forms of TYPEMAP, the comparison is
    equality after whitespace and underscores are removed and the case is
    folded. *)
Theorem match_type_normalization (r : MergedRelation) (ty : pystr) :
  (forall s p,
      In (s, p) TYPEMAP -> mr_type r = s \/ mr_type r = p -> ty = s \/ ty = p ->
      match_type lower r ty = true)
  /\ (assoc str_eqb (mr_type r) TYPEMAP = None ->
      assoc str_eqb ty TYPEMAP = None ->
      (match_type lower r ty = true
       <-> lower (remove_junk (mr_type r)) = lower (remove_junk ty))).
Proof.
  split.
  - intros s p Hin Hr Hty. unfold match_type. apply str_eqb_eq.
    assert (E : _normalize_type lower s = _normalize_type lower p).
    { cbn [TYPEMAP In] in Hin.
      destruct Hin as [H | [H | [H | [H | []]]]]; inversion H; subst s p;
        unfold _normalize_type; vm_compute; reflexivity. }
    destruct Hr as [-> | ->], Hty as [-> | ->]; congruence.
  - intros Hr Hty. unfold match_type, _normalize_type. rewrite Hr, Hty.
    apply str_eqb_eq.
Qed.

End TypeMatching.

(** An instance of X20: the reference type Causes and the predicted type
    Cause. *)
Lemma match_type_witness : match_type ascii_lower causes_ref (str "Cause") = true.
Proof.
  apply (proj1 (match_type_normalization ascii_lower causes_ref (str "Cause"))
               (str "Cause") (str "Causes")).
  - left. reflexivity.
  - right. reflexivity.
  - left. reflexivity.
Defined.

(** ** Mapping a predicted name to a reference entity *)

Section MappingNames.

Variable lower : pystr -> pystr.

Lemma first_match_some (nm : pystr) (me : MergedEntity) (post : list MergedEntity) :
  forall pre,
    match_name lower me nm = Ret true ->
    (forall c, In c pre -> match_name lower c nm = Ret false) ->
    first_match lower (pre ++ me :: post) nm = Ret (Some me).
Proof.
  induction pre as [|c pre IH]; intros Hme Hpre; cbn [app first_match].
  - rewrite Hme. reflexivity.
  - rewrite (Hpre c (or_introl eq_refl)). cbn [bind].
    apply IH; [exact Hme | intros x Hx; apply Hpre; right; exact Hx].
Qed.

Lemma first_match_inv (nm : pystr) :
  forall ents r,
    first_match lower ents nm = Ret r ->
    match r with
    | Some me => exists pre post,
                   ents = pre ++ me :: post
                   /\ match_name lower me nm = Ret true
                   /\ forall c, In c pre -> match_name lower c nm = Ret false
    | None => forall c, In c ents -> match_name lower c nm = Ret false
    end.
Proof.
  induction ents as [|c ents IH]; intros r H; cbn [first_match] in H.
  - inversion H. intros c [].
  - destruct (match_name lower c nm) as [b| | |] eqn:E; cbn [bind] in H; try discriminate.
    destruct b.
    + inversion H. exists [], ents. split; [reflexivity|]. split; [exact E|].
      intros x [].
    + specialize (IH r H). destruct r as [me|].
      * destruct IH as [pre [post [-> [Hme Hpre]]]].
        exists (c :: pre), post. split; [reflexivity|]. split; [exact Hme|].
        intros x [<- | Hx]; [exact E | apply Hpre; exact Hx].
      * intros x [<- | Hx]; [exact E | apply IH; exact Hx].
Qed.

(** X21 -- [_map_name_to_entity] answers the first entity of the reference,
    in the order of its list, that has the name, and None exactly when no
    entity has it. It returns on every non-empty name; on the empty name it
    raises IndexError as soon as the reference has an entity. *)
Theorem map_name_to_entity_first_match (self : MergedRefDataset) (nm : pystr) :
  (forall me,
      _map_name_to_entity lower self nm = Ret (Some me)
      <-> exists pre post,
            m_entities self = pre ++ me :: post
            /\ match_name lower me nm = Ret true
            /\ forall c, In c pre -> match_name lower c nm = Ret false)
  /\ (_map_name_to_entity lower self nm = Ret None
      <-> forall c, In c (m_entities self) -> match_name lower c nm = Ret false)
  /\ (nm <> [] -> exists r, _map_name_to_entity lower self nm = Ret r)
  /\ (nm = [] -> m_entities self <> [] ->
      _map_name_to_entity lower self nm = Raise IndexError).
Proof.
  unfold _map_name_to_entity. split; [|split; [|split]].
  - intros me. split.
    + intros H. apply (first_match_inv nm _ _ H).
    + intros [pre [post [-> [Hme Hpre]]]]. apply first_match_some; assumption.
  - split.
    + intros H. apply (first_match_inv nm _ _ H).
    + generalize (m_entities self). induction l as [|c l IH]; intros H;
        cbn [first_match]; [reflexivity|].
      rewrite (H c (or_introl eq_refl)). cbn [bind].
      apply IH. intros x Hx. apply H. right. exact Hx.
  - intros Hnm. destruct nm as [|ch nm]; [congruence|].
    generalize (m_entities self). induction l as [|c l IH]; cbn [first_match]; [eauto|].
    destruct (match_name_cons lower c ch nm) as [b ->]. cbn [bind].
    destruct b; [eauto | exact IH].
  - intros -> H. destruct (m_entities self) as [|c l]; [congruence|]. reflexivity.
Qed.

End MappingNames.

(** An instance of X21: the quoted name of the second entity of the
    sample reference. *)
Lemma map_name_to_entity_witness :
  _map_name_to_entity ascii_lower sample_ref (str "'Diarrhea'")
  = Ret (Some (MergedEntity_init disease)).
Proof.
  apply (proj2 (proj1 (map_name_to_entity_first_match ascii_lower sample_ref
                         (str "'Diarrhea'")) (MergedEntity_init disease))).
  exists [MergedEntity_init microbe], []. split; [reflexivity|].
  split; [vm_compute; reflexivity|].
  intros c [<- | []]. vm_compute. reflexivity.
Defined.

(** ** What [main] returns *)

Section Returns.

Variable lower : pystr -> pystr.
Variable json_loads : pystr -> option json.
Variable fs : pystr -> option pystr.
Variable get_pairs : similarity -> list MergedRelation -> list Relation -> outcome (list Pair).
Variables BaseT IET : Type.
Variable BaseScores : list Pair -> outcome BaseT.
Variable IEScores : list Pair -> BaseT -> outcome IET.
Variable base_items : BaseT -> outcome (list (pystr * pystr)).
Variable ie_items : IET -> outcome (list (pystr * pystr)).
Variable f_score : IET -> outcome Q.

Lemma main_body_returned (ref_ds : MergedRefDataset) (pred_ds : Dataset)
  (t t' : list event) (q : Q) :
  main_body lower get_pairs BaseT IET BaseScores IEScores base_items ie_items f_score
            ref_ds pred_ds t = (Ret q, t') ->
  exists t0, t' = t0 ++ [PrintFloat q; Print (str "format error")].
Proof.
  unfold main_body. unfold io_bind at 1.
  destruct (evaluate _ _ _ _ _ _ _ _ _ _ _ _ t) as [[[[b ie] pairs]|e|z|] t1];
    try discriminate.
  unfold io_bind, lift, print_float, print, io_ret.
  destruct (f_score ie) as [f|e|z|]; try discriminate.
  intros H. inversion H. exists t1. rewrite <- app_assoc. reflexivity.
Qed.

(** X22 -- A score that [main] returns has been written to the standard
    output: either it is printed and followed by the line [format error],
    which ends every evaluation that succeeds, or it is the score 0.0 of
    the handler of ZeroDivisionError, printed after the warning. *)
Theorem main_prints_what_it_returns (ref_fn pred_fn : pystr) (t t' : list event) (q : Q) :
  main lower json_loads fs get_pairs BaseT IET BaseScores IEScores base_items ie_items
       f_score ref_fn pred_fn t = (Ret q, t') ->
  (exists t0, t' = t0 ++ [PrintFloat q; Print (str "format error")])
  \/ (q = 0%Q
      /\ exists t0, t' = t0 ++ [Log (str "WARNING: nil R/P"); PrintFloat 0%Q]).
Proof.
  unfold main. unfold io_bind at 1.
  destruct (MergedRefDataset_from_json_file json_loads fs ref_fn t)
    as [[ref_ds|e|z|] t1]; try discriminate.
  unfold io_bind at 1.
  destruct (from_json_file json_loads fs pred_fn t1) as [[pred_ds|e|z|] t2];
    try discriminate.
  unfold try_except_zero_division.
  destruct (main_body _ _ _ _ _ _ _ _ _ _ _ t2) as [[q'|e|z|] t3] eqn:B;
    try discriminate.
  - intros H. inversion H; subst q' t3. left. apply (main_body_returned _ _ _ _ _ B).
  - destruct e; try discriminate. rewrite handler_result.
    intros H. inversion H. right. split; [reflexivity|]. exists t3. reflexivity.
Qed.

End Returns.

(** An instance of X22: the run on the sample files returns 1.0. *)
Lemma main_prints_witness :
  (exists t0,
      snd (run_main (files (Some ref_text) (Some good_text)) [])
      = t0 ++ [PrintFloat 1%Q; Print (str "format error")])
  \/ (1%Q = 0%Q
      /\ exists t0,
           snd (run_main (files (Some ref_text) (Some good_text)) [])
           = t0 ++ [Log (str "WARNING: nil R/P"); PrintFloat 0%Q]).
Proof.
  apply (main_prints_what_it_returns ascii_lower json_loads_lite
           (files (Some ref_text) (Some good_text)) munkres_get_pairs base_scores
           base_scores BaseScores_spec IEScores_spec spec_items spec_items spec_f_score
           ref_file pred_file []).
  vm_compute. reflexivity.
Defined.

(** ** The median of the repetitions *)

Lemma insert_sorted_perm (x : Q) (l : list Q) : Permutation (x :: l) (insert_sorted x l).
Proof.
  induction l as [|y l IH]; cbn [insert_sorted]; [apply Permutation_refl|].
  destruct (Qle_bool x y); [apply Permutation_refl|].
  eapply perm_trans; [apply perm_swap | apply perm_skip, IH].
Qed.

Lemma py_sort_perm (l : list Q) : Permutation l (py_sort l).
Proof.
  induction l as [|x l IH]; cbn [py_sort fold_right]; [apply perm_nil|].
  eapply perm_trans; [apply perm_skip, IH | apply insert_sorted_perm].
Qed.

Lemma Qle_bool_false (x y : Q) : Qle_bool x y = false -> (y <= x)%Q.
Proof.
  intros H. apply Qlt_le_weak, Qnot_le_lt. intros C.
  apply Qle_bool_iff in C. congruence.
Qed.

Lemma insert_sorted_sorted (x : Q) (l : list Q) :
  StronglySorted Qle l -> StronglySorted Qle (insert_sorted x l).
Proof.
  induction l as [|y l IH]; intros S; cbn [insert_sorted].
  - constructor; constructor.
  - inversion S as [|? ? Sl Fl]; subst. destruct (Qle_bool x y) eqn:E.
    + apply Qle_bool_iff in E. constructor; [exact S|].
      constructor; [exact E|].
      eapply Forall_impl; [|exact Fl]. intros z Hz. eapply Qle_trans; eassumption.
    + constructor; [apply IH; exact Sl|].
      eapply Permutation_Forall; [apply insert_sorted_perm|].
      constructor; [apply Qle_bool_false; exact E | exact Fl].
Qed.

Lemma py_sort_sorted (l : list Q) : StronglySorted Qle (py_sort l).
Proof.
  induction l as [|x l IH]; cbn [py_sort fold_right]; [constructor|].
  apply insert_sorted_sorted, IH.
Qed.

Lemma filter_length_perm {A : Type} (f : A -> bool) (l l' : list A) :
  Permutation l l' -> length (filter f l) = length (filter f l').
Proof.
  induction 1 as [|x l l' _ IH|x y l|l l' l'' _ IH1 _ IH2]; cbn [filter].
  - reflexivity.
  - destruct (f x); cbn [length]; congruence.
  - destruct (f x), (f y); reflexivity.
  - congruence.
Qed.

(** The middle of five sorted scores. *)
Lemma median_of_five (scores : list Q) :
  length scores = 5 ->
  exists med,
    list_subscript (py_sort scores) (repeat_num / 2) = Ret med
    /\ In med scores
    /\ 3 <= at_most med scores
    /\ 3 <= at_least med scores.
Proof.
  intros L. pose proof (py_sort_perm scores) as P. pose proof (py_sort_sorted scores) as S.
  pose proof (Permutation_length P) as L'. rewrite L in L'.
  destruct (py_sort scores) as [|a [|b [|c [|d [|e [|]]]]]] eqn:E; try discriminate L'.
  exists c. split; [reflexivity|].
  split; [eapply Permutation_in; [apply Permutation_sym; exact P | cbn; auto]|].
  inversion S as [|? ? S1 F1]; subst. inversion S1 as [|? ? S2 F2]; subst.
  inversion S2 as [|? ? S3 F3]; subst.
  inversion F1 as [|? ? _ F1']; subst. inversion F1' as [|? ? Hac _]; subst.
  inversion F2 as [|? ? Hbc _]; subst.
  inversion F3 as [|? ? Hcd F3']; subst. inversion F3' as [|? ? Hce _]; subst.
  apply Qle_bool_iff in Hac, Hbc, Hcd, Hce.
  assert (Hcc : Qle_bool c c = true) by (apply Qle_bool_iff, Qle_refl).
  unfold at_most, at_least.
  rewrite (filter_length_perm _ _ _ P), (filter_length_perm (fun x => Qle_bool c x) _ _ P).
  cbn [filter]. rewrite Hac, Hbc, Hcc, Hcd, Hce.
  split.
  - destruct (Qle_bool d c), (Qle_bool e c); cbn [length]; lia.
  - destruct (Qle_bool c a), (Qle_bool c b); cbn [length]; lia.
Qed.

Lemma io_mapM_length {A B : Type} (f : A -> io B) (l : list A) :
  forall t out t', io_mapM f l t = (Ret out, t') -> length out = length l.
Proof.
  induction l as [|a l IH]; intros t out t' H; cbn [io_mapM] in H.
  - inversion H. reflexivity.
  - unfold io_bind at 1 in H. destruct (f a t) as [[b|e|z|] t1]; try discriminate.
    unfold io_bind at 1 in H.
    destruct (io_mapM f l t1) as [[bs|e|z|] t2] eqn:E; try discriminate.
    inversion H. cbn [length]. f_equal. apply (IH t1 bs t2 E).
Qed.

Lemma never_returns_bind {A B : Type} (c : io A) (k : A -> io B) :
  never_returns c -> never_returns (io_bind c k).
Proof.
  intros H t b t'. unfold io_bind. pose proof (H t) as Hc.
  destruct (c t) as [[a|e|z|] t1]; try discriminate.
  exfalso. apply (Hc a t1). reflexivity.
Qed.

Lemma never_returns_mapM {A B : Type} (f : A -> io B) (a : A) (l : list A) :
  In a l -> never_returns (f a) -> never_returns (io_mapM f l).
Proof.
  induction l as [|x l IH]; intros Hin Ha; [destruct Hin|].
  intros t out t'. cbn [io_mapM]. unfold io_bind at 1.
  destruct (f x t) as [[b|e|z|] t1] eqn:E; try discriminate.
  destruct Hin as [-> | Hin]; [exfalso; apply (Ha t b t1); exact E|].
  unfold io_bind at 1. pose proof (IH Hin Ha t1) as Hl.
  destruct (io_mapM f l t1) as [[bs|e|z|] t2]; try discriminate.
  exfalso. apply (Hl bs t2). reflexivity.
Qed.

Section BatchRuns.

Variable lower : pystr -> pystr.
Variable json_loads : pystr -> option json.
Variable fs : pystr -> option pystr.
Variable get_pairs : similarity -> list MergedRelation -> list Relation -> outcome (list Pair).
Variables BaseT IET : Type.
Variable BaseScores : list Pair -> outcome BaseT.
Variable IEScores : list Pair -> BaseT -> outcome IET.
Variable base_items : BaseT -> outcome (list (pystr * pystr)).
Variable ie_items : IET -> outcome (list (pystr * pystr)).
Variable f_score : IET -> outcome Q.

(** X23 -- When the five repetitions of a document return their scores, the
    value stored for the document is their median: one of the five scores,
    with at least three of them at most equal to it and at least three of
    them at least equal to it. A median that is zero is stored as the string
    [0.0] and any other median as the float. *)
Theorem document_f1_is_median (reference_path output document : pystr)
  (t t' : list event) (scores : list Q) :
  document_scores lower json_loads fs get_pairs BaseT IET BaseScores IEScores base_items
                  ie_items f_score reference_path output document t
  = (Ret scores, t') ->
  exists med,
    document_f1 lower json_loads fs get_pairs BaseT IET BaseScores IEScores base_items
                ie_items f_score reference_path output document t
    = (Ret (cell_of med), t')
    /\ length scores = 5
    /\ In med scores
    /\ 3 <= at_most med scores
    /\ 3 <= at_least med scores
    /\ (cell_of med = StrCell (str "0.0") <-> (med == 0)%Q).
Proof.
  intros H.
  assert (L : length scores = 5).
  { unfold document_scores in H. apply io_mapM_length in H. rewrite H. reflexivity. }
  destruct (median_of_five scores L) as [med [Hmed [Hin [Hlo Hhi]]]].
  exists med. split; [|repeat (split; [assumption|])].
  - unfold document_f1, io_bind, lift, io_ret. rewrite H, Hmed. reflexivity.
  - unfold cell_of. destruct (Qeq_bool med 0) eqn:E.
    + apply Qeq_bool_iff in E. split; auto.
    + split; [discriminate|]. intros C. apply Qeq_bool_iff in C. congruence.
Qed.

Lemma main_missing_reference (ref_fn pred_fn : pystr) (t : list event) :
  fs ref_fn = None ->
  main lower json_loads fs get_pairs BaseT IET BaseScores IEScores base_items ie_items
       f_score ref_fn pred_fn t
  = (Exit 1, t ++ [Log (str "reading " ++ ref_fn); Log (str "ERROR: file not found")]).
Proof.
  intros H. unfold main, MergedRefDataset_from_json_file. unfold io_bind at 1 2.
  rewrite (from_json_file_missing json_loads fs ref_fn t H). reflexivity.
Qed.

Lemma main_missing_prediction (ref_fn pred_fn : pystr) :
  fs pred_fn = None ->
  never_returns (main lower json_loads fs get_pairs BaseT IET BaseScores IEScores
                      base_items ie_items f_score ref_fn pred_fn).
Proof.
  intros H t q t'. unfold main. unfold io_bind at 1.
  destruct (MergedRefDataset_from_json_file json_loads fs ref_fn t)
    as [[ref_ds|e|z|] t1]; try discriminate.
  unfold io_bind at 1.
  rewrite (from_json_file_missing json_loads fs pred_fn t1 H). discriminate.
Qed.

(** X24 -- One missing file stops the batch before anything is stored: when
    the reference file of a document is missing, the first repetition exits
    with status 1 after the two log lines; when the predicted file of one of
    the five repetitions is missing, the computation for the document does
    not return. *)
Theorem missing_file_stops_the_batch (reference_path output document : pystr) :
  (fs (reference_file reference_path document) = None ->
   forall t,
     document_f1 lower json_loads fs get_pairs BaseT IET BaseScores IEScores base_items
                 ie_items f_score reference_path output document t
     = (Exit 1,
        t ++ [Log (str "reading " ++ reference_file reference_path document);
              Log (str "ERROR: file not found")]))
  /\ (forall repeat,
         (1 <= repeat <= 5)%Z ->
         fs (repetition_file output document repeat) = None ->
         never_returns
           (document_f1 lower json_loads fs get_pairs BaseT IET BaseScores IEScores
                        base_items ie_items f_score reference_path output document)).
Proof.
  split.
  - intros H t. unfold document_f1, document_scores.
    change (py_range 1 (repeat_num + 1)) with [1; 2; 3; 4; 5]%Z.
    cbn [io_mapM]. unfold io_bind at 1 2. unfold repetition at 1.
    rewrite (main_missing_reference _ _ t H). reflexivity.
  - intros repeat Hr H. unfold document_f1. apply never_returns_bind.
    unfold document_scores. apply (never_returns_mapM _ repeat).
    + change (py_range 1 (repeat_num + 1)) with [1; 2; 3; 4; 5]%Z.
      assert (C : (repeat = 1 \/ repeat = 2 \/ repeat = 3 \/ repeat = 4 \/ repeat = 5)%Z)
        by lia.
      cbn [In]. intuition auto.
    + unfold repetition. apply main_missing_prediction. exact H.
Qed.

End BatchRuns.

(** An instance of X23: three of the five sample runs score 1.0, the two
    others 0.0. *)
Lemma document_f1_witness :
  exists med,
    run_document batch_files []
    = (Ret (cell_of med), snd (run_document batch_files []))
    /\ length [1; 1; 0; 1; 0]%Q = 5
    /\ In med [1; 1; 0; 1; 0]%Q
    /\ 3 <= at_most med [1; 1; 0; 1; 0]%Q
    /\ 3 <= at_least med [1; 1; 0; 1; 0]%Q
    /\ (cell_of med = StrCell (str "0.0") <-> (med == 0)%Q).
Proof.
  apply (document_f1_is_median ascii_lower json_loads_lite batch_files munkres_get_pairs
           base_scores base_scores BaseScores_spec IEScores_spec spec_items spec_items
           spec_f_score (str "ref") (str "m") (str "d1") []
           (snd (run_document batch_files [])) [1; 1; 0; 1; 0]%Q).
  vm_compute. reflexivity.
Defined.

(** An instance of X24: the fourth predicted file is missing. *)
Lemma missing_file_witness :
  never_returns (run_document (without (str "output/repetition/m/d1/4.txt") batch_files)).
Proof.
  apply (proj2 (missing_file_stops_the_batch ascii_lower json_loads_lite
                  (without (str "output/repetition/m/d1/4.txt") batch_files)
                  munkres_get_pairs base_scores base_scores BaseScores_spec IEScores_spec
                  spec_items spec_items spec_f_score (str "ref") (str "m") (str "d1"))
               4%Z).
  - lia.
  - vm_compute. reflexivity.
Defined.

(** ** Mapping the entities of a prediction *)

Section MappingEntities.

Variable lower : pystr -> pystr.

Lemma map_name_outcome (self : MergedRefDataset) (nm : pystr) :
  (nm <> [] -> exists r, _map_name_to_entity lower self nm = Ret r)
  /\ (nm = [] -> m_entities self <> [] ->
      _map_name_to_entity lower self nm = Raise IndexError).
Proof.
  unfold _map_name_to_entity. split.
  - intros Hnm. destruct nm as [|ch nm]; [congruence|].
    generalize (m_entities self). induction l as [|c l IH]; cbn [first_match]; [eauto|].
    destruct (match_name_cons lower c ch nm) as [b ->]. cbn [bind].
    destruct b; [eauto | exact IH].
  - intros -> H. destruct (m_entities self) as [|c l]; [congruence|]. reflexivity.
Qed.

(** X25 -- [map_entities] returns one entry for every entity of the
    prediction, in their order, each with the answer of
    [_map_name_to_entity] for its name, whenever no predicted entity has the
    empty name; with a reference that has an entity and a predicted entity
    whose name is empty, it raises IndexError. *)
Theorem map_entities_outcome (self : MergedRefDataset) (pred : Dataset) :
  ((forall e, In e (entities pred) -> name e <> []) ->
   exists out,
     map_entities lower self pred = Ret out
     /\ map fst out = entities pred
     /\ forall e r, In (e, r) out -> _map_name_to_entity lower self (name e) = Ret r)
  /\ (m_entities self <> [] ->
      (exists e, In e (entities pred) /\ name e = []) ->
      map_entities lower self pred = Raise IndexError).
Proof.
  unfold map_entities. split.
  - generalize (entities pred). induction l as [|e l IH]; intros H; cbn [mapM].
    + exists []. split; [reflexivity|]. split; [reflexivity|]. intros e r [].
    + destruct (proj1 (map_name_outcome self (name e)) (H e (or_introl eq_refl)))
        as [r Hr].
      destruct IH as [out [Hout [Hfst Hall]]]; [intros x Hx; apply H; right; exact Hx|].
      rewrite Hr. cbn [bind]. rewrite Hout. cbn [bind].
      exists ((e, r) :: out). split; [reflexivity|].
      split; [cbn [map fst]; f_equal; exact Hfst|].
      intros e' r' [E | Hin]; [inversion E; subst; exact Hr | apply Hall; exact Hin].
  - intros Hne. generalize (entities pred).
    induction l as [|e l IH]; intros [x [Hin Hx]]; [destruct Hin|].
    cbn [mapM]. destruct (name e) as [|ch nm] eqn:En.
    + rewrite (proj2 (map_name_outcome self []) eq_refl Hne). reflexivity.
    + destruct (proj1 (map_name_outcome self (ch :: nm))) as [r ->]; [discriminate|].
      cbn [bind]. rewrite IH; [reflexivity|].
      destruct Hin as [<- | Hin]; [congruence | eauto].
Qed.

End MappingEntities.

(** An instance of X25: the three entities of a sample dataset against the
    sample reference. *)
Lemma map_entities_witness :
  exists out,
    map_entities ascii_lower sample_ref three_entities = Ret out
    /\ map fst out = entities three_entities
    /\ forall e r, In (e, r) out -> _map_name_to_entity ascii_lower sample_ref (name e) = Ret r.
Proof.
  apply (proj1 (map_entities_outcome ascii_lower sample_ref three_entities)).
  intros e [<- | [<- | [<- | []]]]; discriminate.
Defined.
